(** * Journal-entry risk scoring: a shallow embedding of [src/risk_scoring.py]

    The pipeline of [risk_scoring.py] is a chain of functions over one pandas
    [DataFrame].  The embedding keeps that shape: a frame is a row count and
    a finite map from column names to typed columns, every stage reads the
    columns it needs by name and writes the columns it derives, and failures
    (a missing column, a column of the wrong dtype, an unknown time zone)
    travel through an error monad.

    Numbers.  An [int64] cell is a [Z]; where the program computes in
    [int64] (the absolute value of an integer amount, the product of a flag
    and its weight) the wrap-around is written out.  A [float64] cell is an
    [option Q]: [None] is NaN, [Some q] the number [q].  The two z-score
    stages take their floating-point arithmetic as a parameter, a record
    [FloatOps] of the subtraction, the division and the two aggregations
    ([mean], [std]) they use; what is proved of [compute_amount_stats_with]
    and [compute_user_volume_with] holds for every such arithmetic.  Two
    instances are given: [exact_ops], where sums, differences, products and
    quotients are those of the rationals (no rounding, no overflow to
    infinity) and the square root of the standard deviation is a parameter
    [sqrtQ], and [Binary64.ops], where every operation rounds to the nearest
    [float64] and the aggregations follow the loops of pandas.  The pipeline
    [run] is stated over the first.  String cells are [string]s; the source
    columns hold values of the dtype the data model gives them. *)

From Stdlib Require Import ZArith QArith Qround Qabs Lia Lqa Ascii String.
From stdpp Require Import base option list gmap strings fin_maps sorting.

Open Scope Z_scope.

(** ** Errors and the result monad *)

Inductive Error : Type :=
| MissingColumns (missing : gset string)
    (* ValueError(f"Missing columns: {missing}"), line 35 *)
| MissingParseDates (absent : list string)
    (* ValueError raised by pd.read_csv for parse_dates columns that the
       header does not have *)
| KeyError (column : string)            (* df[column] on an absent column *)
| TypeError (column : string)           (* a column of an unexpected dtype *)
| OverlapError (column : string)        (* join onto an existing column *)
| TimeZoneError (zone : string).        (* tz_localize refused the zone or the instant *)

Inductive Result (A : Type) : Type :=
| OK (a : A)
| Err (e : Error).
Arguments OK {A} a.
Arguments Err {A} e.

Global Instance Result_ret : MRet Result := λ A a, OK a.
Global Instance Result_bind : MBind Result := λ A B f m,
  match m with
  | OK a => f a
  | Err e => Err e
  end.
Global Instance Result_fmap : FMap Result := λ A B f m,
  match m with
  | OK a => OK (f a)
  | Err e => Err e
  end.

(** [[f(x) for x in xs]], stopping at the first failure. *)
Fixpoint traverse {A B : Type} (f : A → Result B) (xs : list A) : Result (list B) :=
  match xs with
  | [] => OK []
  | x :: xs' => y ← f x; ys ← traverse f xs'; OK (y :: ys)
  end.

(** ** Dates and timestamps *)

Record Date : Type := mkDate { year : Z; month : Z; day : Z }.

Record Timestamp : Type := mkTimestamp {
  ts_date : Date; hour : Z; minute : Z; second : Z
}.

Global Instance Date_eq_dec : EqDecision Date.
Proof. solve_decision. Defined.

Global Instance Timestamp_eq_dec : EqDecision Timestamp.
Proof. solve_decision. Defined.

(** Days since 1970-01-01 of a proleptic Gregorian date, the value a
    [datetime64[D]] holds. *)
Definition days_from_civil (d : Date) : Z :=
  let y := if month d <=? 2 then year d - 1 else year d in
  let era := y / 400 in
  let yoe := y - era * 400 in
  let mp := if month d <=? 2 then month d + 9 else month d - 3 in
  let doy := (153 * mp + 2) / 5 + day d - 1 in
  let doe := yoe * 365 + yoe / 4 - yoe / 100 + doy in
  era * 146097 + doe - 719468.

(** [Series.dt.dayofweek]: Monday is 0, Sunday is 6. *)
Definition dayofweek (d : Date) : Z := (days_from_civil d + 3) mod 7.

(** [values.astype("datetime64[M]")]: the first day of the date's month. *)
Definition month_floor (d : Date) : Date := mkDate (year d) (month d) 1.

(** ** Series and frames *)

Inductive Series : Type :=
| SInt (xs : list Z)                 (* int64 *)
| SFloat (xs : list (option Q))      (* float64, None = NaN *)
| SStr (xs : list string)            (* object column of str *)
| SDate (xs : list Date)             (* datetime64, a calendar date *)
| STime (xs : list Timestamp).       (* datetime64, a naive timestamp *)

Definition series_len (s : Series) : nat :=
  match s with
  | SInt xs => length xs
  | SFloat xs => length xs
  | SStr xs => length xs
  | SDate xs => length xs
  | STime xs => length xs
  end.

Record DataFrame : Type := mkDF {
  nrows : nat;                        (* len(df) *)
  columns : gmap string Series
}.

(** Every column of a pandas frame has one cell per row. *)
Definition wf_frame (df : DataFrame) : Prop :=
  ∀ c s, columns df !! c = Some s → series_len s = nrows df.

(** [df[c]] *)
Definition col (df : DataFrame) (c : string) : Result Series :=
  match columns df !! c with
  | Some s => OK s
  | None => Err (KeyError c)
  end.

(** [df[c] = s] *)
Definition set_col (df : DataFrame) (c : string) (s : Series) : DataFrame :=
  mkDF (nrows df) (<[c := s]> (columns df)).

Definition get_int (df : DataFrame) (c : string) : Result (list Z) :=
  s ← col df c;
  match s with SInt xs => OK xs | _ => Err (TypeError c) end.

Definition get_str (df : DataFrame) (c : string) : Result (list string) :=
  s ← col df c;
  match s with SStr xs => OK xs | _ => Err (TypeError c) end.

Definition get_date (df : DataFrame) (c : string) : Result (list Date) :=
  s ← col df c;
  match s with SDate xs => OK xs | _ => Err (TypeError c) end.

Definition get_time (df : DataFrame) (c : string) : Result (list Timestamp) :=
  s ← col df c;
  match s with STime xs => OK xs | _ => Err (TypeError c) end.

(** A numeric column read as floats: an [int64] column is cast, as numpy does
    when an integer column meets a float operand. *)
Definition as_float (c : string) (s : Series) : Result (list (option Q)) :=
  match s with
  | SInt xs => OK ((λ z, Some (inject_Z z)) <$> xs)
  | SFloat xs => OK xs
  | _ => Err (TypeError c)
  end.

Definition get_float (df : DataFrame) (c : string) : Result (list (option Q)) :=
  s ← col df c; as_float c s.

(** ** float64 arithmetic, NaN-propagating *)

Definition fadd (x y : option Q) : option Q :=
  match x, y with Some a, Some b => Some (a + b)%Q | _, _ => None end.

Definition fsub (x y : option Q) : option Q :=
  match x, y with Some a, Some b => Some (a - b)%Q | _, _ => None end.

Definition fmul (x y : option Q) : option Q :=
  match x, y with Some a, Some b => Some (a * b)%Q | _, _ => None end.

(** The pipeline divides only by a standard deviation whose zeros were
    replaced by NaN; a zero divisor (an infinity or 0/0 in IEEE) is NaN here. *)
Definition fdiv (x y : option Q) : option Q :=
  match x, y with
  | Some a, Some b => if Qeq_bool b 0 then None else Some (a / b)%Q
  | _, _ => None
  end.

(** [x % m] for a positive modulus, as Python and numpy define it. *)
Definition fmod (x : option Q) (m : Q) : option Q :=
  match x with
  | Some a => Some (a - m * inject_Z (Qfloor (a / m)))%Q
  | None => None
  end.

(** [x >= t]; a comparison with NaN is False. *)
Definition fge (x : option Q) (t : Q) : bool :=
  match x with Some a => Qle_bool t a | None => false end.

(** [x <= t] *)
Definition fle (x t : option Q) : bool :=
  match x, t with Some a, Some b => Qle_bool a b | _, _ => false end.

(** [x == t] *)
Definition feq (x : option Q) (t : Q) : bool :=
  match x with Some a => Qeq_bool a t | None => false end.

(** [Series.replace(0, np.nan)] on one cell. *)
Definition replace_zero_nan (x : option Q) : option Q :=
  match x with
  | Some a => if Qeq_bool a 0 then None else Some a
  | None => None
  end.

(** [Series.fillna(v)] on one cell. *)
Definition fillna (v : Q) (x : option Q) : option Q :=
  match x with Some a => Some a | None => Some v end.

(** [np.clip(x, lo, hi)] on one cell: [minimum(maximum(x, lo), hi)]. *)
Definition clip (lo hi : Q) (x : option Q) : option Q :=
  match x with
  | Some a =>
      let b := if Qle_bool lo a then a else lo in
      Some (if Qle_bool b hi then b else hi)
  | None => None
  end.

(** [.astype(int)] of a boolean. *)
Definition astype_int (b : bool) : Z := if b then 1 else 0.

(** ** int64 arithmetic *)

(** The [int64] that a result [z] of integer arithmetic is stored as: numpy
    keeps the low 64 bits, two's complement. *)
Definition wrap_int64 (z : Z) : Z := (z + 2 ^ 63) mod 2 ^ 64 - 2 ^ 63.

(** [abs()] of an [int64] cell.  The cells of an [int64] column lie between
    -2^63 and 2^63 - 1; the least of them has no positive counterpart, and
    its absolute value wraps around to -2^63 itself. *)
Definition abs_int64 (x : Z) : Z :=
  if Z.abs x =? 2 ^ 63 then - 2 ^ 63 else Z.abs x.

(** [Series.abs()] of a numeric column, read as floats afterwards: an
    [int64] column takes its absolute values in [int64], a [float64] column
    clears the sign. *)
Definition series_abs (c : string) (s : Series) : Result (list (option Q)) :=
  match s with
  | SInt xs => OK ((λ x, Some (inject_Z (abs_int64 x))) <$> xs)
  | SFloat xs => OK (fmap (M:=option) Qabs <$> xs)
  | _ => Err (TypeError c)
  end.

(** ** Loading *)

Definition expected_cols : gset string :=
  list_to_set [
    "entry_id"; "entity"; "je_number"; "line_num"; "account";
    "offset_account"; "description"; "amount"; "currency"; "debit_credit";
    "posting_date"; "posting_timestamp"; "time_zone"; "created_by";
    "source"; "approval_status" ].

(** [pd.read_csv(path, parse_dates=...)].  The argument [tbl] is the table the
    file holds, its date columns already typed: parsing the text is outside
    the model.  What is inside is the parser's check of [parse_dates] against
    the header (pandas' [_validate_parse_dates_presence]): a name of
    [parse_dates] that is no column of the file makes [read_csv] raise
    [ValueError("Missing column provided to 'parse_dates': ...")], whose
    message lists the absent names of [parse_dates] and nothing else. *)
Definition read_csv (tbl : DataFrame) (parse_dates : list string) : Result DataFrame :=
  let absent := filter (λ c, c ∉ dom (columns tbl)) parse_dates in
  match absent with
  | [] => OK tbl
  | _ => Err (MissingParseDates absent)
  end.

Definition load_data (tbl : DataFrame) : Result DataFrame :=
  df ← read_csv tbl ["posting_date"; "posting_timestamp"];
  let missing := expected_cols ∖ dom (columns df) in
  if decide (missing = ∅) then OK df else Err (MissingColumns missing).

(** ** Grouping, joining and merging *)

(** The keys of a [groupby], each once, in order of occurrence.  pandas
    orders the groups by key.  Where the grouped table is only read back by
    key (the account statistics, the pair counts) the order of its rows
    reaches no column of the result; where its rows are aggregated again
    (the monthly counts of a user) [groupby_agg_sorted] keeps the order of
    pandas. *)
Definition group_keys {K : Type} `{EqDecision K} (keys : list K) : list K :=
  remove_dups keys.

(** The cells of [vals] on the rows whose key is [k], in row order. *)
Definition group_values {K V : Type} `{EqDecision K}
    (k : K) (keys : list K) (vals : list V) : list V :=
  (filter (λ kv, kv.1 = k) (zip keys vals)).*2.

(** The row positions of the group of [k] ([subset.index]). *)
Definition group_index {K : Type} `{EqDecision K} (k : K) (keys : list K) : list nat :=
  group_values k keys (seq 0 (length keys)).

(** [groupby(keys)[vals].agg(f)]: one row per group, indexed by its key. *)
Definition groupby_agg {K V R : Type} `{EqDecision K}
    (keys : list K) (vals : list V) (f : list V → R) : list (K * R) :=
  (λ k, (k, f (group_values k keys vals))) <$> group_keys keys.

(** [groupby(keys)[vals].agg(f).reset_index()]: one row per group, the
    groups in the order [le] of their keys. *)
Definition groupby_agg_sorted {K V R : Type} `{EqDecision K}
    (le : relation K) `{∀ x y, Decision (le x y)}
    (keys : list K) (vals : list V) (f : list V → R) : list (K * R) :=
  (λ k, (k, f (group_values k keys vals))) <$> merge_sort le (group_keys keys).

(** The order of Python's [str]: character by character by code point, a
    proper prefix before the longer string. *)
Fixpoint string_leb (s t : string) : bool :=
  match s, t with
  | EmptyString, _ => true
  | String _ _, EmptyString => false
  | String a s', String b t' =>
      (N_of_ascii a <? N_of_ascii b)%N ||
      ((N_of_ascii a =? N_of_ascii b)%N && string_leb s' t')
  end.

(** The order of calendar dates. *)
Definition date_le (d1 d2 : Date) : Prop :=
  year d1 < year d2 ∨
  (year d1 = year d2 ∧
   (month d1 < month d2 ∨ (month d1 = month d2 ∧ day d1 ≤ day d2))).

Global Instance date_le_dec d1 d2 : Decision (date_le d1 d2).
Proof. unfold date_le. apply _. Defined.

(** The order of the (user, month) keys of a two-column [groupby]: by user,
    then by month. *)
Definition key_le (k1 k2 : string * Date) : Prop :=
  if decide (k1.1 = k2.1) then date_le k1.2 k2.2
  else string_leb k1.1 k2.1 = true.

Global Instance key_le_dec k1 k2 : Decision (key_le k1 k2).
Proof. unfold key_le. destruct (decide (k1.1 = k2.1)); apply _. Defined.

(** The row of a keyed table with index [k]. *)
Fixpoint assoc {K V : Type} `{EqDecision K} (k : K) (tbl : list (K * V)) : option V :=
  match tbl with
  | [] => None
  | (k', v) :: tbl' => if decide (k' = k) then Some v else assoc k tbl'
  end.

(** [df.join(other, on=...)] refuses a column name the frame already has. *)
Definition join_check (df : DataFrame) (c : string) : Result unit :=
  match columns df !! c with
  | Some _ => Err (OverlapError c)
  | None => OK ()
  end.

(** [left.merge(right, on=keys)] renames a column that both sides have and
    that is no key (suffixes [_x] and [_y]); reading [df[c]] afterwards
    raises [KeyError]. *)
Definition merge_check (df : DataFrame) (c : string) : Result unit :=
  match columns df !! c with
  | Some _ => Err (KeyError c)
  | None => OK ()
  end.

(** [xs.iloc[index]] *)
Definition iloc_list {A : Type} (index : list nat) (xs : list A) : list A :=
  omap (λ i, xs !! i) index.

Definition iloc (index : list nat) (s : Series) : Series :=
  match s with
  | SInt xs => SInt (iloc_list index xs)
  | SFloat xs => SFloat (iloc_list index xs)
  | SStr xs => SStr (iloc_list index xs)
  | SDate xs => SDate (iloc_list index xs)
  | STime xs => STime (iloc_list index xs)
  end.

(** The rows a left merge gives for the left row [i] with key [k]: one per
    matching row of [right], or one with no match at all. *)
Definition merge_matches {K V : Type} `{EqDecision K}
    (right : list (K * V)) (i : nat) (k : K) : list (nat * option V) :=
  match filter (λ kv, kv.1 = k) right with
  | [] => [(i, None)]
  | ms => (λ kv, (i, Some kv.2)) <$> ms
  end.

(** [left.merge(right, on=keys, how="left")], as the list of (left row
    position, matched right value) for the rows of the result, in order. *)
Definition merge_left {K V : Type} `{EqDecision K}
    (lkeys : list K) (right : list (K * V)) : list (nat * option V) :=
  mjoin (imap (merge_matches right) lkeys).

(** [xs.loc[index] = values] *)
Definition assign {A : Type} (xs : list A) (index : list nat) (values : list A) : list A :=
  foldl (λ acc iv, <[iv.1 := iv.2]> acc) xs (zip index values).

(** ** Aggregations *)

Definition dropna (xs : list (option Q)) : list Q := omap id xs.

Definition Qsum (xs : list Q) : Q := foldr Qplus 0%Q xs.

(** [mean] of a group, NaN cells skipped; NaN for a group without numbers. *)
Definition mean (xs : list (option Q)) : option Q :=
  let v := dropna xs in
  match v with
  | [] => None
  | _ => Some (Qsum v / inject_Z (Z.of_nat (length v)))%Q
  end.

(** Sample variance (ddof = 1); NaN when fewer than two numbers remain. *)
Definition var (xs : list (option Q)) : option Q :=
  let v := dropna xs in
  let n := Z.of_nat (length v) in
  if n <=? 1 then None
  else
    let m := (Qsum v / inject_Z n)%Q in
    Some (Qsum ((λ x, (x - m) * (x - m))%Q <$> v) / inject_Z (n - 1))%Q.

(** [Series.nunique()] *)
Definition nunique {A : Type} `{EqDecision A} (xs : list A) : Z :=
  Z.of_nat (length (remove_dups xs)).

(** Linear interpolation in sorted data [s] at the fractional position
    [virtual]: the position is split into its floor and the rest, and the
    result lies that far between the two neighbours. *)
Definition interpolate (s : list Z) (virtual : Q) : Q :=
  let previous := Z.to_nat (Qfloor virtual) in
  let next := Nat.min (previous + 1) (length s - 1) in
  let gamma := (virtual - inject_Z (Z.of_nat previous))%Q in
  let lo := inject_Z (default 0 (s !! previous)) in
  let hi := inject_Z (default 0 (s !! next)) in
  (lo + (hi - lo) * gamma)%Q.

(** [np.percentile(a, q)] with the default method, linear interpolation at
    the position [(n-1)*q/100] of the sorted data; NaN on no data. *)
Definition percentile (a : list Z) (q : Q) : option Q :=
  match a with
  | [] => None
  | _ => Some (interpolate (merge_sort Z.le a)
                 (inject_Z (Z.of_nat (length a - 1)) * (q / 100)))
  end.

(** ** Floating-point arithmetic as a parameter

    The operations of [float64] that the z-score stages use: the difference
    and the quotient of two numbers, which may be NaN, and the [mean] and
    the [std] of a pandas aggregation, each a function of the cells of the
    group in row order. *)
Record FloatOps : Type := mkFloatOps {
  fl_sub : Q → Q → option Q;
  fl_div : Q → Q → option Q;
  agg_mean : list (option Q) → option Q;
  agg_std : list (option Q) → option Q
}.

(** An operation of two numbers on two cells: NaN as soon as a cell is. *)
Definition lift2 (op : Q → Q → option Q) (x y : option Q) : option Q :=
  match x, y with Some a, Some b => op a b | _, _ => None end.

(** ** Strings *)

Definition lower_ascii (c : ascii) : ascii :=
  let n := nat_of_ascii c in
  if ((65 <=? n) && (n <=? 90))%nat then ascii_of_nat (n + 32) else c.

(** [str.lower()], on ASCII letters. *)
Fixpoint lower (s : string) : string :=
  match s with
  | EmptyString => EmptyString
  | String c s' => String (lower_ascii c) (lower s')
  end.

(** [k in x] for strings: [k] occurs in [x] as a substring. *)
Fixpoint contains (k x : string) : bool :=
  String.prefix k x ||
  match x with
  | EmptyString => false
  | String _ x' => contains k x'
  end.

Definition KEYWORDS : list string := ["gift"; "manual"; "write-off"; "write off"].

(** ** The stages of the pipeline *)

Section Pipeline.

(** [sqrtQ] is the square root of [float64]; [tz_localize] attaches a
    time zone to a naive timestamp and fails on a zone or an instant that
    the zone database refuses. *)
Variable sqrtQ : Q → Q.
Variable tz_localize : Timestamp → string → Result Timestamp.

(** Sample standard deviation, the [std] of a pandas aggregation. *)
Definition std (xs : list (option Q)) : option Q := sqrtQ <$> var xs.

Definition add_time_features (df : DataFrame) : Result DataFrame :=
  posting_timestamp ← get_time df "posting_timestamp";
  time_zone ← get_str df "time_zone";
  local_hour ← traverse (λ r, hour <$> tz_localize r.1 r.2)
                        (zip posting_timestamp time_zone);
  let df := set_col df "local_hour" (SInt local_hour) in
  posting_date ← get_date df "posting_date";
  OK (set_col df "dow" (SInt (dayofweek <$> posting_date))).

(** The arithmetic of the rationals. *)
Definition exact_ops : FloatOps :=
  mkFloatOps (λ a b, Some (a - b)%Q)
             (λ a b, if Qeq_bool b 0 then None else Some (a / b)%Q)
             mean std.

(** [(x - avg) / std.replace(0, nan)] followed by [fillna(0)]. *)
Definition zscore_with (ar : FloatOps) (x avg sd : option Q) : option Q :=
  fillna 0 (lift2 (fl_div ar) (lift2 (fl_sub ar) x avg) (replace_zero_nan sd)).

(** The same, in the arithmetic of the rationals. *)
Definition zscore (x avg sd : option Q) : option Q :=
  fillna 0 (fdiv (fsub x avg) (replace_zero_nan sd)).

Definition compute_amount_stats_with (ar : FloatOps) (df : DataFrame)
    : Result DataFrame :=
  amount ← col df "amount";
  abs_amount ← series_abs "amount" amount;
  let df := set_col df "abs_amount" (SFloat abs_amount) in
  account ← get_str df "account";
  let stats := groupby_agg account abs_amount (λ g, (agg_mean ar g, agg_std ar g)) in
  _ ← join_check df "avg_abs_amount";
  _ ← join_check df "std_abs_amount";
  let joined := (λ a, default (None, None) (assoc a stats)) <$> account in
  let df := set_col df "avg_abs_amount" (SFloat (joined.*1)) in
  let df := set_col df "std_abs_amount" (SFloat (joined.*2)) in
  let amount_z := zip_with (λ x s, zscore_with ar x s.1 s.2) abs_amount joined in
  let df := set_col df "amount_z" (SFloat amount_z) in
  let df := set_col df "amount_outlier_flag"
              (SInt ((λ z, astype_int (fge z 2)) <$> amount_z)) in
  OK (set_col df "round_dollar_flag"
        (SInt ((λ x, astype_int (feq (fmod x 100) 0)) <$> abs_amount))).

(** The stage in the arithmetic of the rationals. *)
Definition compute_amount_stats : DataFrame → Result DataFrame :=
  compute_amount_stats_with exact_ops.

Definition compute_user_volume_with (ar : FloatOps) (df : DataFrame)
    : Result DataFrame :=
  posting_date ← get_date df "posting_date";
  let month_start := month_floor <$> posting_date in
  let df := set_col df "month_start" (SDate month_start) in
  created_by ← get_str df "created_by";
  entry_id ← get_str df "entry_id";
  let keys := zip created_by month_start in
  let per_user_month := groupby_agg_sorted key_le keys entry_id nunique in
  let stats :=
    groupby_agg (per_user_month.*1.*1)
                ((λ km, Some (inject_Z km.2)) <$> per_user_month)
                (λ g, (agg_mean ar g, agg_std ar g)) in
  let z_scores :=
    (λ km, let s := default (None, None) (assoc km.1.1 stats) in
           (km.1, zscore_with ar (Some (inject_Z km.2)) s.1 s.2)) <$> per_user_month in
  _ ← merge_check df "entry_volume_z";
  let merged := merge_left keys z_scores in
  let df := mkDF (length merged) (iloc (merged.*1) <$> columns df) in
  let entry_volume_z := (λ r, mjoin r.2) <$> merged in
  let df := set_col df "entry_volume_z" (SFloat entry_volume_z) in
  OK (set_col df "user_volume_outlier_flag"
        (SInt ((λ z, astype_int (fge z 2)) <$> entry_volume_z))).

(** The stage in the arithmetic of the rationals. *)
Definition compute_user_volume : DataFrame → Result DataFrame :=
  compute_user_volume_with exact_ops.

Definition rare_flag (threshold : option Q) (c : Z) : Z :=
  astype_int (fle (Some (inject_Z c)) threshold || bool_decide (c = 1)).

(** The body of the loop of lines 89-92, for the group of account [a]. *)
Definition flag_account_group (account : list string) (pair_count : list Z)
    (flags : list Z) (a : string) : list Z :=
  let index := group_index a account in
  let counts := iloc_list index pair_count in
  let threshold := percentile counts 25 in
  assign flags index (rare_flag threshold <$> counts).

Definition compute_pair_rarity (df : DataFrame) : Result DataFrame :=
  account ← get_str df "account";
  offset_account ← get_str df "offset_account";
  let pairs := zip account offset_account in
  let pair_counts := groupby_agg pairs pairs (λ g, Z.of_nat (length g)) in
  _ ← join_check df "pair_count";
  let pair_count := (λ p, default 0 (assoc p pair_counts)) <$> pairs in
  let df := set_col df "pair_count" (SInt pair_count) in
  let flags :=
    foldl (flag_account_group account pair_count)
          (replicate (nrows df) 0) (group_keys account) in
  OK (set_col df "rare_pair_flag" (SInt flags)).

Record Hours : Type := mkHours { start : Z; end_ : Z; weekend_days : list Z }.

Definition entity_hours : gmap string Hours :=
  <["US" := mkHours 8 18 [5; 6]]>
  (<["UK" := mkHours 8 18 [5; 6]]>
  (<["APAC" := mkHours 9 18 [5; 6]]> ∅)).

Definition hours_for_entity (entity : string) : Hours :=
  default (mkHours 8 18 [5; 6]) (entity_hours !! entity).

Definition compute_rule_flags (df : DataFrame) : Result DataFrame :=
  local_hour ← get_int df "local_hour";
  entity ← get_str df "entity";
  let after_hours :=
    zip_with (λ h e, astype_int ((h <? start (hours_for_entity e))
                                 || (end_ (hours_for_entity e) <=? h)))
             local_hour entity in
  let df := set_col df "after_hours_flag" (SInt after_hours) in
  dow ← get_int df "dow";
  let weekend :=
    zip_with (λ d e, astype_int (bool_decide (d ∈ weekend_days (hours_for_entity e))))
             dow entity in
  let df := set_col df "weekend_flag" (SInt weekend) in
  posting_date ← get_date df "posting_date";
  let period_close :=
    (λ d, astype_int (days_from_civil (month_floor d) + 25 <=? days_from_civil d))
      <$> posting_date in
  let df := set_col df "period_close_flag" (SInt period_close) in
  approval_status ← get_str df "approval_status";
  let approval_pending :=
    (λ s, astype_int (negb (bool_decide (lower s ∈ ["approved"; "posted"]))))
      <$> approval_status in
  let df := set_col df "approval_pending_flag" (SInt approval_pending) in
  description ← get_str df "description";
  let keyword :=
    (λ x, astype_int (existsb (λ k, contains k (lower x)) KEYWORDS)) <$> description in
  OK (set_col df "keyword_flag" (SInt keyword)).

Definition weights : list (string * Z) :=
  [ ("round_dollar_flag", 10); ("after_hours_flag", 15); ("weekend_flag", 10);
    ("period_close_flag", 10); ("approval_pending_flag", 10); ("keyword_flag", 5);
    ("rare_pair_flag", 15); ("amount_outlier_flag", 20);
    ("user_volume_outlier_flag", 15) ].

(** [df.get(flag, 0) * weight]: the product is taken in the dtype of the
    column, in [int64] for an integer column, and is the integer [0 * weight]
    on every row when the frame has no such column. *)
Definition flag_times_weight (df : DataFrame) (fw : string * Z)
    : Result (list (option Q)) :=
  match columns df !! fw.1 with
  | Some (SInt xs) => OK ((λ x, Some (inject_Z (wrap_int64 (x * fw.2)))) <$> xs)
  | Some (SFloat xs) => OK ((λ x, fmul x (Some (inject_Z fw.2))) <$> xs)
  | Some _ => Err (TypeError fw.1)
  | None => OK (replicate (nrows df) (Some (inject_Z (0 * fw.2))))
  end.

(** One turn of the loop of lines 139-140: [score += df.get(flag, 0) * weight]. *)
Definition add_flag (df : DataFrame) (score : list (option Q)) (fw : string * Z)
    : Result (list (option Q)) :=
  column ← flag_times_weight df fw;
  OK (zip_with fadd score column).

Fixpoint add_flags (df : DataFrame) (score : list (option Q)) (ws : list (string * Z))
    : Result (list (option Q)) :=
  match ws with
  | [] => OK score
  | fw :: ws' => score' ← add_flag df score fw; add_flags df score' ws'
  end.

Definition compute_risk_score (df : DataFrame) : Result DataFrame :=
  score ← add_flags df (replicate (nrows df) (Some 0%Q)) weights;
  OK (set_col df "risk_score" (SFloat (clip 0 100 <$> score))).

(** [run], up to the frame that [to_csv] writes. *)
Definition run (tbl : DataFrame) : Result DataFrame :=
  df ← load_data tbl;
  df ← add_time_features df;
  df ← compute_amount_stats df;
  df ← compute_user_volume df;
  df ← compute_pair_rarity df;
  df ← compute_rule_flags df;
  compute_risk_score df.

End Pipeline.

(** ** Rounded arithmetic

    The operations of [float64] on the rationals: the exact result, rounded
    to the nearest number with 53 significant bits, ties to even (the range
    of the exponent is not bounded: no overflow, no subnormal numbers).  The
    aggregations follow the loops of pandas' [group_mean] (a compensated
    sum, divided by the number of cells) and [group_var] (a running mean and
    sum of squares, the square root of their quotient by [n - 1]), NaN cells
    skipped. *)

Module Binary64.

(** [q * 2^k] *)
Definition shift (q : Q) (k : Z) : Q :=
  if 0 <=? k then (q * inject_Z (2 ^ k))%Q else (q / inject_Z (2 ^ (- k)))%Q.

(** The exponent of a number other than 0: the [e] with
    [2^e <= |q| < 2^(e+1)]. *)
Definition exponent (q : Q) : Z :=
  let e := Z.log2 (Z.abs (Qnum q)) - Z.log2 (Zpos (Qden q)) in
  if Qle_bool (shift 1 e) (Qabs q) then e else e - 1.

(** The nearest integer, the even one of two that are equally near. *)
Definition nearest_even (x : Q) : Z :=
  let f := Qfloor x in
  match (x - inject_Z f ?= 1 # 2)%Q with
  | Lt => f
  | Gt => f + 1
  | Eq => if Z.even f then f else f + 1
  end.

(** The nearest [float64]. *)
Definition round (q : Q) : Q :=
  if Qeq_bool q 0 then 0%Q
  else
    let e := exponent q in
    Qred (shift (inject_Z (nearest_even (shift q (52 - e)))) (e - 52)).

Definition add (a b : Q) : Q := round (a + b).
Definition sub (a b : Q) : Q := round (a - b).
Definition mul (a b : Q) : Q := round (a * b).
Definition div (a b : Q) : Q := round (a / b).

(** The square root, rounded; NaN below 0.  [s] is the integer part of the
    root of [v] scaled to 53 bits, and the root is nearer to [s + 1] when
    the scaled [v] exceeds [(s + 1/2)^2]. *)
Definition sqrt (v : Q) : option Q :=
  match (v ?= 0)%Q with
  | Lt => None
  | Eq => Some 0%Q
  | Gt =>
      let k := 52 - exponent v / 2 in
      let w := shift v (2 * k) in
      let s := Z.sqrt (Qfloor w) in
      let r := if Qle_bool w (inject_Z (s * s + s) + (1 # 4)) then s else s + 1 in
      Some (Qred (shift (inject_Z r) (- k)))
  end.

(** One turn of the compensated sum: the sum so far and its compensation. *)
Definition kahan (acc : Q * Q) (val : Q) : Q * Q :=
  let y := sub val acc.2 in
  let t := add acc.1 y in
  (t, sub (sub t acc.1) y).

Definition mean (xs : list (option Q)) : option Q :=
  match dropna xs with
  | [] => None
  | v => Some (div (foldl kahan (0%Q, 0%Q) v).1 (inject_Z (Z.of_nat (length v))))
  end.

(** One turn of the variance loop: the number of cells, their running
    mean and the running sum of squared deviations. *)
Definition welford (acc : Z * Q * Q) (val : Q) : Z * Q * Q :=
  let nobs := acc.1.1 + 1 in
  let mean := add acc.1.2 (div (sub val acc.1.2) (inject_Z nobs)) in
  (nobs, mean, add acc.2 (mul (sub val mean) (sub val acc.1.2))).

Definition std (xs : list (option Q)) : option Q :=
  let acc := foldl welford (0, 0%Q, 0%Q) (dropna xs) in
  if acc.1.1 <=? 1 then None
  else sqrt (div acc.2 (inject_Z (acc.1.1 - 1))).

(** The stages divide only by a standard deviation that is not 0. *)
Definition ops : FloatOps :=
  mkFloatOps (λ a b, Some (sub a b))
             (λ a b, if Qeq_bool b 0 then None else Some (div a b))
             mean std.

End Binary64.

(** ** A concrete run

    A square root with six decimal digits, a small time-zone table and a
    five-line ledger extract, on which the stages can be evaluated. *)

Module Sample.

Definition sqrt_fixed (q : Q) : Q :=
  Z.sqrt (Qnum q * Zpos (Qden q) * 10 ^ 12) # (Qden q * 1000000).

Definition zones : list string :=
  ["UTC"; "America/New_York"; "Europe/London"; "Asia/Singapore"].

Definition tz_table (t : Timestamp) (z : string) : Result Timestamp :=
  if bool_decide (z ∈ zones) then OK t else Err (TimeZoneError z).

Definition at_hour (y m d h : Z) : Timestamp := mkTimestamp (mkDate y m d) h 0 0.

Definition source_columns : list (string * Series) := [
  ("entry_id", SStr ["E1"; "E1"; "E2"; "E3"; "E4"]);
  ("entity", SStr ["US"; "US"; "UK"; "APAC"; "US"]);
  ("je_number", SStr ["J1"; "J1"; "J2"; "J3"; "J4"]);
  ("line_num", SInt [1; 2; 1; 1; 1]);
  ("account", SStr ["1000"; "2000"; "1000"; "1000"; "1000"]);
  ("offset_account", SStr ["2000"; "1000"; "2000"; "3000"; "2000"]);
  ("description",
     SStr ["Payroll"; "Payroll"; "Manual write-off for Q3"; "Gift cards"; "Rent"]);
  ("amount", SFloat [Some (-500 # 1); Some (500 # 1); Some (12345 # 100);
                     Some (20 # 1); Some (100000 # 1)]);
  ("currency", SStr ["USD"; "USD"; "GBP"; "SGD"; "USD"]);
  ("debit_credit", SStr ["D"; "C"; "D"; "D"; "D"]);
  ("posting_date", SDate [mkDate 2024 1 15; mkDate 2024 1 15; mkDate 2024 1 27;
                          mkDate 2024 2 3; mkDate 2024 2 29]);
  ("posting_timestamp", STime [at_hour 2024 1 15 10; at_hour 2024 1 15 10;
                               at_hour 2024 1 27 22; at_hour 2024 2 3 8;
                               at_hour 2024 2 29 12]);
  ("time_zone", SStr ["America/New_York"; "America/New_York"; "Europe/London";
                      "Asia/Singapore"; "UTC"]);
  ("created_by", SStr ["alice"; "alice"; "bob"; "bob"; "alice"]);
  ("source", SStr ["GL"; "GL"; "GL"; "GL"; "GL"]);
  ("approval_status",
     SStr ["Approved"; "Approved"; "Pending Review"; "posted"; "POSTED"]) ].

Definition ledger : DataFrame := mkDF 5 (list_to_map source_columns).

(** The same extract without its [posting_date] and [account] columns. *)
Definition ledger_without_date_and_account : DataFrame :=
  mkDF 5 (delete "posting_date" (delete "account" (columns ledger))).

(** The same extract without its [offset_account] column. *)
Definition ledger_without_offset_account : DataFrame :=
  mkDF 5 (delete "offset_account" (columns ledger)).

Definition unwrap (r : Result DataFrame) : DataFrame :=
  match r with OK df => df | Err _ => mkDF 0 ∅ end.

Definition timed : DataFrame := unwrap (add_time_features tz_table ledger).
Definition with_amounts : DataFrame := unwrap (compute_amount_stats sqrt_fixed timed).
Definition with_volume : DataFrame := unwrap (compute_user_volume sqrt_fixed with_amounts).
Definition with_pairs : DataFrame := unwrap (compute_pair_rarity with_volume).
Definition with_rules : DataFrame := unwrap (compute_rule_flags with_pairs).
Definition scored : DataFrame := unwrap (run sqrt_fixed tz_table ledger).

(** A frame that carries only three of the nine flag columns. *)
Definition three_flags : DataFrame :=
  mkDF 3 (list_to_map [
    ("keyword_flag", SInt [1; 0; 1]);
    ("weekend_flag", SInt [0; 0; 1]);
    ("amount_outlier_flag", SInt [1; 0; 1]) ]).

End Sample.

(** ** Reference definitions

    The quantities the specification speaks of, written directly on the
    input columns; the theorems below compare the stages with them. *)

(** The cell of an integer flag column on row [i]; 0 when the frame has no
    such column or no such row. *)
Definition flag_or_zero (df : DataFrame) (flag : string) (i : nat) : Z :=
  match columns df !! flag with
  | Some (SInt xs) => default 0 (xs !! i)
  | _ => 0
  end.

(** Σ flag·weight on row [i], over the flags of [ws]. *)
Definition total_sum (df : DataFrame) (ws : list (string * Z)) (i : nat) : Z :=
  foldr (λ fw acc, flag_or_zero df fw.1 i * fw.2 + acc) 0 ws.

(** The entries of a weight table whose flag column the frame has. *)
Definition present (df : DataFrame) (ws : list (string * Z)) : list (string * Z) :=
  filter (λ fw, is_Some (columns df !! fw.1)) ws.

(** Σ flag·weight for a row given by its flag values, in table order. *)
Definition weighted_sum (fs : list Z) (ws : list (string * Z)) : Z :=
  foldr Z.add 0 (zip_with (λ f fw, f * fw.2) fs ws).

Definition clip_int (lo hi z : Z) : Z := Z.min (Z.max z lo) hi.

(** A float column of [n] cells, none of them NaN, that holds the integers
    [f 0 .. f (n-1)]. *)
Definition cells_are (score : list (option Q)) (n : nat) (f : nat → Z) : Prop :=
  length score = n ∧
  ∀ i, (i < n)%nat → ∃ q, score !! i = Some (Some q) ∧ (q == inject_Z (f i))%Q.

(** The number of rows of the dataset that carry the pair [p]. *)
Definition pair_count_of (pairs : list (string * string)) (p : string * string) : Z :=
  Z.of_nat (length (filter (λ p', p' = p) pairs)).

(** The pair counts on the rows of account [a]: the values the threshold of
    that account is the 25th percentile of. *)
Definition account_pair_counts (account offset_account : list string) (a : string)
    : list Z :=
  let pairs := zip account offset_account in
  group_values a account (pair_count_of pairs <$> pairs).

(** The pair counts as seen from inside one account group: [offsets] are the
    offset accounts on the rows of the group, and each row counts the rows of
    the group with its own offset account. *)
Definition group_pair_counts (offsets : list string) : list Z :=
  (λ o, Z.of_nat (length (filter (λ o', o' = o) offsets))) <$> offsets.


(** The number of distinct entries that user [u] posted in month [m]. *)
Definition monthly_entries (created_by : list string) (month_start : list Date)
    (entry_id : list string) (u : string) (m : Date) : Z :=
  nunique (group_values (u, m) (zip created_by month_start) entry_id).

(** The months in which user [u] posted, each once. *)
Definition user_months (created_by : list string) (month_start : list Date)
    (u : string) : list Date :=
  group_keys (group_values u created_by month_start).

(** The monthly distinct-entry counts of user [u], over all the months of the
    dataset in which the user posted, month after month. *)
Definition user_monthly_counts (created_by : list string) (month_start : list Date)
    (entry_id : list string) (u : string) : list (option Q) :=
  (λ m, Some (inject_Z (monthly_entries created_by month_start entry_id u m)))
    <$> merge_sort date_le (user_months created_by month_start u).

(** The z-score of the volume of user [k.1] in month [k.2]: the number of
    entries of that month against the mean and the sample standard deviation
    of the user's monthly counts, by the zero-variance-safe rule. *)
Definition volume_z (ar : FloatOps) (created_by : list string)
    (month_start : list Date) (entry_id : list string) (k : string * Date)
    : option Q :=
  let counts := user_monthly_counts created_by month_start entry_id k.1 in
  zscore_with ar
    (Some (inject_Z (monthly_entries created_by month_start entry_id k.1 k.2)))
    (agg_mean ar counts) (agg_std ar counts).

(** [out] has the rows of [df] and, outside the columns [written], its
    cells. *)
Definition extends (written : list string) (df out : DataFrame) : Prop :=
  nrows out = nrows df ∧
  ∀ c, c ∉ written → columns out !! c = columns df !! c.

(** Column [c] of [out] is an integer column of zeros and ones. *)
Definition is_flag_col (out : DataFrame) (c : string) : Prop :=
  ∃ xs, columns out !! c = Some (SInt xs) ∧ Forall (λ f, f = 0 ∨ f = 1) xs.

(** The columns the stages before the aggregator add to the frame. *)
Definition derived_cols : list string :=
  ["local_hour"; "dow"; "abs_amount"; "avg_abs_amount"; "std_abs_amount";
   "amount_z"; "amount_outlier_flag"; "round_dollar_flag"; "month_start";
   "entry_volume_z"; "user_volume_outlier_flag"; "pair_count"; "rare_pair_flag";
   "after_hours_flag"; "weekend_flag"; "period_close_flag";
   "approval_pending_flag"; "keyword_flag"].

(** The stages of [run] after loading, in order. *)
Definition stages (sqrtQ : Q → Q)
    (tz_localize : Timestamp → string → Result Timestamp)
    : list (DataFrame → Result DataFrame) :=
  [ add_time_features tz_localize; compute_amount_stats sqrtQ;
    compute_user_volume sqrtQ; compute_pair_rarity; compute_rule_flags;
    compute_risk_score ].

Global Instance wf_frame_dec df : Decision (wf_frame df).
Proof.
  unfold wf_frame.
  refine (map_Forall_dec (λ _ s, series_len s = nrows df) (columns df)).
  intros c s. apply _.
Defined.

(** ** Further frames to evaluate the stages on *)

Module Cases.

(** The sample ledger with an unknown zone on its third line. *)
Definition ledger_bad_zone : DataFrame :=
set_col Sample.ledger "time_zone"
  (SStr ["UTC"; "UTC"; "Mars/Olympus"; "UTC"; "UTC"]).

(** The sample ledger with every amount negated. *)
Definition negated_amounts : list (option Q) :=
[Some (500 # 1); Some (-500 # 1); Some (-12345 # 100); Some (-20 # 1);
 Some (-100000 # 1)]%Q.

(** A frame with all nine flag columns: no flag, every flag but
    [keyword_flag], every flag. *)
Definition all_flags : DataFrame :=
mkDF 3 (list_to_map [
  ("round_dollar_flag", SInt [0; 1; 1]);
  ("after_hours_flag", SInt [0; 1; 1]);
  ("weekend_flag", SInt [0; 1; 1]);
  ("period_close_flag", SInt [0; 1; 1]);
  ("approval_pending_flag", SInt [0; 1; 1]);
  ("keyword_flag", SInt [0; 0; 1]);
  ("rare_pair_flag", SInt [0; 1; 1]);
  ("amount_outlier_flag", SInt [0; 1; 1]);
  ("user_volume_outlier_flag", SInt [0; 1; 1]) ]).

(** Three lines of one account, all against the same offset account. *)
Definition one_pair : DataFrame :=
mkDF 3 (list_to_map [
  ("account", SStr ["1000"; "1000"; "1000"]);
  ("offset_account", SStr ["2000"; "2000"; "2000"]) ]).

(** Seven months of one user, with 4, 4, 5, 5, 5, 5 and 7 entries from
    January to July; the lines of July come first. *)
Definition seven_months_dates : list Date :=
[mkDate 2024 7 3; mkDate 2024 7 6; mkDate 2024 7 9; mkDate 2024 7 12;
 mkDate 2024 7 15; mkDate 2024 7 18; mkDate 2024 7 21; mkDate 2024 1 3;
 mkDate 2024 1 6; mkDate 2024 1 9; mkDate 2024 1 12; mkDate 2024 2 3;
 mkDate 2024 2 6; mkDate 2024 2 9; mkDate 2024 2 12; mkDate 2024 3 3;
 mkDate 2024 3 6; mkDate 2024 3 9; mkDate 2024 3 12; mkDate 2024 3 15;
 mkDate 2024 4 3; mkDate 2024 4 6; mkDate 2024 4 9; mkDate 2024 4 12;
 mkDate 2024 4 15; mkDate 2024 5 3; mkDate 2024 5 6; mkDate 2024 5 9;
 mkDate 2024 5 12; mkDate 2024 5 15; mkDate 2024 6 3; mkDate 2024 6 6;
 mkDate 2024 6 9; mkDate 2024 6 12; mkDate 2024 6 15].

Definition seven_months_entries : list string :=
["G1"; "G2"; "G3"; "G4"; "G5"; "G6"; "G7"; "A1"; "A2"; "A3";
 "A4"; "B1"; "B2"; "B3"; "B4"; "C1"; "C2"; "C3"; "C4"; "C5";
 "D1"; "D2"; "D3"; "D4"; "D5"; "E1"; "E2"; "E3"; "E4"; "E5";
 "F1"; "F2"; "F3"; "F4"; "F5"].

Definition seven_months : DataFrame :=
mkDF 35 (list_to_map [
  ("posting_date", SDate seven_months_dates);
  ("created_by", SStr (replicate 35 "erin"));
  ("entry_id", SStr seven_months_entries) ]).

(** The cell of a float column, and of an integer column, of the frame a
    stage returns. *)
Definition float_cell (r : Result DataFrame) (c : string) (i : nat)
    : option (option Q) :=
match r with
| OK df => match columns df !! c with Some (SFloat xs) => xs !! i | _ => None end
| Err _ => None
end.

Definition int_cell (r : Result DataFrame) (c : string) (i : nat) : option Z :=
match r with
| OK df => match columns df !! c with Some (SInt xs) => xs !! i | _ => None end
| Err _ => None
end.

End Cases.

(** * Properties *)

(** ** The result monad *)

Lemma bind_OK_inv {A B : Type} (m : Result A) (f : A → Result B) (b : B) :
  m ≫= f = OK b → ∃ a, m = OK a ∧ f a = OK b.
Proof. destruct m as [a|e]; simpl; [eauto | discriminate]. Qed.

Lemma bind_OK {A B : Type} (m : Result A) (f : A → Result B) (a : A) :
  m = OK a → m ≫= f = f a.
Proof. by intros ->. Qed.

(** Take apart a hypothesis [(x ← m; k) = OK b]. *)
Ltac inv_bind H :=
  let a := fresh "v" in
  let E := fresh "E" in
  apply bind_OK_inv in H; destruct H as (a & E & H).

Ltac inv_binds :=
  repeat match goal with
  | H : _ ≫= _ = OK _ |- _ => inv_bind H
  | H : OK _ = OK _ |- _ => injection H as H; try subst
  | H : Err _ = OK _ |- _ => discriminate H
  end.

Lemma col_OK df c s : col df c = OK s ↔ columns df !! c = Some s.
Proof. unfold col. destruct (columns df !! c); split; congruence. Qed.

Lemma get_str_OK df c xs : get_str df c = OK xs ↔ columns df !! c = Some (SStr xs).
Proof.
  unfold get_str, col. destruct (columns df !! c) as [[]|]; simpl; split; congruence.
Qed.

Lemma get_int_OK df c xs : get_int df c = OK xs ↔ columns df !! c = Some (SInt xs).
Proof.
  unfold get_int, col. destruct (columns df !! c) as [[]|]; simpl; split; congruence.
Qed.

Lemma get_date_OK df c xs : get_date df c = OK xs ↔ columns df !! c = Some (SDate xs).
Proof.
  unfold get_date, col. destruct (columns df !! c) as [[]|]; simpl; split; congruence.
Qed.

Lemma get_time_OK df c xs : get_time df c = OK xs ↔ columns df !! c = Some (STime xs).
Proof.
  unfold get_time, col. destruct (columns df !! c) as [[]|]; simpl; split; congruence.
Qed.

Lemma get_float_OK df c xs :
  get_float df c = OK xs ↔ ∃ s, columns df !! c = Some s ∧ as_float c s = OK xs.
Proof.
  unfold get_float, col. destruct (columns df !! c) as [s|]; simpl.
  - split; [eauto | by intros (? & [= <-] & ?)].
  - split; [discriminate | by intros (? & [=] & ?)].
Qed.


Lemma join_check_OK df c u : join_check df c = OK u ↔ columns df !! c = None.
Proof.
  unfold join_check. destruct u, (columns df !! c); split; congruence.
Qed.

Lemma traverse_length {A B : Type} (f : A → Result B) xs ys :
  traverse f xs = OK ys → length ys = length xs.
Proof.
  revert ys. induction xs as [|x xs IH]; simpl; intros ys H.
  - by injection H as <-.
  - inv_binds. simpl. f_equal. by apply IH.
Qed.

(** ** Frames *)

Lemma wf_set_col df c s :
  wf_frame df → series_len s = nrows df → wf_frame (set_col df c s).
Proof.
  intros Hwf Hs c' s'. simpl. rewrite lookup_insert.
  case_decide; [by intros [= <-] | apply Hwf].
Qed.

Lemma wf_lookup_len df c s :
  wf_frame df → columns df !! c = Some s → series_len s = nrows df.
Proof. intros Hwf. apply Hwf. Qed.

(** ** The risk aggregator *)

Lemma wrap_int64_small z : - 2 ^ 63 ≤ z < 2 ^ 63 → wrap_int64 z = z.
Proof. intros Hz. unfold wrap_int64. rewrite Z.mod_small; lia. Qed.

(** The product of a flag, 0 or 1, and a weight is the same in [int64] and
    in the integers. *)
Lemma flag_product_exact f w :
  f = 0 ∨ f = 1 → - 2 ^ 63 ≤ w < 2 ^ 63 → wrap_int64 (f * w) = f * w.
Proof. intros [-> | ->] Hw; apply wrap_int64_small; lia. Qed.

Lemma weights_in_int64 : Forall (λ fw : string * Z, - 2 ^ 63 ≤ fw.2 < 2 ^ 63) weights.
Proof. unfold weights. repeat (apply Forall_cons; split; [simpl; lia|]). apply Forall_nil_2. Qed.

Lemma add_flag_spec df score fw acc :
  (∀ s, columns df !! fw.1 = Some s →
     ∃ xs, s = SInt xs ∧ length xs = nrows df ∧ Forall (λ f, f = 0 ∨ f = 1) xs) →
  - 2 ^ 63 ≤ fw.2 < 2 ^ 63 →
  cells_are score (nrows df) acc →
  ∃ score', add_flag df score fw = OK score' ∧
    cells_are score' (nrows df) (λ i, acc i + flag_or_zero df fw.1 i * fw.2).
Proof.
  intros Hcol Hw [Hlen Hcell]. unfold add_flag, flag_times_weight, flag_or_zero.
  destruct (columns df !! fw.1) as [s|] eqn:Hs.
  - destruct (Hcol s eq_refl) as (xs & -> & Hxs & H01). simpl.
    eexists; split; [reflexivity|]. split.
    + rewrite length_zip_with, !length_fmap. lia.
    + intros i Hi. destruct (Hcell i Hi) as (q & Hq & Hqe).
      destruct (lookup_lt_is_Some_2 xs i) as [x Hx]; [lia|].
      rewrite lookup_zip_with, Hq. simpl.
      rewrite !list_lookup_fmap, Hx. simpl.
      eexists; split; [reflexivity|].
      rewrite flag_product_exact; [|exact (Forall_lookup_1 _ xs i x H01 Hx)|done].
      rewrite Hqe, inject_Z_plus. reflexivity.
  - simpl. eexists; split; [reflexivity|]. split.
    + rewrite length_zip_with, length_replicate. lia.
    + intros i Hi. destruct (Hcell i Hi) as (q & Hq & Hqe).
      rewrite lookup_zip_with, Hq. simpl.
      rewrite lookup_replicate_2 by done. simpl.
      eexists; split; [reflexivity|].
      rewrite Hqe, inject_Z_plus. reflexivity.
Qed.

Lemma add_flags_spec df ws : ∀ score acc,
  (∀ fw s, fw ∈ ws → columns df !! fw.1 = Some s →
     ∃ xs, s = SInt xs ∧ length xs = nrows df ∧ Forall (λ f, f = 0 ∨ f = 1) xs) →
  Forall (λ fw : string * Z, - 2 ^ 63 ≤ fw.2 < 2 ^ 63) ws →
  cells_are score (nrows df) acc →
  ∃ score', add_flags df score ws = OK score' ∧
    cells_are score' (nrows df) (λ i, acc i + total_sum df ws i).
Proof.
  induction ws as [|fw ws IH]; intros score acc Hcols Hws Hcells; simpl.
  - eexists; split; [reflexivity|]. destruct Hcells as [Hlen Hcell].
    split; [done|]. intros i Hi. destruct (Hcell i Hi) as (q & ? & ?).
    exists q. split; [done|]. by rewrite Z.add_0_r.
  - apply Forall_cons in Hws as [Hw Hws].
    destruct (add_flag_spec df score fw acc) as (score1 & E1 & Hc1); [|done|done|].
    { intros s. apply Hcols. left. }
    rewrite E1. simpl.
    destruct (IH score1 _ (λ fw' s H, Hcols fw' s (list_elem_of_further _ _ _ H))
                Hws Hc1)
      as (score2 & E2 & Hlen2 & Hcell2).
    exists score2. split; [done|]. split; [done|].
    intros i Hi. destruct (Hcell2 i Hi) as (q & ? & Hq).
    exists q. split; [done|]. rewrite Hq. f_equiv. lia.
Qed.

Lemma clip_inject q z :
  (q == inject_Z z)%Q →
  ∃ q', clip 0 100 (Some q) = Some q' ∧ (q' == inject_Z (clip_int 0 100 z))%Q.
Proof.
  intros Hq. unfold clip, clip_int. eexists; split; [reflexivity|].
  destruct (Qle_bool 0 q) eqn:E0.
  - apply Qle_bool_iff in E0. rewrite Hq in E0.
    change 0%Q with (inject_Z 0) in E0. rewrite <- Zle_Qle in E0.
    rewrite Z.max_l by lia.
    destruct (Qle_bool q 100) eqn:E1.
    + apply Qle_bool_iff in E1. rewrite Hq in E1.
      change 100%Q with (inject_Z 100) in E1. rewrite <- Zle_Qle in E1.
      rewrite Z.min_l by lia. done.
    + assert (¬ (q <= 100)%Q) as E1' by (rewrite <- Qle_bool_iff; congruence).
      rewrite Hq in E1'. change 100%Q with (inject_Z 100) in E1'.
      rewrite <- Zle_Qle in E1'. rewrite Z.min_r by lia. reflexivity.
  - assert (¬ (0 <= q)%Q) as E0' by (rewrite <- Qle_bool_iff; congruence).
    rewrite Hq in E0'. change 0%Q with (inject_Z 0) in E0'.
    rewrite <- Zle_Qle in E0'. rewrite Z.max_r by lia.
    simpl. reflexivity.
Qed.

Lemma clip_int_bounds z : 0 ≤ clip_int 0 100 z ≤ 100.
Proof. unfold clip_int. lia. Qed.

(** What [compute_risk_score] computes, on any frame whose flag columns (those
    it has) are integer columns of zeros and ones. *)
Lemma compute_risk_score_spec df :
  (∀ fw s, fw ∈ weights → columns df !! fw.1 = Some s →
     ∃ xs, s = SInt xs ∧ length xs = nrows df ∧ Forall (λ f, f = 0 ∨ f = 1) xs) →
  ∃ score,
    compute_risk_score df = OK (set_col df "risk_score" (SFloat score)) ∧
    cells_are score (nrows df) (λ i, clip_int 0 100 (total_sum df weights i)).
Proof.
  intros Hcols. unfold compute_risk_score.
  destruct (add_flags_spec df weights (replicate (nrows df) (Some 0%Q)) (λ _, 0)
              Hcols weights_in_int64)
    as (score & E & Hlen & Hcell).
  { split; [by rewrite length_replicate|]. intros i Hi.
    exists 0%Q. by rewrite lookup_replicate_2. }
  rewrite E. simpl. eexists; split; [reflexivity|]. split.
  - by rewrite length_fmap.
  - intros i Hi. destruct (Hcell i Hi) as (q & Hq & Hqe).
    rewrite list_lookup_fmap, Hq. simpl. simpl in Hqe.
    destruct (clip_inject q _ Hqe) as (q' & Hc & Hq').
    unfold clip in Hc. injection Hc as Hc. eexists; split; [reflexivity|].
    rewrite Hc. done.
Qed.

(** A flag that the frame lacks adds nothing to the sum. *)
Lemma total_sum_present df ws i : total_sum df ws i = total_sum df (present df ws) i.
Proof.
  unfold present. induction ws as [|fw ws IH]; [done|].
  rewrite filter_cons. simpl. case_decide as Hp; simpl; rewrite IH; [done|].
  unfold flag_or_zero. destruct (columns df !! fw.1) eqn:E; [|lia].
  exfalso. apply Hp. by eexists.
Qed.

Lemma total_sum_weighted df ws fs i :
  Forall2 (λ fw f, ∃ xs, columns df !! fw.1 = Some (SInt xs) ∧ xs !! i = Some f) ws fs →
  total_sum df ws i = weighted_sum fs ws.
Proof.
  unfold weighted_sum. induction 1 as [|fw f ws fs (xs & Hc & Hx) _ IH]; [done|].
  simpl. rewrite IH. unfold flag_or_zero. by rewrite Hc, Hx.
Qed.

(** ** Groups *)

Section Groups.
Context {K : Type} `{EqDecision K}.

Lemma group_values_nil {V : Type} (k : K) (vals : list V) :
  group_values k [] vals = [].
Proof. done. Qed.

Lemma group_values_cons {V : Type} (k k' : K) keys (v : V) vals :
  group_values k (k' :: keys) (v :: vals) =
  if decide (k' = k) then v :: group_values k keys vals
  else group_values k keys vals.
Proof.
  unfold group_values. simpl. rewrite filter_cons. simpl.
  by case_decide.
Qed.

Lemma group_values_fmap {V W : Type} (f : V → W) (k : K) keys vals :
  group_values k keys (f <$> vals) = f <$> group_values k keys vals.
Proof.
  revert vals. induction keys as [|k' keys IH]; intros [|v vals]; try done.
  simpl. rewrite !group_values_cons. case_decide; simpl; by rewrite IH.
Qed.

Lemma elem_of_group_values {V : Type} (k : K) keys (vals : list V) v :
  v ∈ group_values k keys vals ↔ ∃ i, keys !! i = Some k ∧ vals !! i = Some v.
Proof.
  revert vals. induction keys as [|k' keys IH]; intros [|v' vals].
  - split; [by intros ?%elem_of_nil | by intros (i & ? & ?)].
  - split; [by intros ?%elem_of_nil | by intros (i & ? & ?)].
  - split; [by intros ?%elem_of_nil | by intros (i & ? & ?)].
  - rewrite group_values_cons. case_decide as Hk.
    + rewrite elem_of_cons, IH. split.
      * intros [->|(i & ? & ?)]; [exists 0%nat; by subst | by exists (S i)].
      * intros ([|i] & Hi & Hv); simpl in *; [left; congruence | right; eauto].
    + rewrite IH. split.
      * intros (i & ? & ?). by exists (S i).
      * intros ([|i] & Hi & Hv); simpl in *; [congruence | eauto].
Qed.

Lemma group_values_seq_S (k : K) keys j n :
  group_values k keys (seq (S j) n) = S <$> group_values k keys (seq j n).
Proof. by rewrite <- fmap_S_seq, group_values_fmap. Qed.

Lemma group_index_cons (k k' : K) keys :
  group_index k (k' :: keys) =
  if decide (k' = k) then 0%nat :: (S <$> group_index k keys)
  else S <$> group_index k keys.
Proof.
  unfold group_index. simpl. rewrite group_values_cons, group_values_seq_S. done.
Qed.

Lemma elem_of_group_index (k : K) keys i :
  i ∈ group_index k keys ↔ keys !! i = Some k.
Proof.
  unfold group_index. rewrite elem_of_group_values. split.
  - intros (j & Hj & Hi). apply lookup_seq in Hi as [-> _]. done.
  - intros Hi. exists i. split; [done|]. apply lookup_seq. split; [done|].
    by apply lookup_lt_Some in Hi.
Qed.

Lemma iloc_list_cons {V : Type} (i : nat) index (vals : list V) :
  iloc_list (i :: index) vals =
  match vals !! i with
  | Some v => v :: iloc_list index vals
  | None => iloc_list index vals
  end.
Proof. done. Qed.

Lemma iloc_list_fmap_S {V : Type} (index : list nat) (v : V) vals :
  iloc_list (S <$> index) (v :: vals) = iloc_list index vals.
Proof.
  unfold iloc_list. induction index as [|i index IH]; [done|].
  csimpl. by rewrite IH.
Qed.

(** The cells of a group are the cells at the positions of the group. *)
Lemma iloc_group_index {V : Type} (k : K) keys (vals : list V) :
  length vals = length keys →
  iloc_list (group_index k keys) vals = group_values k keys vals.
Proof.
  revert vals. induction keys as [|k' keys IH]; intros [|v vals] Hlen; try done.
  rewrite group_index_cons, group_values_cons. simpl in Hlen.
  case_decide.
  - rewrite iloc_list_cons. simpl. rewrite iloc_list_fmap_S, IH by lia. done.
  - rewrite iloc_list_fmap_S, IH by lia. done.
Qed.

Lemma elem_of_group_keys (k : K) keys : k ∈ group_keys keys ↔ k ∈ keys.
Proof. apply elem_of_remove_dups. Qed.

Lemma NoDup_group_keys (keys : list K) : NoDup (group_keys keys).
Proof. apply NoDup_remove_dups. Qed.

Lemma assoc_fmap_key {V : Type} (g : K → V) (k : K) (l : list K) :
  assoc k ((λ k, (k, g k)) <$> l) = if decide (k ∈ l) then Some (g k) else None.
Proof.
  induction l as [|k' l IH]; [done|]. csimpl.
  destruct (decide (k' = k)) as [->|Hk].
  - rewrite decide_True; [done|]. apply elem_of_cons. by left.
  - rewrite IH. destruct (decide (k ∈ l)) as [Hl|Hl].
    + rewrite decide_True; [done|]. apply elem_of_cons. by right.
    + rewrite decide_False; [done|]. intros [?|?]%elem_of_cons; congruence.
Qed.

(** A join on the group key finds the aggregate of the row's own group. *)
Lemma assoc_groupby {V R : Type} (f : list V → R) (k : K) (keys : list K) vals :
  k ∈ keys →
  assoc k (groupby_agg keys vals f) = Some (f (group_values k keys vals)).
Proof.
  intros Hk. unfold groupby_agg.
  rewrite (assoc_fmap_key (λ k, f (group_values k keys vals))).
  by rewrite decide_True by by apply elem_of_group_keys.
Qed.

Lemma length_group_values_filter (k : K) keys :
  length (group_values k keys keys) = length (filter (λ k', k' = k) keys).
Proof.
  induction keys as [|k' keys IH]; [done|].
  rewrite group_values_cons, filter_cons. case_decide; simpl; by rewrite IH.
Qed.

End Groups.

(** ** Assignment at positions *)

Lemma assign_cons {A : Type} (xs : list A) i index v values :
  assign xs (i :: index) (v :: values) = assign (<[i := v]> xs) index values.
Proof. done. Qed.

Lemma length_assign {A : Type} (xs : list A) index values :
  length (assign xs index values) = length xs.
Proof.
  revert xs values. induction index as [|i index IH]; intros xs [|v values]; try done.
  rewrite assign_cons, IH. apply length_insert.
Qed.

(** Writing [h] of the cell of [src] at each position of [index]. *)
Lemma assign_lookup {A B : Type} (h : B → A) (src : list B) index : ∀ (xs : list A) i,
  length xs = length src →
  Forall (λ j, j < length src)%nat index →
  assign xs index (h <$> iloc_list index src) !! i =
  if decide (i ∈ index) then h <$> src !! i else xs !! i.
Proof.
  induction index as [|j index IH]; intros xs i Hlen Hin.
  - done.
  - apply Forall_cons in Hin as [Hj Hin].
    rewrite iloc_list_cons.
    destruct (lookup_lt_is_Some_2 src j Hj) as [b Hb]. rewrite Hb. csimpl.
    rewrite assign_cons, IH by by rewrite ?length_insert.
    destruct (decide (i ∈ index)) as [Hi|Hi].
    + rewrite decide_True; [done|]. apply elem_of_cons. by right.
    + destruct (decide (i = j)) as [->|Hne].
      * rewrite decide_True by (apply elem_of_cons; by left). rewrite Hb. simpl.
        apply list_lookup_insert_eq. by rewrite Hlen.
      * rewrite decide_False by (intros [?|?]%elem_of_cons; congruence).
        by apply list_lookup_insert_ne.
Qed.

(** ** Pair rarity *)

Lemma length_flag_account_group account pair_count flags a :
  length (flag_account_group account pair_count flags a) = length flags.
Proof. unfold flag_account_group. apply length_assign. Qed.

Lemma flag_account_group_lookup account pair_count flags a i :
  length pair_count = length account →
  length flags = length account →
  flag_account_group account pair_count flags a !! i =
  if decide (account !! i = Some a)
  then rare_flag (percentile (group_values a account pair_count) 25) <$> pair_count !! i
  else flags !! i.
Proof.
  intros Hpc Hfl. unfold flag_account_group.
  rewrite assign_lookup.
  - rewrite iloc_group_index by done.
    destruct (decide (i ∈ group_index a account)) as [Hi|Hi];
      rewrite elem_of_group_index in Hi.
    + by rewrite decide_True.
    + by rewrite decide_False.
  - congruence.
  - apply Forall_forall. intros j Hj%elem_of_group_index.
    rewrite Hpc. by eapply lookup_lt_Some.
Qed.

(** After the loop over the accounts [ks], the rows of those accounts carry
    the flag of their own group and the other rows are as before. *)
Lemma rare_loop_lookup account pair_count i :
  length pair_count = length account →
  ∀ ks flags,
  length flags = length account →
  foldl (flag_account_group account pair_count) flags ks !! i =
  match account !! i with
  | Some a =>
      if decide (a ∈ ks)
      then rare_flag (percentile (group_values a account pair_count) 25) <$> pair_count !! i
      else flags !! i
  | None => flags !! i
  end.
Proof.
  intros Hpc. induction ks as [|k ks IH]; intros flags Hfl.
  - simpl. by destruct (account !! i).
  - simpl. rewrite IH by by rewrite length_flag_account_group.
    rewrite flag_account_group_lookup by done.
    destruct (account !! i) as [a|] eqn:Ha.
    + destruct (decide (a ∈ ks)) as [Hin|Hin].
      * rewrite decide_True; [done|]. apply elem_of_cons. by right.
      * destruct (decide (Some a = Some k)) as [[= ->]|Hne].
        -- rewrite decide_True; [done|]. apply elem_of_cons. by left.
        -- rewrite decide_False; [done|]. intros [?|?]%elem_of_cons; congruence.
    + by rewrite decide_False.
Qed.

Lemma length_rare_loop account pair_count ks : ∀ flags,
  length (foldl (flag_account_group account pair_count) flags ks) = length flags.
Proof.
  induction ks as [|k ks IH]; intros flags; [done|].
  simpl. by rewrite IH, length_flag_account_group.
Qed.

Lemma rare_flag_01 t c : rare_flag t c = 0 ∨ rare_flag t c = 1.
Proof. unfold rare_flag, astype_int. destruct (_ || _); auto. Qed.

(** [compute_pair_rarity], column by column. *)
Lemma compute_pair_rarity_spec df account offset_account :
  wf_frame df →
  columns df !! "account" = Some (SStr account) →
  columns df !! "offset_account" = Some (SStr offset_account) →
  columns df !! "pair_count" = None →
  let pairs := zip account offset_account in
  let pair_count := pair_count_of pairs <$> pairs in
  ∃ flags,
    compute_pair_rarity df =
      OK (set_col (set_col df "pair_count" (SInt pair_count))
                  "rare_pair_flag" (SInt flags)) ∧
    length flags = nrows df ∧
    ∀ i a, account !! i = Some a →
      flags !! i =
      rare_flag (percentile (account_pair_counts account offset_account a) 25)
        <$> pair_count !! i.
Proof.
  intros Hwf Hacc Hoff Hpc pairs pair_count.
  pose proof (wf_lookup_len _ _ _ Hwf Hacc) as Hla.
  pose proof (wf_lookup_len _ _ _ Hwf Hoff) as Hlo. simpl in Hla, Hlo.
  assert (length pairs = length account) as Hlp.
  { unfold pairs. rewrite length_zip. lia. }
  unfold compute_pair_rarity.
  rewrite (bind_OK _ _ account) by by apply get_str_OK.
  rewrite (bind_OK _ _ offset_account) by by apply get_str_OK.
  rewrite (bind_OK _ _ ()) by by apply join_check_OK.
  fold pairs.
  assert ((λ p, default 0 (assoc p (groupby_agg pairs pairs (λ g, Z.of_nat (length g)))))
            <$> pairs = pair_count) as ->.
  { apply list_fmap_ext. intros j p Hj.
    rewrite assoc_groupby by by eapply list_elem_of_lookup_2.
    simpl. unfold pair_count_of. by rewrite length_group_values_filter. }
  assert (length pair_count = length account) as Hlpc.
  { unfold pair_count. by rewrite length_fmap. }
  eexists. split; [reflexivity|]. split.
  - rewrite length_rare_loop, length_replicate. done.
  - intros i a Ha. simpl.
    rewrite rare_loop_lookup; [|done|by rewrite length_replicate; simpl; lia].
    rewrite Ha. rewrite decide_True; [done|].
    apply elem_of_group_keys. by eapply list_elem_of_lookup_2.
Qed.

(** The pair counts of an account depend on the rows of that account only. *)
Lemma group_values_zip_key (a : string) account (offset_account : list string) :
  group_values a account (zip account offset_account) =
  (λ o, (a, o)) <$> group_values a account offset_account.
Proof.
  revert offset_account.
  induction account as [|a' account IH]; intros [|o offs]; try done.
  simpl. rewrite !group_values_cons. case_decide; subst; csimpl; by rewrite IH.
Qed.

Lemma filter_pair_length (a o : string) account (offset_account : list string) :
  length (filter (λ p, p = (a, o)) (zip account offset_account)) =
  length (filter (λ o', o' = o) (group_values a account offset_account)).
Proof.
  revert offset_account.
  induction account as [|a' account IH]; intros [|o' offs]; try done.
  simpl. rewrite filter_cons, group_values_cons.
  destruct (decide (a' = a)) as [->|Ha].
  - rewrite filter_cons. destruct (decide (o' = o)) as [->|Ho].
    + rewrite decide_True by done. simpl. by rewrite IH.
    + rewrite decide_False by congruence. by rewrite IH.
  - rewrite decide_False by congruence. by rewrite IH.
Qed.

Lemma account_pair_counts_local account offset_account a :
  account_pair_counts account offset_account a =
  group_pair_counts (group_values a account offset_account).
Proof.
  unfold account_pair_counts, group_pair_counts.
  rewrite group_values_fmap, group_values_zip_key, <- list_fmap_compose.
  apply list_fmap_ext. intros i o _. simpl. unfold pair_count_of.
  by rewrite filter_pair_length.
Qed.

(** ** The percentile *)

Lemma percentile_is_Some a q : a ≠ [] → is_Some (percentile a q).
Proof. unfold percentile. destruct a; [done|]. eauto. Qed.

(** Interpolation inside the data never falls below a lower bound of it. *)
Lemma interpolate_lower_bound s virtual m :
  (0 <= virtual)%Q → (virtual <= inject_Z (Z.of_nat (length s - 1)))%Q →
  s ≠ [] →
  (∀ x, x ∈ s → m ≤ x) →
  (inject_Z m <= interpolate s virtual)%Q.
Proof.
  intros Hv0 Hv1 Hs Hm.
  assert (0 < length s)%nat as Hlen by (destruct s; [done | simpl; lia]).
  assert (0 ≤ Qfloor virtual) as Hf0.
  { change 0 with (Qfloor 0). by apply Qfloor_resp_le. }
  assert (Qfloor virtual ≤ Z.of_nat (length s - 1)) as Hf1.
  { rewrite <- (Qfloor_Z (Z.of_nat (length s - 1))). by apply Qfloor_resp_le. }
  unfold interpolate.
  set (previous := Z.to_nat (Qfloor virtual)).
  set (next := Nat.min (previous + 1) (length s - 1)).
  assert (previous < length s)%nat as Hp by (unfold previous; lia).
  assert (next < length s)%nat as Hnx by (unfold next; lia).
  destruct (lookup_lt_is_Some_2 s previous Hp) as [lo Hlo].
  destruct (lookup_lt_is_Some_2 s next Hnx) as [hi Hhi].
  rewrite Hlo, Hhi. simpl.
  assert (m ≤ lo) as Hlo' by (apply Hm; by eapply list_elem_of_lookup_2).
  assert (m ≤ hi) as Hhi' by (apply Hm; by eapply list_elem_of_lookup_2).
  rewrite Zle_Qle in Hlo', Hhi'.
  assert (inject_Z (Z.of_nat previous) == inject_Z (Qfloor virtual))%Q as Hpq.
  { unfold previous. by rewrite Z2Nat.id. }
  set (gamma := (virtual - inject_Z (Z.of_nat previous))%Q).
  assert (0 <= gamma)%Q as Hg0.
  { unfold gamma. rewrite Hpq. pose proof (Qfloor_le virtual). lra. }
  assert (gamma <= 1)%Q as Hg1.
  { unfold gamma. rewrite Hpq. pose proof (Qlt_floor virtual) as Hlt.
    rewrite inject_Z_plus in Hlt. change (inject_Z 1) with 1%Q in Hlt. lra. }
  nra.
Qed.

(** The interpolated percentile never falls below a lower bound of the data. *)
Lemma percentile_lower_bound a q m t :
  (0 <= q)%Q → (q <= 100)%Q →
  (∀ x, x ∈ a → m ≤ x) →
  percentile a q = Some t →
  (inject_Z m <= t)%Q.
Proof.
  intros Hq0 Hq1 Hm. unfold percentile.
  destruct (decide (a = [])) as [->|Ha]; [done|].
  destruct a as [|z a'] eqn:Ea; [done|]. rewrite <- Ea in *.
  intros Ht. apply (inj Some) in Ht. rewrite <- Ht.
  pose proof (merge_sort_Permutation Z.le a) as Hperm.
  assert (length (merge_sort Z.le a) = length a) as Hlen
    by by rewrite Hperm.
  assert (0 <= inject_Z (Z.of_nat (length a - 1)))%Q as Hn0.
  { change 0%Q with (inject_Z 0). rewrite <- Zle_Qle. lia. }
  apply interpolate_lower_bound.
  - apply Qmult_le_0_compat; [done|].
    apply Qle_shift_div_l; [reflexivity | lra].
  - rewrite Hlen.
    assert (q / 100 <= 1)%Q by (apply Qle_shift_div_r; [reflexivity | lra]).
    nra.
  - intros E. rewrite E in Hlen. destruct a; [done | discriminate].
  - intros x Hx. apply Hm. by rewrite <- Hperm.
Qed.


Lemma rare_flag_one t c :
  rare_flag t c = 1 ↔ (∃ q, t = Some q ∧ (inject_Z c <= q)%Q) ∨ c = 1.
Proof.
  unfold rare_flag, astype_int, fle.
  destruct t as [q|]; simpl.
  - destruct (Qle_bool (inject_Z c) q) eqn:E; simpl.
    + apply Qle_bool_iff in E. split; [|done]. intros _. left. eauto.
    + assert (¬ (inject_Z c <= q)%Q) by (rewrite <- Qle_bool_iff; congruence).
      case_bool_decide; split; try done; auto.
      intros [(? & [= <-] & ?)|?]; done.
  - case_bool_decide; split; try done; auto.
    intros [(? & [=] & ?)|?]; done.
Qed.

Lemma pair_count_lookup account offset_account i a o :
  account !! i = Some a → offset_account !! i = Some o →
  (pair_count_of (zip account offset_account) <$> zip account offset_account) !! i =
  Some (pair_count_of (zip account offset_account) (a, o)).
Proof.
  intros Ha Ho. rewrite list_lookup_fmap.
  rewrite lookup_zip_with, Ha. simpl. by rewrite Ho.
Qed.

(** C3.  A row whose (account, offset_account) pair occurs exactly once in the
    dataset has [pair_count] 1 and [rare_pair_flag] 1, and the flag of a count
    of 1 is 1 whatever the threshold of the account is. *)
Theorem singleton_pair_flagged df account offset_account i a o :
  wf_frame df →
  columns df !! "account" = Some (SStr account) →
  columns df !! "offset_account" = Some (SStr offset_account) →
  columns df !! "pair_count" = None →
  account !! i = Some a →
  offset_account !! i = Some o →
  pair_count_of (zip account offset_account) (a, o) = 1 →
  ∃ out pair_count flags,
    compute_pair_rarity df = OK out ∧
    columns out !! "pair_count" = Some (SInt pair_count) ∧
    columns out !! "rare_pair_flag" = Some (SInt flags) ∧
    pair_count !! i = Some 1 ∧
    flags !! i = Some 1 ∧
    ∀ threshold, rare_flag threshold 1 = 1.
Proof.
  intros Hwf Hacc Hoff Hpc Ha Ho Hone.
  destruct (compute_pair_rarity_spec df account offset_account Hwf Hacc Hoff Hpc)
    as (flags & Hrun & Hlen & Hflags).
  assert (∀ threshold, rare_flag threshold 1 = 1) as Hrare.
  { intros t. apply rare_flag_one. by right. }
  eexists _, _, flags. split; [exact Hrun|]. simpl.
  split; [by rewrite lookup_insert_ne, lookup_insert_eq|].
  split; [by rewrite lookup_insert_eq|].
  rewrite (Hflags i a Ha), (pair_count_lookup _ _ i a o Ha Ho), Hone. simpl.
  by rewrite Hrare.
Qed.

(** C4.  The flag of a row is 1 exactly when its pair count is at most the
    25th percentile of the pair counts of its own account group, or is 1.  The
    threshold is the interpolated percentile of [group_pair_counts], which is
    computed from the rows of that account alone. *)
Theorem rare_pair_flag_iff_account_quartile df account offset_account i a o :
  wf_frame df →
  columns df !! "account" = Some (SStr account) →
  columns df !! "offset_account" = Some (SStr offset_account) →
  columns df !! "pair_count" = None →
  account !! i = Some a →
  offset_account !! i = Some o →
  ∃ out pair_count flags c threshold f,
    compute_pair_rarity df = OK out ∧
    columns out !! "pair_count" = Some (SInt pair_count) ∧
    columns out !! "rare_pair_flag" = Some (SInt flags) ∧
    c = pair_count_of (zip account offset_account) (a, o) ∧
    pair_count !! i = Some c ∧
    percentile (group_pair_counts (group_values a account offset_account)) 25
      = Some threshold ∧
    flags !! i = Some f ∧
    (f = 0 ∨ f = 1) ∧
    (f = 1 ↔ (inject_Z c <= threshold)%Q ∨ c = 1).
Proof.
  intros Hwf Hacc Hoff Hpc Ha Ho.
  destruct (compute_pair_rarity_spec df account offset_account Hwf Hacc Hoff Hpc)
    as (flags & Hrun & Hlen & Hflags).
  pose proof (pair_count_lookup _ _ i a o Ha Ho) as Hci.
  set (c := pair_count_of (zip account offset_account) (a, o)) in *.
  destruct (percentile_is_Some (account_pair_counts account offset_account a) 25)
    as [t Ht].
  { intros E.
    assert (c ∈ account_pair_counts account offset_account a) as Hin.
    { apply elem_of_group_values. eauto. }
    rewrite E in Hin. by apply elem_of_nil in Hin. }
  eexists _, _, flags, c, t, _. split; [exact Hrun|]. simpl.
  split; [by rewrite lookup_insert_ne, lookup_insert_eq|].
  split; [by rewrite lookup_insert_eq|].
  split; [done|]. split; [exact Hci|].
  split; [by rewrite <- account_pair_counts_local|].
  split; [by rewrite (Hflags i a Ha), Hci, Ht|].
  split; [apply rare_flag_01|].
  rewrite rare_flag_one. split.
  - intros [(q & [= <-] & Hq)|?]; auto.
  - intros [?|?]; [left; eauto | by right].
Qed.


(** ** Amount statistics *)

Lemma Qsum_const (l : list Q) (c : Q) :
  (∀ x, x ∈ l → (x == c)%Q) →
  (Qsum l == inject_Z (Z.of_nat (length l)) * c)%Q.
Proof.
  induction l as [|x l IH]; intros Hc.
  - simpl. ring.
  - simpl length. rewrite Nat2Z.inj_succ, <- Z.add_1_r, inject_Z_plus.
    simpl Qsum. rewrite (Hc x) by left. rewrite IH.
    + change (inject_Z 1) with 1%Q. ring.
    + intros y Hy. apply Hc. by right.
Qed.

Lemma Qsum_zero (l : list Q) :
  (∀ x, x ∈ l → (x == 0)%Q) → (Qsum l == 0)%Q.
Proof. intros H. rewrite (Qsum_const l 0 H). ring. Qed.

(** The variance of numbers that are all equal is 0. *)
Lemma var_const (xs : list (option Q)) (c v : Q) :
  (∀ x, x ∈ dropna xs → (x == c)%Q) →
  var xs = Some v → (v == 0)%Q.
Proof.
  intros Hc. unfold var.
  set (l := dropna xs) in *. set (n := Z.of_nat (length l)).
  destruct (n <=? 1) eqn:Hn; [done|]. apply Z.leb_gt in Hn.
  intros Hv. apply (inj Some) in Hv. rewrite <- Hv.
  assert (¬ (inject_Z n == 0)%Q) as Hn0.
  { change 0%Q with (inject_Z 0). rewrite inject_Z_injective. lia. }
  assert (Qsum l / inject_Z n == c)%Q as Hm.
  { rewrite (Qsum_const l c Hc). fold n. by field. }
  rewrite Qsum_zero; [by unfold Qdiv; ring|].
  intros y (x & -> & Hx)%list_elem_of_fmap.
  rewrite Hm, (Hc x Hx). ring.
Qed.

(** *** The absolute amounts *)

Lemma series_abs_length c s abs_amount :
  series_abs c s = OK abs_amount → length abs_amount = series_len s.
Proof. destruct s; simpl; intros [= <-]; by rewrite ?length_fmap. Qed.

(** A column that can be read as floats has absolute values: those of its
    cells when it is a float column, those of [int64] when it is an integer
    column. *)
Lemma series_abs_cases c s amount :
  as_float c s = OK amount →
  (s = SFloat amount ∧ series_abs c s = OK (fmap (M:=option) Qabs <$> amount)) ∨
  (∃ xs, s = SInt xs ∧ amount = (λ z, Some (inject_Z z)) <$> xs ∧
         series_abs c s = OK ((λ x, Some (inject_Z (abs_int64 x))) <$> xs)).
Proof.
  destruct s as [xs|xs| | |]; simpl; intros [= <-]; [right|left]; eauto.
Qed.

Lemma series_abs_total c s amount :
  as_float c s = OK amount →
  ∃ abs_amount, series_abs c s = OK abs_amount ∧ length abs_amount = length amount.
Proof.
  destruct s; simpl; intros [= <-]; eexists; (split; [done|]);
    by rewrite ?length_fmap.
Qed.

Lemma series_abs_of_float c s abs_amount :
  series_abs c s = OK abs_amount → ∃ amount, as_float c s = OK amount.
Proof. destruct s; simpl; intros [= <-]; eauto. Qed.



Section AmountStatistics.

Variable ar : FloatOps.

(** [compute_amount_stats_with], column by column. *)
Lemma compute_amount_stats_with_spec df s abs_amount account :
  columns df !! "amount" = Some s →
  series_abs "amount" s = OK abs_amount →
  columns df !! "account" = Some (SStr account) →
  columns df !! "avg_abs_amount" = None →
  columns df !! "std_abs_amount" = None →
  let joined :=
    (λ a, let g := group_values a account abs_amount in (agg_mean ar g, agg_std ar g))
      <$> account in
  let amount_z := zip_with (λ x s, zscore_with ar x s.1 s.2) abs_amount joined in
  compute_amount_stats_with ar df =
  OK (set_col (set_col (set_col (set_col (set_col (set_col df
        "abs_amount" (SFloat abs_amount))
        "avg_abs_amount" (SFloat (joined.*1)))
        "std_abs_amount" (SFloat (joined.*2)))
        "amount_z" (SFloat amount_z))
        "amount_outlier_flag" (SInt ((λ z, astype_int (fge z 2)) <$> amount_z)))
        "round_dollar_flag"
           (SInt ((λ x, astype_int (feq (fmod x 100) 0)) <$> abs_amount))).
Proof.
  intros Ham Habs Hacc Havg Hstd joined amount_z.
  unfold compute_amount_stats_with.
  rewrite (bind_OK _ _ s) by by apply col_OK.
  rewrite (bind_OK _ _ abs_amount) by done.
  rewrite (bind_OK _ _ account).
  2:{ apply get_str_OK. simpl. by rewrite lookup_insert_ne. }
  rewrite (bind_OK _ _ ()).
  2:{ apply join_check_OK. simpl. by rewrite lookup_insert_ne. }
  rewrite (bind_OK _ _ ()).
  2:{ apply join_check_OK. simpl. by rewrite lookup_insert_ne. }
  assert ((λ a, default (None, None)
                  (assoc a (groupby_agg account abs_amount
                              (λ g, (agg_mean ar g, agg_std ar g))))) <$> account
          = joined) as ->; [|done].
  apply list_fmap_ext. intros j a Hj.
  by rewrite assoc_groupby by by eapply list_elem_of_lookup_2.
Qed.

End AmountStatistics.

Section AmountStatisticsExact.

Variable sqrtQ : Q → Q.
Hypothesis sqrtQ_zero : ∀ v, (v == 0)%Q → (sqrtQ v == 0)%Q.

(** The standard deviation of a group whose numbers are all equal, or that
    has fewer than two numbers, is NaN or 0. *)
Lemma std_const (xs : list (option Q)) (c : Q) :
  (∀ x, x ∈ dropna xs → (x == c)%Q) →
  replace_zero_nan (std sqrtQ xs) = None.
Proof using sqrtQ_zero.
  intros Hc. unfold std. destruct (var xs) as [v|] eqn:Hv; [|done].
  simpl. rewrite (proj2 (Qeq_bool_iff _ _)); [done|].
  apply sqrtQ_zero. by eapply var_const.
Qed.

Lemma zscore_nan_std x avg sd :
  replace_zero_nan sd = None → zscore x avg sd = Some 0%Q.
Proof. unfold zscore. intros ->. by destruct (fsub x avg). Qed.


(** [compute_amount_stats], column by column. *)
Lemma compute_amount_stats_spec df s abs_amount account :
  columns df !! "amount" = Some s →
  series_abs "amount" s = OK abs_amount →
  columns df !! "account" = Some (SStr account) →
  columns df !! "avg_abs_amount" = None →
  columns df !! "std_abs_amount" = None →
  let joined :=
    (λ a, let g := group_values a account abs_amount in (mean g, std sqrtQ g))
      <$> account in
  let amount_z := zip_with (λ x s, zscore x s.1 s.2) abs_amount joined in
  compute_amount_stats sqrtQ df =
  OK (set_col (set_col (set_col (set_col (set_col (set_col df
        "abs_amount" (SFloat abs_amount))
        "avg_abs_amount" (SFloat (joined.*1)))
        "std_abs_amount" (SFloat (joined.*2)))
        "amount_z" (SFloat amount_z))
        "amount_outlier_flag" (SInt ((λ z, astype_int (fge z 2)) <$> amount_z)))
        "round_dollar_flag"
           (SInt ((λ x, astype_int (feq (fmod x 100) 0)) <$> abs_amount))).
Proof.
  exact (compute_amount_stats_with_spec (exact_ops sqrtQ) df s abs_amount account).
Qed.

End AmountStatisticsExact.


(** ** Merging *)

Section Merge.
Context {K : Type} `{EqDecision K}.

Lemma filter_eq_NoDup (k : K) (l : list K) :
  NoDup l → k ∈ l → filter (λ k', k' = k) l = [k].
Proof.
  induction 1 as [|x l Hx Hnd IH]; [by intros ?%elem_of_nil|].
  rewrite filter_cons. intros [->|Hk]%elem_of_cons.
  - rewrite decide_True by done. f_equal.
    clear IH Hnd. induction l as [|y l IH]; [done|].
    rewrite filter_cons. rewrite decide_False.
    + apply IH. intros ?. apply Hx. by right.
    + intros ->. apply Hx. by left.
  - rewrite decide_False; [by apply IH|]. by intros ->.
Qed.

Lemma filter_fmap_key {V : Type} (g : K → V) (k : K) (l : list K) :
  filter (λ kv, kv.1 = k) ((λ k, (k, g k)) <$> l) =
  (λ k, (k, g k)) <$> filter (λ k', k' = k) l.
Proof.
  induction l as [|x l IH]; [done|]. csimpl.
  rewrite !filter_cons. simpl. case_decide; csimpl; by rewrite IH.
Qed.

Lemma mjoin_imap_singleton {A B : Type} (h : nat → A → B) (l : list A) :
  mjoin (imap (λ i x, [h i x]) l) = imap h l.
Proof.
  revert h. induction l as [|x l IH]; intros h; [done|].
  simpl. f_equal. apply (IH (h ∘ S)).
Qed.

(** A left merge against a table that has each key of the left side exactly
    once gives one row per left row, in order. *)
Lemma merge_left_unique {V : Type} (g : K → V) (keys ks : list K) :
  NoDup ks → (∀ k, k ∈ keys → k ∈ ks) →
  merge_left keys ((λ k, (k, g k)) <$> ks) =
  imap (λ i k, (i, Some (g k))) keys.
Proof.
  intros Hnd Hin. unfold merge_left.
  rewrite <- (mjoin_imap_singleton (λ i k, (i, Some (g k)))). f_equal.
  apply imap_ext. intros i k Hk. unfold merge_matches.
  rewrite filter_fmap_key, filter_eq_NoDup; [done|done|].
  apply Hin. by eapply list_elem_of_lookup_2.
Qed.

Lemma imap_fst_seq {A B : Type} (f : nat → nat) (g : A → B) (l : list A) :
  (imap (λ i x, (f i, g x)) l).*1 = f <$> seq 0 (length l).
Proof.
  revert f. induction l as [|x l IH]; intros f; [done|]. csimpl. f_equal.
  rewrite <- fmap_S_seq, <- list_fmap_compose. apply (IH (f ∘ S)).
Qed.

Lemma imap_fst {A B : Type} (g : A → B) (l : list A) :
  (imap (λ i x, (i, g x)) l).*1 = seq 0 (length l).
Proof. by rewrite (imap_fst_seq id), list_fmap_id. Qed.

Lemma imap_snd_seq {A B C : Type} (f : nat → nat) (g : A → B) (h : B → C)
    (l : list A) :
  (λ r, h r.2) <$> imap (λ i x, (f i, g x)) l = (λ x, h (g x)) <$> l.
Proof.
  revert f. induction l as [|x l IH]; intros f; [done|]. csimpl. f_equal.
  apply (IH (f ∘ S)).
Qed.

Lemma imap_snd {A B C : Type} (g : A → B) (h : B → C) (l : list A) :
  (λ r, h r.2) <$> imap (λ (i : nat) x, (i, g x)) l = (λ x, h (g x)) <$> l.
Proof. apply (imap_snd_seq id). Qed.

End Merge.

Lemma iloc_list_seq {A : Type} (xs : list A) :
  iloc_list (seq 0 (length xs)) xs = xs.
Proof.
  induction xs as [|x xs IH]; [done|].
  simpl length. simpl seq. rewrite iloc_list_cons. simpl.
  by rewrite <- fmap_S_seq, iloc_list_fmap_S, IH.
Qed.

Lemma iloc_seq (s : Series) : iloc (seq 0 (series_len s)) s = s.
Proof. destruct s; simpl; by rewrite iloc_list_seq. Qed.

(** Taking every row of a frame, in order, gives the frame back. *)
Lemma iloc_all_rows df :
  wf_frame df → iloc (seq 0 (nrows df)) <$> columns df = columns df.
Proof.
  intros Hwf. apply map_eq. intros c. rewrite lookup_fmap.
  destruct (columns df !! c) as [s|] eqn:Hs; [|done]. simpl.
  by rewrite <- (Hwf _ _ Hs), iloc_seq.
Qed.

(** ** User volume *)

Lemma remove_dups_cons {A : Type} `{EqDecision A} (x : A) (l : list A) :
  remove_dups (x :: l) =
  if decide (x ∈ l) then remove_dups l else x :: remove_dups l.
Proof. done. Qed.

Lemma filter_remove_dups {A : Type} `{EqDecision A} (P : A → Prop)
    `{∀ x, Decision (P x)} (l : list A) :
  filter P (remove_dups l) = remove_dups (filter P l).
Proof.
  induction l as [|x l IH]; [done|].
  rewrite remove_dups_cons, filter_cons.
  destruct (decide (x ∈ l)) as [Hx|Hx].
  - rewrite IH. destruct (decide (P x)) as [HP|HP]; [|done].
    rewrite remove_dups_cons, decide_True; [done|]. by apply list_elem_of_filter.
  - rewrite filter_cons. destruct (decide (P x)) as [HP|HP]; [|done].
    rewrite remove_dups_cons, decide_False; [by rewrite IH|].
    by intros [_ ?]%list_elem_of_filter.
Qed.

Lemma fmap_remove_dups {A B : Type} `{EqDecision A} `{EqDecision B}
    (f : A → B) (l : list A) :
  (∀ x y, x ∈ l → y ∈ l → f x = f y → x = y) →
  f <$> remove_dups l = remove_dups (f <$> l).
Proof.
  induction l as [|x l IH]; intros Hinj; [done|].
  assert (∀ x y, x ∈ l → y ∈ l → f x = f y → x = y) as Hinj'.
  { intros y z Hy Hz. apply Hinj; by right. }
  rewrite fmap_cons, !remove_dups_cons.
  destruct (decide (x ∈ l)) as [Hx|Hx].
  - rewrite decide_True; [by apply IH|]. apply list_elem_of_fmap. eauto.
  - rewrite decide_False; [rewrite fmap_cons; f_equal; by apply IH|].
    intros (y & Hy & Hin)%list_elem_of_fmap. apply Hx.
    rewrite (Hinj x y); [done|left|by right|done].
Qed.

Lemma group_values_fmap_key {A K : Type} `{EqDecision K} (f : A → K) (k : K)
    (l : list A) :
  group_values k (f <$> l) l = filter (λ x, f x = k) l.
Proof.
  induction l as [|x l IH]; [done|]. csimpl.
  rewrite group_values_cons, filter_cons. case_decide; by rewrite IH.
Qed.

(** *** The order of the groups *)

Lemma string_leb_total s t : string_leb s t = true ∨ string_leb t s = true.
Proof.
  revert t. induction s as [|a s IH]; intros [|b t]; simpl; auto.
  rewrite !orb_true_iff, !andb_true_iff, !N.ltb_lt, !N.eqb_eq.
  destruct (N.lt_trichotomy (N_of_ascii a) (N_of_ascii b)) as [Hlt|[Heq|Hgt]].
  - by left; left.
  - destruct (IH t) as [H|H]; [left|right]; right; done.
  - by right; left.
Qed.

Lemma string_leb_trans s t r :
  string_leb s t = true → string_leb t r = true → string_leb s r = true.
Proof.
  revert t r. induction s as [|a s IH]; intros [|b t] [|c r]; simpl; try done.
  rewrite !orb_true_iff, !andb_true_iff, !N.ltb_lt, !N.eqb_eq.
  intros [H1|[H1 H1']] [H2|[H2 H2']].
  - left. lia.
  - left. lia.
  - left. lia.
  - right. split; [lia|]. by apply (IH t).
Qed.

Lemma string_leb_antisym s t :
  string_leb s t = true → string_leb t s = true → s = t.
Proof.
  revert t. induction s as [|a s IH]; intros [|b t]; simpl; try done.
  rewrite !orb_true_iff, !andb_true_iff, !N.ltb_lt, !N.eqb_eq.
  intros [H1|[H1 H1']] [H2|[H2 H2']]; try lia.
  f_equal; [|by apply IH].
  by rewrite <- (ascii_N_embedding a), <- (ascii_N_embedding b), H1.
Qed.

Global Instance date_le_trans : Transitive date_le.
Proof. intros [] [] []. unfold date_le. simpl. lia. Qed.

Global Instance date_le_total : Total date_le.
Proof. intros [] []. unfold date_le. simpl. lia. Qed.

Global Instance date_le_antisym : AntiSymm eq date_le.
Proof. intros [] []. unfold date_le. simpl. intros ??. f_equal; lia. Qed.

Global Instance key_le_trans : Transitive key_le.
Proof.
  intros [u1 m1] [u2 m2] [u3 m3]. unfold key_le. simpl.
  destruct (decide (u1 = u2)) as [->|H12], (decide (u2 = u3)) as [->|H23];
    intros H1 H2.
  - by trans m2.
  - done.
  - by rewrite decide_False.
  - destruct (decide (u1 = u3)) as [->|H13].
    + destruct H12. by apply string_leb_antisym.
    + by apply (string_leb_trans _ u2).
Qed.

Global Instance key_le_total : Total key_le.
Proof.
  intros [u1 m1] [u2 m2]. unfold key_le. simpl.
  destruct (decide (u1 = u2)) as [->|H12].
  - rewrite decide_True by done. apply (total date_le).
  - rewrite decide_False by done. apply string_leb_total.
Qed.

(** Among groups in key order, those of one user come month after month. *)
Lemma sorted_months_of_user (l : list (string * Date)) u :
  StronglySorted key_le l →
  StronglySorted date_le (filter (λ k, k.1 = u) l).*2.
Proof.
  induction 1 as [|k l Hl IH Hk]; [constructor|].
  rewrite filter_cons. case_decide as Hu; [|done]. csimpl.
  constructor; [done|]. apply Forall_fmap, Forall_forall.
  intros k' [Hk' Hin]%list_elem_of_filter.
  rewrite Forall_forall in Hk. specialize (Hk k' Hin).
  unfold key_le in Hk. rewrite decide_True in Hk by congruence. done.
Qed.

Lemma groupby_agg_sorted_keys {K V R : Type} `{EqDecision K}
    (le : relation K) `{∀ x y, Decision (le x y)}
    (f : list V → R) (keys : list K) vals :
  (groupby_agg_sorted le keys vals f).*1 = merge_sort le (group_keys keys).
Proof.
  unfold groupby_agg_sorted. rewrite <- list_fmap_compose. apply list_fmap_id.
Qed.

(** The months of the groups of user [u], in order of occurrence, are the
    months in which [u] posted. *)
Lemma user_group_months_occurring (created_by : list string)
    (month_start : list Date) u :
  (filter (λ k, k.1 = u) (group_keys (zip created_by month_start))).*2 =
  user_months created_by month_start u.
Proof.
  unfold user_months, group_keys. rewrite filter_remove_dups.
  rewrite fmap_remove_dups; [done|].
  intros [u1 m1] [u2 m2] [Hu1 _]%list_elem_of_filter [Hu2 _]%list_elem_of_filter.
  simpl in *. congruence.
Qed.

(** The months of the (user, month) groups of user [u], in the order of the
    grouped table, are the months in which [u] posted, in the order of the
    calendar. *)
Lemma user_group_months (created_by : list string) (month_start : list Date) u :
  (filter (λ k, k.1 = u)
     (merge_sort key_le (group_keys (zip created_by month_start)))).*2 =
  merge_sort date_le (user_months created_by month_start u).
Proof.
  apply (StronglySorted_unique date_le).
  - apply sorted_months_of_user, StronglySorted_merge_sort; apply _.
  - apply StronglySorted_merge_sort; apply _.
  - rewrite !merge_sort_Permutation.
    by rewrite user_group_months_occurring.
Qed.

(** The per-user aggregation of line 66 runs over the monthly counts of the
    user, one per month in which the user posted, month after month. *)
Lemma user_stats_group (created_by : list string) (month_start : list Date)
    (entry_id : list string) (u : string) :
  let keys := zip created_by month_start in
  let per_user_month := groupby_agg_sorted key_le keys entry_id nunique in
  group_values u (per_user_month.*1.*1)
               ((λ km, Some (inject_Z km.2)) <$> per_user_month) =
  user_monthly_counts created_by month_start entry_id u.
Proof.
  intros keys per_user_month.
  unfold per_user_month, groupby_agg_sorted. rewrite <- !list_fmap_compose.
  rewrite group_values_fmap.
  rewrite (group_values_fmap_key (fst ∘ fst ∘ λ k, (k, nunique (group_values k keys entry_id)))).
  unfold user_monthly_counts. rewrite <- user_group_months, <- list_fmap_compose.
  fold keys. apply list_fmap_ext. intros i [u' m] Hk.
  apply list_elem_of_lookup_2, list_elem_of_filter in Hk as [Hu _].
  simpl in *. subst u'. done.
Qed.

Lemma merge_check_OK df c u : merge_check df c = OK u ↔ columns df !! c = None.
Proof.
  unfold merge_check. destruct u, (columns df !! c); split; congruence.
Qed.

Section UserVolume.

Variable ar : FloatOps.

(** [compute_user_volume_with], column by column. *)
Lemma compute_user_volume_with_spec df posting_date created_by entry_id :
  wf_frame df →
  columns df !! "posting_date" = Some (SDate posting_date) →
  columns df !! "created_by" = Some (SStr created_by) →
  columns df !! "entry_id" = Some (SStr entry_id) →
  columns df !! "entry_volume_z" = None →
  let month_start := month_floor <$> posting_date in
  let zs := volume_z ar created_by month_start entry_id
              <$> zip created_by month_start in
  compute_user_volume_with ar df =
  OK (set_col (set_col (set_col df
        "month_start" (SDate month_start))
        "entry_volume_z" (SFloat zs))
        "user_volume_outlier_flag" (SInt ((λ z, astype_int (fge z 2)) <$> zs))).
Proof.
  intros Hwf Hpd Hcb Heid Hz month_start zs.
  pose proof (wf_lookup_len _ _ _ Hwf Hpd) as Hlpd.
  pose proof (wf_lookup_len _ _ _ Hwf Hcb) as Hlcb. simpl in Hlpd, Hlcb.
  unfold compute_user_volume_with.
  rewrite (bind_OK _ _ posting_date) by by apply get_date_OK.
  fold month_start.
  set (df1 := set_col df "month_start" (SDate month_start)).
  assert (wf_frame df1) as Hwf1.
  { apply wf_set_col; [done|]. simpl. unfold month_start. by rewrite length_fmap. }
  rewrite (bind_OK _ _ created_by).
  2:{ apply get_str_OK. simpl. by rewrite lookup_insert_ne. }
  rewrite (bind_OK _ _ entry_id).
  2:{ apply get_str_OK. simpl. by rewrite lookup_insert_ne. }
  rewrite (bind_OK _ _ ()).
  2:{ apply merge_check_OK. simpl. by rewrite lookup_insert_ne. }
  set (keys := zip created_by month_start).
  assert (length keys = nrows df) as Hlk.
  { unfold keys, month_start. rewrite length_zip, length_fmap. lia. }
  set (per_user_month := groupby_agg_sorted key_le keys entry_id nunique).
  set (stats := groupby_agg _ _ _).
  (* the table of z-scores has one row per (user, month) group *)
  assert ((λ km : string * Date * Z,
             (km.1, zscore_with ar (Some (inject_Z km.2))
                      (default (None, None) (assoc km.1.1 stats)).1
                      (default (None, None) (assoc km.1.1 stats)).2))
            <$> per_user_month
          = (λ k, (k, volume_z ar created_by month_start entry_id k))
              <$> merge_sort key_le (group_keys keys)) as ->.
  { unfold per_user_month at 1, groupby_agg_sorted at 1. rewrite <- list_fmap_compose.
    apply list_fmap_ext. intros i [u m] Hk. simpl.
    unfold stats. rewrite assoc_groupby.
    - simpl. unfold volume_z. simpl.
      pose proof (user_stats_group created_by month_start entry_id u) as Hg.
      cbv zeta in Hg. fold keys in Hg. fold per_user_month in Hg.
      by rewrite Hg.
    - unfold per_user_month. rewrite groupby_agg_sorted_keys.
      apply list_elem_of_fmap. exists (u, m). split; [done|].
      by eapply list_elem_of_lookup_2. }
  rewrite merge_left_unique, imap_fst, length_imap, Hlk.
  2:{ rewrite merge_sort_Permutation. apply NoDup_group_keys. }
  2:{ intros k Hk. rewrite merge_sort_Permutation. by apply elem_of_group_keys. }
  replace (nrows df) with (nrows df1) by done.
  rewrite (iloc_all_rows df1 Hwf1).
  rewrite (imap_snd _ (λ o, mjoin o)). simpl.
  done.
Qed.

End UserVolume.

(** [compute_user_volume], column by column. *)
Lemma compute_user_volume_spec (sqrtQ : Q → Q) df posting_date created_by entry_id :
  wf_frame df →
  columns df !! "posting_date" = Some (SDate posting_date) →
  columns df !! "created_by" = Some (SStr created_by) →
  columns df !! "entry_id" = Some (SStr entry_id) →
  columns df !! "entry_volume_z" = None →
  let month_start := month_floor <$> posting_date in
  let zs := volume_z (exact_ops sqrtQ) created_by month_start entry_id
              <$> zip created_by month_start in
  compute_user_volume sqrtQ df =
  OK (set_col (set_col (set_col df
        "month_start" (SDate month_start))
        "entry_volume_z" (SFloat zs))
        "user_volume_outlier_flag" (SInt ((λ z, astype_int (fge z 2)) <$> zs))).
Proof.
  exact (compute_user_volume_with_spec (exact_ops sqrtQ) df posting_date
           created_by entry_id).
Qed.

Lemma outlier_flag_one z :
  astype_int (fge z 2) = 1 ↔ ∃ q, z = Some q ∧ (2 <= q)%Q.
Proof.
  unfold astype_int, fge. destruct z as [q|].
  - destruct (Qle_bool 2 q) eqn:E.
    + apply Qle_bool_iff in E. split; [eauto|done].
    + split; [done|]. intros (q' & [= <-] & Hq).
      apply Qle_bool_iff in Hq. congruence.
  - split; [done|]. by intros (? & [=] & _).
Qed.

Lemma astype_int_01 b : astype_int b = 0 ∨ astype_int b = 1.
Proof. destruct b; auto. Qed.

Lemma zscore_with_is_Some ar x avg sd : ∃ q, zscore_with ar x avg sd = Some q.
Proof. unfold zscore_with, fillna. destruct (lift2 _ _ _); eauto. Qed.

(** C5.  Whatever the floating-point arithmetic, on every row
    [entry_volume_z] is the z-score of the number of distinct entries of the
    row's user in the row's month against the [mean] and the sample [std] of
    that user's monthly counts, one count per month in which the user
    posted: the quotient of the difference by the [std], and 0 when the
    [std] is 0 or NaN or the quotient is NaN.  Every line of the same user
    and month carries that value, and [user_volume_outlier_flag] is 1
    exactly when the value is at least 2. *)
Theorem entry_volume_z_is_monthly_zscore (ar : FloatOps)
    df posting_date created_by entry_id i u d :
  wf_frame df →
  columns df !! "posting_date" = Some (SDate posting_date) →
  columns df !! "created_by" = Some (SStr created_by) →
  columns df !! "entry_id" = Some (SStr entry_id) →
  columns df !! "entry_volume_z" = None →
  created_by !! i = Some u →
  posting_date !! i = Some d →
  ∃ out month_start zs flags z f,
    compute_user_volume_with ar df = OK out ∧
    columns out !! "month_start" = Some (SDate month_start) ∧
    columns out !! "entry_volume_z" = Some (SFloat zs) ∧
    columns out !! "user_volume_outlier_flag" = Some (SInt flags) ∧
    month_start = month_floor <$> posting_date ∧
    month_start !! i = Some (mkDate (year d) (month d) 1) ∧
    zs !! i = Some (Some z) ∧
    flags !! i = Some f ∧
    (let count :=
       Z.of_nat (length (remove_dups
         (group_values (u, mkDate (year d) (month d) 1)
                       (zip created_by month_start) entry_id))) in
     let counts := user_monthly_counts created_by month_start entry_id u in
     (∀ avg sd,
        agg_mean ar counts = Some avg → agg_std ar counts = Some sd →
        ¬ (sd == 0)%Q →
        z = match fl_sub ar (inject_Z count) avg with
            | Some diff => match fl_div ar diff sd with Some q => q | None => 0%Q end
            | None => 0%Q
            end) ∧
     (agg_mean ar counts = None → z = 0%Q) ∧
     (agg_std ar counts = None → z = 0%Q) ∧
     (∀ sd, agg_std ar counts = Some sd → (sd == 0)%Q → z = 0%Q)) ∧
    (∀ j d', created_by !! j = Some u → posting_date !! j = Some d' →
       year d' = year d → month d' = month d →
       zs !! j = Some (Some z) ∧ flags !! j = Some f) ∧
    (f = 0 ∨ f = 1) ∧
    (f = 1 ↔ (2 <= z)%Q).
Proof.
  intros Hwf Hpd Hcb Heid Hz Hu Hd.
  pose proof (compute_user_volume_with_spec ar df posting_date created_by entry_id
                Hwf Hpd Hcb Heid Hz) as Hrun. cbv zeta in Hrun.
  set (month_start := month_floor <$> posting_date) in *.
  assert (∀ j d', created_by !! j = Some u → posting_date !! j = Some d' →
            year d' = year d → month d' = month d →
            (volume_z ar created_by month_start entry_id
               <$> zip created_by month_start) !! j
            = Some (volume_z ar created_by month_start entry_id (u, month_floor d)))
    as Hrow.
  { intros j d' Hj Hd' Hy Hmo.
    assert (month_start !! j = Some (month_floor d)) as Hmj.
    { unfold month_start, month_floor. rewrite list_lookup_fmap, Hd'. simpl.
      by rewrite Hy, Hmo. }
    by rewrite list_lookup_fmap, lookup_zip_with, Hj, Hmj. }
  pose proof (Hrow i d Hu Hd eq_refl eq_refl) as Hzi.
  assert (∃ z, volume_z ar created_by month_start entry_id (u, month_floor d) = Some z)
    as [z Hv] by apply zscore_with_is_Some.
  rewrite Hv in Hrow, Hzi.
  eexists _, month_start, _, _, z, (astype_int (fge (Some z) 2)).
  split; [exact Hrun|]. simpl.
  split; [by rewrite !lookup_insert_ne, lookup_insert_eq by done|].
  split; [by rewrite !lookup_insert_ne, lookup_insert_eq by done|].
  split; [by rewrite lookup_insert_eq|].
  split; [done|].
  split; [unfold month_start; by rewrite list_lookup_fmap, Hd|].
  split; [exact Hzi|].
  split; [by rewrite list_lookup_fmap, Hzi|].
  split.
  { unfold volume_z, zscore_with, monthly_entries, nunique, month_floor in Hv.
    simpl in Hv.
    repeat split.
    - intros avg sd Havg Hsd Hsd0. rewrite Havg, Hsd in Hv. simpl in Hv.
      destruct (Qeq_bool sd 0) eqn:E; [by apply Qeq_bool_iff in E|].
      simpl in Hv. destruct (fl_sub ar _ avg) as [diff|]; simpl in Hv.
      + destruct (fl_div ar diff sd); simpl in Hv; congruence.
      + congruence.
    - intros Havg. rewrite Havg in Hv. simpl in Hv. congruence.
    - intros Hsd. rewrite Hsd in Hv. simpl in Hv.
      destruct (agg_mean ar _); simpl in Hv; [|congruence].
      destruct (fl_sub ar _ _); simpl in Hv; congruence.
    - intros sd Hsd Hsd0. rewrite Hsd in Hv. simpl in Hv.
      rewrite (proj2 (Qeq_bool_iff _ _) Hsd0) in Hv.
      destruct (agg_mean ar _); simpl in Hv; [|congruence].
      destruct (fl_sub ar _ _); simpl in Hv; congruence. }
  split.
  { intros j d' Hj Hd' Hy Hmo. pose proof (Hrow j d' Hj Hd' Hy Hmo) as Hzj.
    split; [exact Hzj|]. by rewrite list_lookup_fmap, Hzj. }
  split; [apply astype_int_01|].
  change (astype_int (fge (Some z) 2) = 1 ↔ (2 <= z)%Q).
  rewrite outlier_flag_one. split.
  - by intros (q & [= <-] & Hq).
  - eauto.
Qed.

(** ** What each stage leaves in the frame *)

Lemma extends_trans w1 w2 df1 df2 df3 :
  extends w1 df1 df2 → extends w2 df2 df3 → extends (w1 ++ w2) df1 df3.
Proof.
  intros [Hn1 Hc1] [Hn2 Hc2]. split; [congruence|].
  intros c Hc. rewrite not_elem_of_app in Hc. destruct Hc.
  rewrite Hc2, Hc1; done.
Qed.

Lemma is_flag_col_extends w df out c :
  extends w df out → c ∉ w → is_flag_col df c → is_flag_col out c.
Proof. intros [_ Hc] Hw (xs & Hx & H01). exists xs. by rewrite Hc. Qed.

Lemma Forall_zip_with {A B C : Type} (P : C → Prop) (f : A → B → C) l k :
  (∀ x y, P (f x y)) → Forall P (zip_with f l k).
Proof.
  intros Hf. revert k. induction l as [|x l IH]; intros [|y k]; simpl; auto.
Qed.

Lemma Forall_fmap_all {A B : Type} (P : B → Prop) (f : A → B) l :
  (∀ x, P (f x)) → Forall P (f <$> l).
Proof. intros Hf. apply Forall_fmap, Forall_true. intros x. apply Hf. Qed.

(** Rewrites the lookup of a literal column name in a chain of [set_col]. *)
Ltac lookup_set_col :=
  simpl; rewrite ?lookup_insert_eq;
  repeat (rewrite lookup_insert_ne by done; rewrite ?lookup_insert_eq);
  try done.

(** Membership of a literal in a literal list, and its negation. *)
Ltac in_list :=
  repeat first [apply list_elem_of_here | apply list_elem_of_further].

Ltac not_in_list :=
  let Hin := fresh "Hin" in
  intros Hin;
  repeat (apply elem_of_cons in Hin as [?|Hin]; [done|]);
  by apply elem_of_nil in Hin.

(** Drops the [set_col] of other columns from a lookup hypothesis. *)
Ltac strip_inserts H :=
  simpl in H; repeat (rewrite lookup_insert_ne in H by done).

(** Proves [extends] for a chain of [set_col]. *)
Ltac extends_set_col :=
  split; [done|];
  let c := fresh "c" in let Hc := fresh "Hc" in
  intros c Hc; simpl;
  rewrite !lookup_insert_ne; [done|..];
  intros <-; apply Hc; in_list.

Section StagesWith.

Variable ar : FloatOps.

Lemma compute_amount_stats_with_inv df out :
  compute_amount_stats_with ar df = OK out →
  ∃ s abs_amount account,
    columns df !! "amount" = Some s ∧
    series_abs "amount" s = OK abs_amount ∧
    columns df !! "account" = Some (SStr account) ∧
    columns df !! "avg_abs_amount" = None ∧
    columns df !! "std_abs_amount" = None.
Proof.
  intros Hrun. unfold compute_amount_stats_with in Hrun.
  inv_bind Hrun. rename v into s, E into Hs. apply col_OK in Hs.
  inv_bind Hrun. rename v into abs_amount, E into Habs.
  inv_bind Hrun. rename v into account, E into Hacc. apply get_str_OK in Hacc.
  inv_bind Hrun. rename E into Havg. apply join_check_OK in Havg.
  inv_bind Hrun. rename E into Hstd. apply join_check_OK in Hstd.
  strip_inserts Hacc. strip_inserts Havg. strip_inserts Hstd.
  eauto 10.
Qed.

(** The frame [compute_amount_stats_with] returns, from the fact that it
    returns one. *)
Lemma compute_amount_stats_with_result df out s abs_amount account :
  compute_amount_stats_with ar df = OK out →
  columns df !! "amount" = Some s →
  series_abs "amount" s = OK abs_amount →
  columns df !! "account" = Some (SStr account) →
  let joined :=
    (λ a, let g := group_values a account abs_amount in (agg_mean ar g, agg_std ar g))
      <$> account in
  let amount_z := zip_with (λ x s, zscore_with ar x s.1 s.2) abs_amount joined in
  out =
  set_col (set_col (set_col (set_col (set_col (set_col df
    "abs_amount" (SFloat abs_amount))
    "avg_abs_amount" (SFloat (joined.*1)))
    "std_abs_amount" (SFloat (joined.*2)))
    "amount_z" (SFloat amount_z))
    "amount_outlier_flag" (SInt ((λ z, astype_int (fge z 2)) <$> amount_z)))
    "round_dollar_flag"
       (SInt ((λ x, astype_int (feq (fmod x 100) 0)) <$> abs_amount)).
Proof.
  intros Hrun Hs Habs Hacc.
  destruct (compute_amount_stats_with_inv _ _ Hrun)
    as (s' & abs' & account' & Hs' & Habs' & Hacc' & Havg & Hstd).
  assert (s' = s) as -> by congruence.
  assert (abs' = abs_amount) as -> by congruence.
  assert (account' = account) as -> by congruence.
  pose proof (compute_amount_stats_with_spec ar df s abs_amount account
                Hs Habs Hacc Havg Hstd) as Hspec.
  cbv zeta in *. congruence.
Qed.

Lemma compute_amount_stats_with_frame df out :
  wf_frame df →
  compute_amount_stats_with ar df = OK out →
  wf_frame out ∧
  extends ["abs_amount"; "avg_abs_amount"; "std_abs_amount"; "amount_z";
           "amount_outlier_flag"; "round_dollar_flag"] df out ∧
  is_flag_col out "amount_outlier_flag" ∧
  is_flag_col out "round_dollar_flag".
Proof.
  intros Hwf Hrun.
  destruct (compute_amount_stats_with_inv _ _ Hrun)
    as (s & abs_amount & account & Hs & Habs & Hacc & Ha & Hsd).
  rewrite (compute_amount_stats_with_result df out s abs_amount account
             Hrun Hs Habs Hacc).
  assert (length abs_amount = nrows df) as Hlam.
  { rewrite (series_abs_length _ _ _ Habs). by eapply wf_lookup_len. }
  pose proof (wf_lookup_len _ _ _ Hwf Hacc) as Hlacc. simpl in Hlacc.
  split; [|split; [|split]].
  - repeat apply wf_set_col; try done; simpl;
      rewrite ?length_fmap, ?length_zip_with, ?length_fmap; lia.
  - extends_set_col.
  - eexists. split; [lookup_set_col|].
    apply Forall_fmap_all. intros. apply astype_int_01.
  - eexists. split; [lookup_set_col|].
    apply Forall_fmap_all. intros. apply astype_int_01.
Qed.

Lemma compute_user_volume_with_inv df out :
  compute_user_volume_with ar df = OK out →
  ∃ posting_date created_by entry_id,
    columns df !! "posting_date" = Some (SDate posting_date) ∧
    columns df !! "created_by" = Some (SStr created_by) ∧
    columns df !! "entry_id" = Some (SStr entry_id) ∧
    columns df !! "entry_volume_z" = None.
Proof.
  intros Hrun. unfold compute_user_volume_with in Hrun.
  inv_bind Hrun. rename v into pd, E into Hpd. apply get_date_OK in Hpd.
  inv_bind Hrun. rename v into cb, E into Hcb. apply get_str_OK in Hcb.
  inv_bind Hrun. rename v into eid, E into Heid. apply get_str_OK in Heid.
  inv_bind Hrun. rename E into Hz. apply merge_check_OK in Hz.
  strip_inserts Hcb. strip_inserts Heid. strip_inserts Hz.
  eauto 10.
Qed.

Lemma compute_user_volume_with_frame df out :
  wf_frame df →
  compute_user_volume_with ar df = OK out →
  wf_frame out ∧
  extends ["month_start"; "entry_volume_z"; "user_volume_outlier_flag"] df out ∧
  is_flag_col out "user_volume_outlier_flag".
Proof.
  intros Hwf Hrun.
  destruct (compute_user_volume_with_inv _ _ Hrun)
    as (pd & cb & eid & Hpd & Hcb & Heid & Hz).
  rewrite (compute_user_volume_with_spec ar df pd cb eid Hwf Hpd Hcb Heid Hz) in Hrun.
  injection Hrun as <-.
  pose proof (wf_lookup_len _ _ _ Hwf Hpd) as Hlpd.
  pose proof (wf_lookup_len _ _ _ Hwf Hcb) as Hlcb. simpl in Hlpd, Hlcb.
  split; [|split].
  - repeat apply wf_set_col; try done; simpl;
      rewrite ?length_fmap, ?length_zip, ?length_fmap; lia.
  - extends_set_col.
  - eexists. split; [lookup_set_col|].
    apply Forall_fmap_all. intros. apply astype_int_01.
Qed.

End StagesWith.

Section Stages.

Variable sqrtQ : Q → Q.
Variable tz_localize : Timestamp → string → Result Timestamp.

Lemma add_time_features_frame df out :
  wf_frame df →
  add_time_features tz_localize df = OK out →
  wf_frame out ∧ extends ["local_hour"; "dow"] df out.
Proof.
  intros Hwf Hrun. unfold add_time_features in Hrun.
  inv_bind Hrun. rename v into ts, E into Hts. apply get_time_OK in Hts.
  inv_bind Hrun. rename v into tz, E into Htz. apply get_str_OK in Htz.
  inv_bind Hrun. rename v into lh, E into Hlh. apply traverse_length in Hlh.
  inv_bind Hrun. rename v into pd, E into Hpd. apply get_date_OK in Hpd.
  strip_inserts Hpd.
  injection Hrun as <-.
  pose proof (wf_lookup_len _ _ _ Hwf Hts) as H1.
  pose proof (wf_lookup_len _ _ _ Hwf Htz) as H2.
  pose proof (wf_lookup_len _ _ _ Hwf Hpd) as H3. simpl in H1, H2, H3.
  split.
  - apply wf_set_col; [apply wf_set_col; [done|]|]; simpl.
    + rewrite Hlh, length_zip. lia.
    + by rewrite length_fmap.
  - extends_set_col.
Qed.

Lemma compute_amount_stats_inv df out :
  compute_amount_stats sqrtQ df = OK out →
  ∃ s amount abs_amount account,
    columns df !! "amount" = Some s ∧
    as_float "amount" s = OK amount ∧
    series_abs "amount" s = OK abs_amount ∧
    columns df !! "account" = Some (SStr account) ∧
    columns df !! "avg_abs_amount" = None ∧
    columns df !! "std_abs_amount" = None.
Proof.
  intros Hrun.
  destruct (compute_amount_stats_with_inv _ _ _ Hrun)
    as (s & abs_amount & account & Hs & Habs & Hacc & Ha & Hsd).
  destruct (series_abs_of_float _ _ _ Habs) as [amount Ham].
  eauto 10.
Qed.

Lemma compute_amount_stats_frame df out :
  wf_frame df →
  compute_amount_stats sqrtQ df = OK out →
  wf_frame out ∧
  extends ["abs_amount"; "avg_abs_amount"; "std_abs_amount"; "amount_z";
           "amount_outlier_flag"; "round_dollar_flag"] df out ∧
  is_flag_col out "amount_outlier_flag" ∧
  is_flag_col out "round_dollar_flag".
Proof. apply compute_amount_stats_with_frame. Qed.

Lemma compute_user_volume_inv df out :
  compute_user_volume sqrtQ df = OK out →
  ∃ posting_date created_by entry_id,
    columns df !! "posting_date" = Some (SDate posting_date) ∧
    columns df !! "created_by" = Some (SStr created_by) ∧
    columns df !! "entry_id" = Some (SStr entry_id) ∧
    columns df !! "entry_volume_z" = None.
Proof. apply compute_user_volume_with_inv. Qed.

Lemma compute_user_volume_frame df out :
  wf_frame df →
  compute_user_volume sqrtQ df = OK out →
  wf_frame out ∧
  extends ["month_start"; "entry_volume_z"; "user_volume_outlier_flag"] df out ∧
  is_flag_col out "user_volume_outlier_flag".
Proof. apply compute_user_volume_with_frame. Qed.

Lemma compute_pair_rarity_inv df out :
  compute_pair_rarity df = OK out →
  ∃ account offset_account,
    columns df !! "account" = Some (SStr account) ∧
    columns df !! "offset_account" = Some (SStr offset_account) ∧
    columns df !! "pair_count" = None.
Proof.
  intros Hrun. unfold compute_pair_rarity in Hrun.
  inv_bind Hrun. rename v into acc, E into Hacc. apply get_str_OK in Hacc.
  inv_bind Hrun. rename v into off, E into Hoff. apply get_str_OK in Hoff.
  inv_bind Hrun. rename E into Hpc. apply join_check_OK in Hpc.
  eauto 10.
Qed.

Lemma compute_pair_rarity_frame df out :
  wf_frame df →
  compute_pair_rarity df = OK out →
  wf_frame out ∧
  extends ["pair_count"; "rare_pair_flag"] df out ∧
  is_flag_col out "rare_pair_flag".
Proof.
  intros Hwf Hrun.
  destruct (compute_pair_rarity_inv _ _ Hrun) as (acc & off & Hacc & Hoff & Hpc).
  destruct (compute_pair_rarity_spec df acc off Hwf Hacc Hoff Hpc)
    as (flags & Hspec & Hlen & Hflags).
  rewrite Hspec in Hrun. injection Hrun as <-.
  pose proof (wf_lookup_len _ _ _ Hwf Hacc) as Hla.
  pose proof (wf_lookup_len _ _ _ Hwf Hoff) as Hlo. simpl in Hla, Hlo.
  split; [|split].
  - repeat apply wf_set_col; try done; simpl.
    rewrite length_fmap, length_zip. lia.
  - extends_set_col.
  - exists flags. split; [lookup_set_col|].
    apply Forall_lookup. intros i f Hf.
    destruct (lookup_lt_is_Some_2 acc i) as [a Ha].
    { rewrite Hla, <- Hlen. by eapply lookup_lt_Some. }
    rewrite (Hflags i a Ha) in Hf.
    destruct (_ !! i) as [c|]; [|done]. injection Hf as <-.
    apply rare_flag_01.
Qed.

Lemma compute_rule_flags_frame df out :
  wf_frame df →
  compute_rule_flags df = OK out →
  wf_frame out ∧
  extends ["after_hours_flag"; "weekend_flag"; "period_close_flag";
           "approval_pending_flag"; "keyword_flag"] df out ∧
  is_flag_col out "after_hours_flag" ∧
  is_flag_col out "weekend_flag" ∧
  is_flag_col out "period_close_flag" ∧
  is_flag_col out "approval_pending_flag" ∧
  is_flag_col out "keyword_flag".
Proof.
  intros Hwf Hrun. unfold compute_rule_flags in Hrun.
  inv_bind Hrun. rename v into lh, E into Hlh. apply get_int_OK in Hlh.
  inv_bind Hrun. rename v into en, E into Hen. apply get_str_OK in Hen.
  inv_bind Hrun. rename v into dow, E into Hdow. apply get_int_OK in Hdow.
  inv_bind Hrun. rename v into pd, E into Hpd. apply get_date_OK in Hpd.
  inv_bind Hrun. rename v into ap, E into Hap. apply get_str_OK in Hap.
  inv_bind Hrun. rename v into de, E into Hde. apply get_str_OK in Hde.
  injection Hrun as <-.
  strip_inserts Hdow. strip_inserts Hpd. strip_inserts Hap. strip_inserts Hde.
  pose proof (wf_lookup_len _ _ _ Hwf Hlh) as H1.
  pose proof (wf_lookup_len _ _ _ Hwf Hen) as H2.
  pose proof (wf_lookup_len _ _ _ Hwf Hdow) as H3.
  pose proof (wf_lookup_len _ _ _ Hwf Hpd) as H4.
  pose proof (wf_lookup_len _ _ _ Hwf Hap) as H5.
  pose proof (wf_lookup_len _ _ _ Hwf Hde) as H6.
  simpl in H1, H2, H3, H4, H5, H6.
  split; [|split; [|repeat split]].
  - repeat apply wf_set_col; try done; simpl;
      rewrite ?length_fmap, ?length_zip_with; lia.
  - extends_set_col.
  - eexists. split; [lookup_set_col|].
    apply Forall_zip_with. intros. apply astype_int_01.
  - eexists. split; [lookup_set_col|].
    apply Forall_zip_with. intros. apply astype_int_01.
  - eexists. split; [lookup_set_col|].
    apply Forall_fmap_all. intros. apply astype_int_01.
  - eexists. split; [lookup_set_col|].
    apply Forall_fmap_all. intros. apply astype_int_01.
  - eexists. split; [lookup_set_col|].
    apply Forall_fmap_all. intros. apply astype_int_01.
Qed.

End Stages.

(** ** Loading *)

Lemma read_csv_OK tbl parse_dates df :
  read_csv tbl parse_dates = OK df ↔
  df = tbl ∧ ∀ c, c ∈ parse_dates → c ∈ dom (columns tbl).
Proof.
  unfold read_csv.
  destruct (filter _ parse_dates) as [|c0 l] eqn:E.
  - split; [|by intros [-> _]]. intros [= <-]. split; [done|].
    intros c Hc. destruct (decide (c ∈ dom (columns tbl))) as [|Hn]; [done|].
    assert (c ∈ filter (λ c, c ∉ dom (columns tbl)) parse_dates) as Hin
      by by apply list_elem_of_filter.
    rewrite E in Hin. by apply elem_of_nil in Hin.
  - split; [done|]. intros [_ Hall].
    assert (c0 ∈ filter (λ c, c ∉ dom (columns tbl)) parse_dates) as Hin
      by (rewrite E; left).
    apply list_elem_of_filter in Hin as [Hn Hin]. destruct Hn. by apply Hall.
Qed.

Lemma difference_empty_subseteq (X Y : gset string) : X ∖ Y = ∅ ↔ X ⊆ Y.
Proof.
  split.
  - intros HE c Hc. destruct (decide (c ∈ Y)) as [|Hn]; [done|].
    assert (c ∈ X ∖ Y) as Hin by (apply elem_of_difference; done).
    rewrite HE in Hin. by apply not_elem_of_empty in Hin.
  - intros Hsub. apply set_eq. intros c. rewrite elem_of_difference.
    split; [|by intros ?%not_elem_of_empty]. intros [Hc Hn]. destruct Hn. by apply Hsub.
Qed.

Lemma parse_dates_expected c :
  c ∈ ["posting_date"; "posting_timestamp"] → c ∈ expected_cols.
Proof.
  intros Hc. unfold expected_cols. apply elem_of_list_to_set.
  repeat (apply elem_of_cons in Hc as [->|Hc]);
    [| |by apply elem_of_nil in Hc]; repeat (first [left | right]).
Qed.

Lemma load_data_OK tbl df :
  load_data tbl = OK df ↔ df = tbl ∧ expected_cols ⊆ dom (columns tbl).
Proof.
  unfold load_data. split.
  - intros H. inv_bind H. apply read_csv_OK in E as [-> _].
    case_decide as Hm; [|done]. injection H as <-. split; [done|].
    by apply difference_empty_subseteq.
  - intros [-> Hsub].
    rewrite (bind_OK _ _ tbl).
    + rewrite decide_True; [done|]. by apply difference_empty_subseteq.
    + apply read_csv_OK. split; [done|].
      intros c Hc. by apply Hsub, parse_dates_expected.
Qed.

(** With both date columns in the file, a missing column is reported with
    every other missing column. *)
Lemma load_data_missing tbl :
  "posting_date" ∈ dom (columns tbl) →
  "posting_timestamp" ∈ dom (columns tbl) →
  expected_cols ⊈ dom (columns tbl) →
  load_data tbl = Err (MissingColumns (expected_cols ∖ dom (columns tbl))).
Proof.
  intros Hd Ht Hsub. unfold load_data.
  rewrite (bind_OK _ _ tbl).
  - rewrite decide_False; [done|]. by rewrite difference_empty_subseteq.
  - apply read_csv_OK. split; [done|].
    intros c Hc. repeat (apply elem_of_cons in Hc as [->|Hc]); try done.
    by apply elem_of_nil in Hc.
Qed.

(** ** The whole run *)

Lemma Forall2_choice {A B : Type} (R : A → B → Prop) (l : list A) :
  (∀ x, x ∈ l → ∃ y, R x y) → ∃ ys, Forall2 R l ys.
Proof.
  induction l as [|x l IH]; intros H.
  - exists []. constructor.
  - destruct (H x) as [y Hy]; [left|].
    destruct IH as [ys Hys]; [intros z Hz; apply H; by right|].
    exists (y :: ys). by constructor.
Qed.

Section Run.

Variable sqrtQ : Q → Q.
Variable tz_localize : Timestamp → string → Result Timestamp.

(** The frame a successful run returns: the input, the eighteen columns
    the stages derive, nine of them flags, and the score computed from
    the flags. *)
Lemma run_spec tbl out :
  wf_frame tbl →
  run sqrtQ tz_localize tbl = OK out →
  ∃ df score,
    out = set_col df "risk_score" (SFloat score) ∧
    expected_cols ⊆ dom (columns tbl) ∧
    wf_frame df ∧
    extends derived_cols tbl df ∧
    (∀ fw, fw ∈ weights → is_flag_col df fw.1) ∧
    cells_are score (nrows df) (λ i, clip_int 0 100 (total_sum df weights i)).
Proof.
  intros Hwf Hrun. unfold run in Hrun.
  inv_bind Hrun. rename v into df0, E into H0.
  apply load_data_OK in H0 as [-> Hsub].
  inv_bind Hrun. rename v into df1, E into H1.
  inv_bind Hrun. rename v into df2, E into H2.
  inv_bind Hrun. rename v into df3, E into H3.
  inv_bind Hrun. rename v into df4, E into H4.
  inv_bind Hrun. rename v into df5, E into H5.
  destruct (add_time_features_frame _ _ _ Hwf H1) as (Hwf1 & Hx1).
  destruct (compute_amount_stats_frame _ _ _ Hwf1 H2) as (Hwf2 & Hx2 & Hf21 & Hf22).
  destruct (compute_user_volume_frame _ _ _ Hwf2 H3) as (Hwf3 & Hx3 & Hf3).
  destruct (compute_pair_rarity_frame _ _ Hwf3 H4) as (Hwf4 & Hx4 & Hf4).
  destruct (compute_rule_flags_frame _ _ Hwf4 H5)
    as (Hwf5 & Hx5 & Hf51 & Hf52 & Hf53 & Hf54 & Hf55).
  assert (∀ fw, fw ∈ weights → is_flag_col df5 fw.1) as Hflags.
  { intros fw Hfw. unfold weights in Hfw.
    repeat (apply elem_of_cons in Hfw as [->|Hfw]); simpl; try done.
    - eapply is_flag_col_extends; [exact Hx5|not_in_list|].
      eapply is_flag_col_extends; [exact Hx4|not_in_list|].
      eapply is_flag_col_extends; [exact Hx3|not_in_list|]. done.
    - eapply is_flag_col_extends; [exact Hx5|not_in_list|]. done.
    - eapply is_flag_col_extends; [exact Hx5|not_in_list|].
      eapply is_flag_col_extends; [exact Hx4|not_in_list|].
      eapply is_flag_col_extends; [exact Hx3|not_in_list|]. done.
    - eapply is_flag_col_extends; [exact Hx5|not_in_list|].
      eapply is_flag_col_extends; [exact Hx4|not_in_list|]. done.
    - by apply elem_of_nil in Hfw. }
  destruct (compute_risk_score_spec df5) as (score & Hscore & Hcells).
  { intros fw s Hfw Hs. destruct (Hflags fw Hfw) as (xs & Hxs & H01).
    exists xs. split; [congruence|]. split; [|done].
    apply (wf_lookup_len _ _ _ Hwf5 Hxs). }
  rewrite Hscore in Hrun. injection Hrun as <-.
  exists df5, score. split; [done|]. split; [done|]. split; [done|].
  split; [|done].
  pose proof (extends_trans _ _ _ _ _ Hx1
               (extends_trans _ _ _ _ _ Hx2
                 (extends_trans _ _ _ _ _ Hx3
                   (extends_trans _ _ _ _ _ Hx4 Hx5)))) as Hx.
  exact Hx.
Qed.

End Run.

Lemma weights_not_risk_score fw : fw ∈ weights → fw.1 ≠ "risk_score".
Proof.
  unfold weights. intros Hfw.
  repeat (apply elem_of_cons in Hfw as [->|Hfw]); try done.
  by apply elem_of_nil in Hfw.
Qed.

Lemma expected_not_derived c : c ∈ expected_cols → c ∉ "risk_score" :: derived_cols.
Proof.
  unfold expected_cols. intros Hc%elem_of_list_to_set.
  repeat (apply elem_of_cons in Hc as [->|Hc]); [..|by apply elem_of_nil in Hc];
    unfold derived_cols; intros Hin;
    repeat (apply elem_of_cons in Hin as [?|Hin]; [done|]);
    by apply elem_of_nil in Hin.
Qed.

(** Every weight is a multiple of 5, and so is every weighted sum. *)
Lemma total_sum_multiple_of_5 df i :
  total_sum df weights i =
  5 * total_sum df
        [ ("round_dollar_flag", 2); ("after_hours_flag", 3); ("weekend_flag", 2);
          ("period_close_flag", 2); ("approval_pending_flag", 2); ("keyword_flag", 1);
          ("rare_pair_flag", 3); ("amount_outlier_flag", 4);
          ("user_volume_outlier_flag", 3) ] i.
Proof. unfold total_sum, weights. simpl. lia. Qed.

Lemma clip_int_multiple_of_5 t : clip_int 0 100 (5 * t) = 5 * clip_int 0 20 t.
Proof. unfold clip_int. lia. Qed.

(** C1.  After a run, [risk_score] is on every row the sum of the nine flags
    of the row, each 0 or 1, weighted by the table [weights] and clipped to
    [0, 100]. *)
Theorem risk_score_is_clipped_weighted_sum
    (sqrtQ : Q → Q) (tz_localize : Timestamp → string → Result Timestamp) tbl out :
  wf_frame tbl →
  run sqrtQ tz_localize tbl = OK out →
  weights =
    [ ("round_dollar_flag", 10); ("after_hours_flag", 15); ("weekend_flag", 10);
      ("period_close_flag", 10); ("approval_pending_flag", 10); ("keyword_flag", 5);
      ("rare_pair_flag", 15); ("amount_outlier_flag", 20);
      ("user_volume_outlier_flag", 15) ] ∧
  ∃ score,
    columns out !! "risk_score" = Some (SFloat score) ∧
    length score = nrows out ∧
    ∀ i, (i < nrows out)%nat →
      ∃ fs q,
        Forall2 (λ fw f, ∃ xs, columns out !! fw.1 = Some (SInt xs) ∧
                               xs !! i = Some f ∧ (f = 0 ∨ f = 1)) weights fs ∧
        score !! i = Some (Some q) ∧
        (q == inject_Z (clip_int 0 100 (weighted_sum fs weights)))%Q ∧
        (0 <= q)%Q ∧ (q <= 100)%Q.
Proof.
  intros Hwf Hrun. split; [done|].
  destruct (run_spec _ _ _ _ Hwf Hrun)
    as (df & score & -> & _ & Hwfd & _ & Hflags & Hlen & Hcells).
  exists score. split; [lookup_set_col|]. split; [done|]. simpl.
  intros i Hi. destruct (Hcells i Hi) as (q & Hq & Hqe).
  destruct (Forall2_choice
              (λ fw f, ∃ xs, columns df !! fw.1 = Some (SInt xs) ∧
                             fw.1 ≠ "risk_score" ∧
                             xs !! i = Some f ∧ (f = 0 ∨ f = 1)) weights)
    as [fs Hfs].
  { intros fw Hfw. destruct (Hflags fw Hfw) as (xs & Hxs & H01).
    destruct (lookup_lt_is_Some_2 xs i) as [f Hf].
    { pose proof (wf_lookup_len _ _ _ Hwfd Hxs) as Hl. simpl in Hl. lia. }
    exists f, xs. split; [done|]. split; [by apply weights_not_risk_score|].
    split; [done|]. by eapply (proj1 (Forall_lookup _ _) H01). }
  assert (total_sum df weights i = weighted_sum fs weights) as Hsum.
  { apply total_sum_weighted. eapply Forall2_impl; [exact Hfs|].
    intros fw f (xs & ? & _ & ? & _). eauto. }
  rewrite Hsum in Hqe.
  exists fs, q. split; [|split; [done|split; [done|]]].
  - eapply Forall2_impl; [exact Hfs|].
    intros fw f (xs & Hxs & Hne & Hf & H01). exists xs.
    by rewrite lookup_insert_ne.
  - pose proof (clip_int_bounds (weighted_sum fs weights)) as [Hlo Hhi].
    rewrite Hqe. change 0%Q with (inject_Z 0). change 100%Q with (inject_Z 100).
    by rewrite <- !Zle_Qle.
Qed.

(** C9.  After a run, every [risk_score] is one of 0, 5, 10, ..., 100. *)
Theorem risk_score_multiple_of_five
    (sqrtQ : Q → Q) (tz_localize : Timestamp → string → Result Timestamp) tbl out :
  wf_frame tbl →
  run sqrtQ tz_localize tbl = OK out →
  Forall (λ fw, (5 | fw.2)) weights ∧
  ∃ score,
    columns out !! "risk_score" = Some (SFloat score) ∧
    length score = nrows out ∧
    ∀ i, (i < nrows out)%nat →
      ∃ q k, score !! i = Some (Some q) ∧ 0 ≤ k ≤ 20 ∧ (q == inject_Z (5 * k))%Q.
Proof.
  intros Hwf Hrun. split.
  { unfold weights. repeat constructor; simpl;
      [by exists 2|by exists 3|by exists 2|by exists 2|by exists 2|
       by exists 1|by exists 3|by exists 4|by exists 3]. }
  destruct (run_spec _ _ _ _ Hwf Hrun)
    as (df & score & -> & _ & _ & _ & _ & Hlen & Hcells).
  exists score. split; [lookup_set_col|]. split; [done|]. simpl.
  intros i Hi. destruct (Hcells i Hi) as (q & Hq & Hqe).
  rewrite total_sum_multiple_of_5, clip_int_multiple_of_5 in Hqe.
  eexists q, _. split; [done|]. split; [|exact Hqe].
  unfold clip_int. lia.
Qed.

(** C8.  A run returns as many rows as it was given, with every source
    column, [entry_id] and [line_num] among them, cell for cell as in the
    input: row [i] of the output is row [i] of the input.  Each stage on its
    own keeps the row count too. *)
Theorem run_preserves_rows
    (sqrtQ : Q → Q) (tz_localize : Timestamp → string → Result Timestamp) tbl out :
  wf_frame tbl →
  run sqrtQ tz_localize tbl = OK out →
  nrows out = nrows tbl ∧
  (∀ c, c ∈ expected_cols →
     ∃ s, columns tbl !! c = Some s ∧ columns out !! c = Some s ∧
          series_len s = nrows tbl) ∧
  "entry_id" ∈ expected_cols ∧ "line_num" ∈ expected_cols ∧
  ∀ stage df df',
    stage ∈ stages sqrtQ tz_localize →
    wf_frame df → stage df = OK df' → nrows df' = nrows df.
Proof.
  intros Hwf Hrun.
  destruct (run_spec _ _ _ _ Hwf Hrun)
    as (df & score & -> & Hsub & _ & [Hn Hcols] & _ & _ & _).
  split; [done|]. split; [|split; [|split]].
  - intros c Hc. pose proof (expected_not_derived c Hc) as Hnd.
    apply not_elem_of_cons in Hnd as [Hne Hnd].
    apply Hsub, elem_of_dom in Hc as [s Hs].
    exists s. split; [done|]. split.
    + simpl. rewrite lookup_insert_ne by done. by rewrite Hcols.
    + by apply Hwf in Hs.
  - unfold expected_cols. apply elem_of_list_to_set. in_list.
  - unfold expected_cols. apply elem_of_list_to_set. in_list.
  - intros stage df0 df' Hst Hwf0 Hrun0. unfold stages in Hst.
    repeat (apply elem_of_cons in Hst as [->|Hst]).
    + by destruct (add_time_features_frame _ _ _ Hwf0 Hrun0) as (_ & [? _]).
    + by destruct (compute_amount_stats_frame _ _ _ Hwf0 Hrun0) as (_ & [? _] & _).
    + by destruct (compute_user_volume_frame _ _ _ Hwf0 Hrun0) as (_ & [? _] & _).
    + by destruct (compute_pair_rarity_frame _ _ Hwf0 Hrun0) as (_ & [? _] & _).
    + by destruct (compute_rule_flags_frame _ _ Hwf0 Hrun0) as (_ & [? _] & _).
    + unfold compute_risk_score in Hrun0. inv_bind Hrun0. by injection Hrun0 as <-.
    + by apply elem_of_nil in Hst.
Qed.

(** C6.  The aggregator returns a frame whichever of the nine flag columns
    the frame has, each of those it has being a column of zeros and ones:
    the score of a row is the clipped sum over the flags that are there, and
    a flag that is not there adds 0. *)
Theorem risk_score_tolerates_missing_flags df :
  (∀ fw s, fw ∈ weights → columns df !! fw.1 = Some s →
     ∃ xs, s = SInt xs ∧ length xs = nrows df ∧
           Forall (λ f, f = 0 ∨ f = 1) xs) →
  ∃ out score,
    compute_risk_score df = OK out ∧
    columns out !! "risk_score" = Some (SFloat score) ∧
    length score = nrows df ∧
    ∀ i, (i < nrows df)%nat →
      (∀ fw, fw ∈ weights → columns df !! fw.1 = None →
         flag_or_zero df fw.1 i * fw.2 = 0) ∧
      ∃ q, score !! i = Some (Some q) ∧
           (q == inject_Z (clip_int 0 100 (total_sum df (present df weights) i)))%Q.
Proof.
  intros Hcols.
  destruct (compute_risk_score_spec df Hcols) as (score & Hrun & Hlen & Hcells).
  eexists _, score. split; [exact Hrun|]. split; [lookup_set_col|]. split; [done|].
  intros i Hi. split.
  - intros fw _ Hnone. unfold flag_or_zero. by rewrite Hnone.
  - destruct (Hcells i Hi) as (q & Hq & Hqe). exists q. split; [done|].
    by rewrite <- total_sum_present.
Qed.

(** C7.  A file that lacks [posting_date] and [account] is refused, but by
    [read_csv], with an error that names [posting_date] alone: the check of
    line 33 that would have named both columns is never reached.  The run
    stops with the same error before any stage. *)
Theorem load_data_names_only_the_date_column
    (sqrtQ : Q → Q) (tz_localize : Timestamp → string → Result Timestamp) :
  expected_cols ∖ dom (columns Sample.ledger_without_date_and_account)
    = {["account"; "posting_date"]} ∧
  load_data Sample.ledger_without_date_and_account
    = Err (MissingParseDates ["posting_date"]) ∧
  run sqrtQ tz_localize Sample.ledger_without_date_and_account
    = Err (MissingParseDates ["posting_date"]).
Proof.
  assert (load_data Sample.ledger_without_date_and_account
          = Err (MissingParseDates ["posting_date"])) as Hload
    by (vm_compute; reflexivity).
  split; [|split; [done|]].
  - by vm_compute.
  - unfold run. by rewrite Hload.
Qed.

(** * The sample ledger, stage by stage *)

Example dayofweek_monday : dayofweek (mkDate 2024 1 15) = 0.
Proof. reflexivity. Qed.

Example dayofweek_epoch_thursday : dayofweek (mkDate 1970 1 1) = 3.
Proof. reflexivity. Qed.

Example percentile_interpolates : percentile [3; 1; 3; 3] 25 = Some (250 # 100).
Proof. reflexivity. Qed.

Example percentile_of_one_value : percentile [7] 25 = Some (700 # 100).
Proof. reflexivity. Qed.

Example percentile_of_nothing : percentile [] 25 = None.
Proof. reflexivity. Qed.

Example ledger_loads : load_data Sample.ledger = OK Sample.ledger.
Proof. by vm_compute. Qed.

(** A file without [offset_account] is refused, and the error names it. *)
Example ledger_without_offset_account_refused :
  load_data Sample.ledger_without_offset_account
  = Err (MissingColumns {["offset_account"]}).
Proof. by vm_compute. Qed.

Example ledger_local_hour :
  columns Sample.timed !! "local_hour" = Some (SInt [10; 10; 22; 8; 12]).
Proof. by vm_compute. Qed.

Example ledger_round_dollar :
  columns Sample.with_amounts !! "round_dollar_flag" = Some (SInt [1; 1; 0; 0; 1]).
Proof. by vm_compute. Qed.

(** Account 2000 has a single row: its standard deviation is NaN and its
    z-score 0. *)
Example ledger_singleton_std :
  (λ s, match s with SFloat xs => xs !! 1%nat | _ => None end)
    <$> columns Sample.with_amounts !! "std_abs_amount" = Some (Some None) ∧
  (λ s, match s with SFloat xs => xs !! 1%nat | _ => None end)
    <$> columns Sample.with_amounts !! "amount_z" = Some (Some (Some 0%Q)).
Proof. by vm_compute. Qed.

Example ledger_pair_count :
  columns Sample.with_pairs !! "pair_count" = Some (SInt [3; 1; 3; 1; 3]) ∧
  columns Sample.with_pairs !! "rare_pair_flag" = Some (SInt [0; 1; 0; 1; 0]).
Proof. by vm_compute. Qed.

Example ledger_rule_flags :
  columns Sample.with_rules !! "after_hours_flag" = Some (SInt [0; 0; 1; 1; 0]) ∧
  columns Sample.with_rules !! "weekend_flag" = Some (SInt [0; 0; 1; 1; 0]) ∧
  columns Sample.with_rules !! "period_close_flag" = Some (SInt [0; 0; 1; 0; 1]) ∧
  columns Sample.with_rules !! "approval_pending_flag" = Some (SInt [0; 0; 1; 0; 0]) ∧
  columns Sample.with_rules !! "keyword_flag" = Some (SInt [0; 0; 1; 1; 0]).
Proof. by vm_compute. Qed.

Example ledger_risk_score :
  columns Sample.scored !! "risk_score"
  = Some (SFloat [Some (10 # 1); Some (25 # 1); Some (50 # 1); Some (45 # 1);
                  Some (20 # 1)]%Q).
Proof. by vm_compute. Qed.

(** With three flag columns only: 5 + 20, nothing, 5 + 10 + 20. *)
Example three_flags_score :
  (λ df, columns df !! "risk_score") <$> compute_risk_score Sample.three_flags
  = OK (Some (SFloat [Some (25 # 1); Some (0 # 1); Some (35 # 1)]%Q)).
Proof. by vm_compute. Qed.

(** Seven months with 4, 4, 5, 5, 5, 5 and 7 entries.  The counts reach the
    aggregations month after month; in [float64] their standard deviation
    rounds to 1 + 2^-52, the z-score of July to 2 - 2^-51, and July is no
    outlier.  In the rationals the standard deviation is 1, the z-score 2,
    and July is one. *)
Example seven_months_counts :
  user_monthly_counts (replicate 35 "erin")
    (month_floor <$> Cases.seven_months_dates) Cases.seven_months_entries "erin"
  = (λ z, Some (inject_Z z)) <$> [4; 4; 5; 5; 5; 5; 7].
Proof. by vm_compute. Qed.

Example seven_months_in_float64 :
  Binary64.std ((λ z, Some (inject_Z z)) <$> [4; 4; 5; 5; 5; 5; 7])
  = Some (4503599627370497 # 4503599627370496) ∧
  Cases.float_cell (compute_user_volume_with Binary64.ops Cases.seven_months)
    "entry_volume_z" 0
  = Some (Some (4503599627370495 # 2251799813685248)) ∧
  Cases.int_cell (compute_user_volume_with Binary64.ops Cases.seven_months)
    "user_volume_outlier_flag" 0
  = Some 0.
Proof. by vm_compute. Qed.

Example seven_months_in_the_rationals :
  ∃ q,
    Cases.float_cell (compute_user_volume Sample.sqrt_fixed Cases.seven_months)
      "entry_volume_z" 0 = Some (Some q) ∧
    (q == 2)%Q ∧
    Cases.int_cell (compute_user_volume Sample.sqrt_fixed Cases.seven_months)
      "user_volume_outlier_flag" 0 = Some 1.
Proof. eexists. split; [by vm_compute|]. split; by vm_compute. Qed.

(** An unknown time zone stops the run. *)
Example unknown_zone_stops_the_run :
  run Sample.sqrt_fixed Sample.tz_table
      (set_col Sample.ledger "time_zone"
         (SStr ["UTC"; "UTC"; "Mars/Olympus"; "UTC"; "UTC"]))
  = Err (TimeZoneError "Mars/Olympus").
Proof. by vm_compute. Qed.

(** * The properties on the sample ledger *)

Lemma sqrt_fixed_zero v : (v == 0)%Q → (Sample.sqrt_fixed v == 0)%Q.
Proof.
  intros Hv. unfold Sample.sqrt_fixed.
  assert (Qnum v = 0) as ->.
  { unfold Qeq in Hv. simpl in Hv. lia. }
  reflexivity.
Qed.

Lemma ledger_wf : wf_frame Sample.ledger.
Proof. apply (bool_decide_unpack (wf_frame Sample.ledger)). by vm_compute. Qed.


Lemma with_amounts_wf : wf_frame Sample.with_amounts.
Proof. apply (bool_decide_unpack (wf_frame Sample.with_amounts)). by vm_compute. Qed.

Lemma with_volume_wf : wf_frame Sample.with_volume.
Proof. apply (bool_decide_unpack (wf_frame Sample.with_volume)). by vm_compute. Qed.

Lemma ledger_run : run Sample.sqrt_fixed Sample.tz_table Sample.ledger = OK Sample.scored.
Proof. by vm_compute. Qed.

Lemma risk_score_is_clipped_weighted_sum_witness :
  wf_frame Sample.ledger ∧
  run Sample.sqrt_fixed Sample.tz_table Sample.ledger = OK Sample.scored ∧
  ∃ score,
    columns Sample.scored !! "risk_score" = Some (SFloat score) ∧
    length score = nrows Sample.scored ∧
    ∀ i, (i < nrows Sample.scored)%nat →
      ∃ fs q,
        Forall2 (λ fw f, ∃ xs, columns Sample.scored !! fw.1 = Some (SInt xs) ∧
                               xs !! i = Some f ∧ (f = 0 ∨ f = 1)) weights fs ∧
        score !! i = Some (Some q) ∧
        (q == inject_Z (clip_int 0 100 (weighted_sum fs weights)))%Q ∧
        (0 <= q)%Q ∧ (q <= 100)%Q.
Proof.
  split; [exact ledger_wf|]. split; [exact ledger_run|].
  exact (proj2 (risk_score_is_clipped_weighted_sum
                  Sample.sqrt_fixed Sample.tz_table Sample.ledger Sample.scored
                  ledger_wf ledger_run)).
Defined.

Lemma risk_score_multiple_of_five_witness :
  wf_frame Sample.ledger ∧
  run Sample.sqrt_fixed Sample.tz_table Sample.ledger = OK Sample.scored ∧
  ∃ score,
    columns Sample.scored !! "risk_score" = Some (SFloat score) ∧
    length score = nrows Sample.scored ∧
    ∀ i, (i < nrows Sample.scored)%nat →
      ∃ q k, score !! i = Some (Some q) ∧ 0 ≤ k ≤ 20 ∧ (q == inject_Z (5 * k))%Q.
Proof.
  split; [exact ledger_wf|]. split; [exact ledger_run|].
  exact (proj2 (risk_score_multiple_of_five
                  Sample.sqrt_fixed Sample.tz_table Sample.ledger Sample.scored
                  ledger_wf ledger_run)).
Defined.

Lemma run_preserves_rows_witness :
  wf_frame Sample.ledger ∧
  run Sample.sqrt_fixed Sample.tz_table Sample.ledger = OK Sample.scored ∧
  nrows Sample.scored = nrows Sample.ledger ∧
  ∀ c, c ∈ expected_cols →
    ∃ s, columns Sample.ledger !! c = Some s ∧ columns Sample.scored !! c = Some s ∧
         series_len s = nrows Sample.ledger.
Proof.
  split; [exact ledger_wf|]. split; [exact ledger_run|].
  destruct (run_preserves_rows Sample.sqrt_fixed Sample.tz_table
              Sample.ledger Sample.scored ledger_wf ledger_run) as (Hn & Hc & _).
  exact (conj Hn Hc).
Defined.


Lemma singleton_pair_flagged_witness :
  ∃ out pair_count flags,
    compute_pair_rarity Sample.with_volume = OK out ∧
    columns out !! "pair_count" = Some (SInt pair_count) ∧
    columns out !! "rare_pair_flag" = Some (SInt flags) ∧
    pair_count !! 3%nat = Some 1 ∧
    flags !! 3%nat = Some 1 ∧
    ∀ threshold, rare_flag threshold 1 = 1.
Proof.
  apply (singleton_pair_flagged Sample.with_volume
           ["1000"; "2000"; "1000"; "1000"; "1000"]
           ["2000"; "1000"; "2000"; "3000"; "2000"] 3 "1000" "3000").
  - exact with_volume_wf.
  - by vm_compute.
  - by vm_compute.
  - by vm_compute.
  - reflexivity.
  - reflexivity.
  - by vm_compute.
Defined.

Lemma rare_pair_flag_iff_account_quartile_witness :
  ∃ out pair_count flags c threshold f,
    compute_pair_rarity Sample.with_volume = OK out ∧
    columns out !! "pair_count" = Some (SInt pair_count) ∧
    columns out !! "rare_pair_flag" = Some (SInt flags) ∧
    c = pair_count_of (zip ["1000"; "2000"; "1000"; "1000"; "1000"]
                           ["2000"; "1000"; "2000"; "3000"; "2000"])
                      ("1000", "2000") ∧
    pair_count !! 0%nat = Some c ∧
    percentile (group_pair_counts
                  (group_values "1000" ["1000"; "2000"; "1000"; "1000"; "1000"]
                                ["2000"; "1000"; "2000"; "3000"; "2000"])) 25
      = Some threshold ∧
    flags !! 0%nat = Some f ∧
    (f = 0 ∨ f = 1) ∧
    (f = 1 ↔ (inject_Z c <= threshold)%Q ∨ c = 1).
Proof.
  apply (rare_pair_flag_iff_account_quartile Sample.with_volume
           ["1000"; "2000"; "1000"; "1000"; "1000"]
           ["2000"; "1000"; "2000"; "3000"; "2000"] 0 "1000" "2000").
  - exact with_volume_wf.
  - by vm_compute.
  - by vm_compute.
  - by vm_compute.
  - reflexivity.
  - reflexivity.
Defined.


Lemma seven_months_wf : wf_frame Cases.seven_months.
Proof. apply (bool_decide_unpack (wf_frame Cases.seven_months)). by vm_compute. Qed.

Lemma entry_volume_z_is_monthly_zscore_witness :
  ∃ out month_start zs flags z f,
    compute_user_volume_with Binary64.ops Cases.seven_months = OK out ∧
    columns out !! "month_start" = Some (SDate month_start) ∧
    columns out !! "entry_volume_z" = Some (SFloat zs) ∧
    columns out !! "user_volume_outlier_flag" = Some (SInt flags) ∧
    month_start = month_floor <$> Cases.seven_months_dates ∧
    month_start !! 0%nat = Some (mkDate 2024 7 1) ∧
    zs !! 0%nat = Some (Some z) ∧
    flags !! 0%nat = Some f ∧
    (let count :=
       Z.of_nat (length (remove_dups
         (group_values ("erin", mkDate 2024 7 1)
                       (zip (replicate 35 "erin") month_start)
                       Cases.seven_months_entries))) in
     let counts :=
       user_monthly_counts (replicate 35 "erin") month_start
         Cases.seven_months_entries "erin" in
     (∀ avg sd,
        agg_mean Binary64.ops counts = Some avg →
        agg_std Binary64.ops counts = Some sd →
        ¬ (sd == 0)%Q →
        z = match fl_sub Binary64.ops (inject_Z count) avg with
            | Some diff =>
                match fl_div Binary64.ops diff sd with Some q => q | None => 0%Q end
            | None => 0%Q
            end) ∧
     (agg_mean Binary64.ops counts = None → z = 0%Q) ∧
     (agg_std Binary64.ops counts = None → z = 0%Q) ∧
     (∀ sd, agg_std Binary64.ops counts = Some sd → (sd == 0)%Q → z = 0%Q)) ∧
    (∀ j d', replicate 35 "erin" !! j = Some "erin" →
       Cases.seven_months_dates !! j = Some d' →
       year d' = 2024 → month d' = 7 →
       zs !! j = Some (Some z) ∧ flags !! j = Some f) ∧
    (f = 0 ∨ f = 1) ∧
    (f = 1 ↔ (2 <= z)%Q).
Proof.
  apply (entry_volume_z_is_monthly_zscore Binary64.ops Cases.seven_months
           Cases.seven_months_dates (replicate 35 "erin")
           Cases.seven_months_entries 0 "erin" (mkDate 2024 7 3)).
  - exact seven_months_wf.
  - by vm_compute.
  - by vm_compute.
  - by vm_compute.
  - by vm_compute.
  - reflexivity.
  - reflexivity.
Defined.

Lemma risk_score_tolerates_missing_flags_witness :
  ∃ out score,
    compute_risk_score Sample.three_flags = OK out ∧
    columns out !! "risk_score" = Some (SFloat score) ∧
    length score = nrows Sample.three_flags ∧
    ∀ i, (i < nrows Sample.three_flags)%nat →
      (∀ fw, fw ∈ weights → columns Sample.three_flags !! fw.1 = None →
         flag_or_zero Sample.three_flags fw.1 i * fw.2 = 0) ∧
      ∃ q, score !! i = Some (Some q) ∧
           (q == inject_Z (clip_int 0 100
                   (total_sum Sample.three_flags
                      (present Sample.three_flags weights) i)))%Q.
Proof.
  apply (risk_score_tolerates_missing_flags Sample.three_flags).
  intros fw s Hfw. unfold weights in Hfw.
  repeat (apply elem_of_cons in Hfw as [->|Hfw]);
    [..|by apply elem_of_nil in Hfw];
    intros Hs; vm_compute in Hs; try discriminate Hs; injection Hs as <-;
    (eexists; split; [reflexivity|]; split; [reflexivity|]);
    repeat (apply Forall_cons; split; [lia|]); apply Forall_nil_2.
Defined.

(** * Further properties of the stages *)

(** ** Loading *)

(** X1.  [load_data] returns a frame exactly for the tables that have all
    sixteen required columns, and then returns the table as it is: no cell is
    looked at, and columns beyond the required ones stay in the frame. *)
Theorem load_data_accepts_exactly_complete_tables tbl df :
  size expected_cols = 16%nat ∧
  (load_data tbl = OK df ↔
   df = tbl ∧ ∀ c, c ∈ expected_cols → is_Some (columns tbl !! c)).
Proof.
  split; [by vm_compute|].
  rewrite load_data_OK. split; intros [-> Hall]; (split; [done|]).
  - intros c Hc. by apply elem_of_dom, Hall.
  - intros c Hc. by apply elem_of_dom, Hall.
Qed.

(** X2.  When the file has both date columns and lacks some other required
    column, [load_data] fails with the error of line 35, and the set in its
    message holds exactly the required columns that the file lacks. *)
Theorem load_data_reports_every_missing_column tbl :
  is_Some (columns tbl !! "posting_date") →
  is_Some (columns tbl !! "posting_timestamp") →
  (∃ c, c ∈ expected_cols ∧ columns tbl !! c = None) →
  ∃ missing,
    load_data tbl = Err (MissingColumns missing) ∧
    ∀ c, c ∈ missing ↔ c ∈ expected_cols ∧ columns tbl !! c = None.
Proof.
  intros Hd Ht (c0 & Hc0 & Hn0).
  exists (expected_cols ∖ dom (columns tbl)). split.
  - apply load_data_missing; [by apply elem_of_dom..|].
    intros Hsub. apply Hsub, elem_of_dom in Hc0 as [s Hs]. congruence.
  - intros c. rewrite elem_of_difference, not_elem_of_dom. done.
Qed.

Lemma load_data_reports_every_missing_column_witness :
  ∃ missing,
    load_data Sample.ledger_without_offset_account = Err (MissingColumns missing) ∧
    ∀ c, c ∈ missing ↔
         c ∈ expected_cols ∧ columns Sample.ledger_without_offset_account !! c = None.
Proof.
  apply (load_data_reports_every_missing_column Sample.ledger_without_offset_account).
  - vm_compute. by eexists.
  - vm_compute. by eexists.
  - exists "offset_account". split; [|by vm_compute].
    unfold expected_cols. apply elem_of_list_to_set. in_list.
Defined.

(** ** Time features *)

Lemma traverse_OK {A B : Type} (f : A → Result B) xs ys :
  traverse f xs = OK ys ↔ Forall2 (λ x y, f x = OK y) xs ys.
Proof.
  revert ys. induction xs as [|x xs IH]; intros ys; simpl.
  - split; [intros [= <-]; constructor | by intros ->%Forall2_nil_inv_l].
  - split.
    + intros H. inv_bind H. inv_bind H. injection H as <-.
      constructor; [done|]. by apply IH.
    + intros (y & ys' & Hy & Hys & ->)%Forall2_cons_inv_l.
      rewrite Hy. simpl. apply IH in Hys. by rewrite Hys.
Qed.

(** The first element on which [f] fails decides the error. *)
Lemma traverse_Err {A B : Type} (f : A → Result B) xs i x e :
  xs !! i = Some x →
  f x = Err e →
  (∀ j y, (j < i)%nat → xs !! j = Some y → ∃ z, f y = OK z) →
  traverse f xs = Err e.
Proof.
  revert i. induction xs as [|x0 xs IH]; intros i Hi He Hbefore; [done|].
  destruct i as [|i]; simpl in *.
  - injection Hi as ->. by rewrite He.
  - destruct (Hbefore 0%nat x0) as [z Hz]; [lia|done|].
    rewrite Hz. simpl. rewrite (IH i); [done..|].
    intros j y Hj Hy. apply (Hbefore (S j)); [lia|done].
Qed.

Lemma dayofweek_range d : 0 ≤ dayofweek d ≤ 6.
Proof. unfold dayofweek. pose proof (Z.mod_pos_bound (days_from_civil d + 3) 7). lia. Qed.

(** X3.  [add_time_features] returns a frame exactly when every row's
    timestamp can be localized in the row's own zone; then [local_hour] is
    the hour of the localized timestamp of the row, [dow] is the day of the
    week of the row's posting date, between 0 and 6, and nothing else in the
    frame changes. *)
Theorem add_time_features_rows
    (tz_localize : Timestamp → string → Result Timestamp)
    df posting_timestamp time_zone posting_date out :
  columns df !! "posting_timestamp" = Some (STime posting_timestamp) →
  columns df !! "time_zone" = Some (SStr time_zone) →
  columns df !! "posting_date" = Some (SDate posting_date) →
  add_time_features tz_localize df = OK out ↔
  ∃ localized,
    Forall2 (λ r t, tz_localize r.1 r.2 = OK t)
            (zip posting_timestamp time_zone) localized ∧
    Forall (λ d, 0 ≤ d ≤ 6) (dayofweek <$> posting_date) ∧
    out = set_col (set_col df "local_hour" (SInt (hour <$> localized)))
                  "dow" (SInt (dayofweek <$> posting_date)).
Proof.
  intros Hts Htz Hpd. unfold add_time_features.
  rewrite (bind_OK _ _ posting_timestamp) by by apply get_time_OK.
  rewrite (bind_OK _ _ time_zone) by by apply get_str_OK.
  split.
  - intros H. inv_bind H. rename v into lh, E into Hlh.
    rewrite (bind_OK _ _ posting_date) in H.
    2:{ apply get_date_OK. simpl. by rewrite lookup_insert_ne. }
    injection H as <-. apply traverse_OK in Hlh.
    assert (∃ localized,
              Forall2 (λ r t, tz_localize r.1 r.2 = OK t)
                      (zip posting_timestamp time_zone) localized ∧
              lh = hour <$> localized) as (localized & Hloc & ->).
    { clear Hts Htz. induction Hlh as [|r h rs hs Hr _ (l & Hl & ->)].
      - exists []. split; [constructor | done].
      - destruct (tz_localize r.1 r.2) as [t|] eqn:Et; [|done].
        injection Hr as <-. exists (t :: l). split; [by constructor | done]. }
    exists localized. split; [done|]. split; [|done].
    apply Forall_fmap_all. intros d. apply dayofweek_range.
  - intros (localized & Hloc & _ & ->).
    rewrite (bind_OK _ _ (hour <$> localized)).
    + rewrite (bind_OK _ _ posting_date); [done|].
      apply get_date_OK. simpl. by rewrite lookup_insert_ne.
    + apply traverse_OK. apply Forall2_fmap_r.
      eapply Forall2_impl; [exact Hloc|]. intros r t Hr. simpl. by rewrite Hr.
Qed.

Lemma add_time_features_rows_witness :
  add_time_features Sample.tz_table Sample.ledger = OK Sample.timed ↔
  ∃ localized,
    Forall2 (λ r t, Sample.tz_table r.1 r.2 = OK t)
      (zip [Sample.at_hour 2024 1 15 10; Sample.at_hour 2024 1 15 10;
            Sample.at_hour 2024 1 27 22; Sample.at_hour 2024 2 3 8;
            Sample.at_hour 2024 2 29 12]
           ["America/New_York"; "America/New_York"; "Europe/London";
            "Asia/Singapore"; "UTC"]) localized ∧
    Forall (λ d, 0 ≤ d ≤ 6)
      (dayofweek <$> [mkDate 2024 1 15; mkDate 2024 1 15; mkDate 2024 1 27;
                      mkDate 2024 2 3; mkDate 2024 2 29]) ∧
    Sample.timed =
      set_col (set_col Sample.ledger "local_hour" (SInt (hour <$> localized)))
        "dow" (SInt (dayofweek <$> [mkDate 2024 1 15; mkDate 2024 1 15;
                                    mkDate 2024 1 27; mkDate 2024 2 3;
                                    mkDate 2024 2 29])).
Proof.
  apply (add_time_features_rows Sample.tz_table Sample.ledger); by vm_compute.
Defined.

(** X4.  The error of the first row whose timestamp cannot be localized is
    the error of [add_time_features], and of the whole run on a complete
    table: no later row and no later stage is tried. *)
Theorem add_time_features_fails_on_first_bad_zone
    (sqrtQ : Q → Q) (tz_localize : Timestamp → string → Result Timestamp)
    df posting_timestamp time_zone i t z e :
  columns df !! "posting_timestamp" = Some (STime posting_timestamp) →
  columns df !! "time_zone" = Some (SStr time_zone) →
  posting_timestamp !! i = Some t →
  time_zone !! i = Some z →
  tz_localize t z = Err e →
  (∀ j t' z', (j < i)%nat → posting_timestamp !! j = Some t' → time_zone !! j = Some z' →
     ∃ t'', tz_localize t' z' = OK t'') →
  add_time_features tz_localize df = Err e ∧
  (load_data df = OK df → run sqrtQ tz_localize df = Err e).
Proof.
  intros Hts Htz Ht Hz He Hbefore.
  assert (add_time_features tz_localize df = Err e) as Hfail.
  { unfold add_time_features.
    rewrite (bind_OK _ _ posting_timestamp) by by apply get_time_OK.
    rewrite (bind_OK _ _ time_zone) by by apply get_str_OK.
    rewrite (traverse_Err _ _ i (t, z) e); [done| | |].
    - by rewrite lookup_zip_with, Ht; simpl; rewrite Hz.
    - simpl. by rewrite He.
    - intros j [t' z'] Hj Hy. apply lookup_zip_with_Some in Hy
        as (? & ? & [= <- <-] & Ht' & Hz').
      destruct (Hbefore j t' z' Hj Ht' Hz') as [t'' Ht'']. simpl. rewrite Ht''.
      by eexists. }
  split; [done|]. intros Hload. unfold run. rewrite Hload. simpl. by rewrite Hfail.
Qed.

Lemma add_time_features_fails_on_first_bad_zone_witness :
  add_time_features Sample.tz_table Cases.ledger_bad_zone
    = Err (TimeZoneError "Mars/Olympus") ∧
  (load_data Cases.ledger_bad_zone = OK Cases.ledger_bad_zone →
   run Sample.sqrt_fixed Sample.tz_table Cases.ledger_bad_zone
     = Err (TimeZoneError "Mars/Olympus")).
Proof.
  apply (add_time_features_fails_on_first_bad_zone
           Sample.sqrt_fixed Sample.tz_table Cases.ledger_bad_zone
           [Sample.at_hour 2024 1 15 10; Sample.at_hour 2024 1 15 10;
            Sample.at_hour 2024 1 27 22; Sample.at_hour 2024 2 3 8;
            Sample.at_hour 2024 2 29 12]
           ["UTC"; "UTC"; "Mars/Olympus"; "UTC"; "UTC"]
           2 (Sample.at_hour 2024 1 27 22) "Mars/Olympus").
  - by vm_compute.
  - by vm_compute.
  - reflexivity.
  - reflexivity.
  - by vm_compute.
  - intros [|[|j]] t' z' Hj; [| |lia]; simpl; intros [= <-] [= <-];
      by eexists.
Defined.

(** ** Rule flags *)

Lemma compute_rule_flags_inv df out :
  compute_rule_flags df = OK out →
  ∃ local_hour entity dow posting_date approval_status description,
    columns df !! "local_hour" = Some (SInt local_hour) ∧
    columns df !! "entity" = Some (SStr entity) ∧
    columns df !! "dow" = Some (SInt dow) ∧
    columns df !! "posting_date" = Some (SDate posting_date) ∧
    columns df !! "approval_status" = Some (SStr approval_status) ∧
    columns df !! "description" = Some (SStr description) ∧
    columns out !! "after_hours_flag" =
      Some (SInt (zip_with (λ h e, astype_int ((h <? start (hours_for_entity e))
                                        || (end_ (hours_for_entity e) <=? h)))
                           local_hour entity)) ∧
    columns out !! "weekend_flag" =
      Some (SInt (zip_with (λ d e, astype_int
                              (bool_decide (d ∈ weekend_days (hours_for_entity e))))
                           dow entity)) ∧
    columns out !! "period_close_flag" =
      Some (SInt ((λ d, astype_int (days_from_civil (month_floor d) + 25
                                    <=? days_from_civil d)) <$> posting_date)) ∧
    columns out !! "approval_pending_flag" =
      Some (SInt ((λ s, astype_int
                          (negb (bool_decide (lower s ∈ ["approved"; "posted"]))))
                    <$> approval_status)) ∧
    columns out !! "keyword_flag" =
      Some (SInt ((λ x, astype_int (existsb (λ k, contains k (lower x)) KEYWORDS))
                    <$> description)).
Proof.
  intros Hrun. unfold compute_rule_flags in Hrun.
  inv_bind Hrun. rename v into lh, E into Hlh. apply get_int_OK in Hlh.
  inv_bind Hrun. rename v into en, E into Hen. apply get_str_OK in Hen.
  inv_bind Hrun. rename v into dow, E into Hdow. apply get_int_OK in Hdow.
  inv_bind Hrun. rename v into pd, E into Hpd. apply get_date_OK in Hpd.
  inv_bind Hrun. rename v into ap, E into Hap. apply get_str_OK in Hap.
  inv_bind Hrun. rename v into de, E into Hde. apply get_str_OK in Hde.
  injection Hrun as <-.
  strip_inserts Hdow. strip_inserts Hpd. strip_inserts Hap. strip_inserts Hde.
  exists lh, en, dow, pd, ap, de.
  repeat (split; [first [done | lookup_set_col]|]). lookup_set_col.
Qed.

Lemma period_close_from_day_26 d :
  (days_from_civil (month_floor d) + 25 <=? days_from_civil d) = true ↔ 26 ≤ day d.
Proof.
  rewrite Z.leb_le. unfold days_from_civil, month_floor. simpl.
  destruct (month d <=? 2); lia.
Qed.

(** X5.  [period_close_flag] is 1 exactly on the rows posted on day 26 or
    later of their month, whatever the length of the month. *)
Theorem period_close_flag_from_day_26 df out posting_date i d :
  compute_rule_flags df = OK out →
  columns df !! "posting_date" = Some (SDate posting_date) →
  posting_date !! i = Some d →
  ∃ flags f,
    columns out !! "period_close_flag" = Some (SInt flags) ∧
    flags !! i = Some f ∧
    (f = 0 ∨ f = 1) ∧
    (f = 1 ↔ 26 ≤ day d).
Proof.
  intros Hrun Hpd Hd.
  destruct (compute_rule_flags_inv _ _ Hrun)
    as (lh & en & dow & pd & ap & de & _ & _ & _ & Hpd' & _ & _ & _ & _ & Hflag & _).
  assert (pd = posting_date) as -> by congruence.
  eexists _, _. split; [exact Hflag|].
  split; [by rewrite list_lookup_fmap, Hd|].
  split; [apply astype_int_01|].
  rewrite <- period_close_from_day_26.
  unfold astype_int. destruct (_ <=? _); split; done.
Qed.

Lemma period_close_flag_from_day_26_witness :
  ∃ flags f,
    columns Sample.with_rules !! "period_close_flag" = Some (SInt flags) ∧
    flags !! 2%nat = Some f ∧
    (f = 0 ∨ f = 1) ∧
    (f = 1 ↔ 26 ≤ day (mkDate 2024 1 27)).
Proof.
  apply (period_close_flag_from_day_26 Sample.with_pairs Sample.with_rules
           [mkDate 2024 1 15; mkDate 2024 1 15; mkDate 2024 1 27;
            mkDate 2024 2 3; mkDate 2024 2 29] 2 (mkDate 2024 1 27)).
  - by vm_compute.
  - by vm_compute.
  - reflexivity.
Defined.

Lemma hours_for_entity_cases e :
  hours_for_entity e =
  if decide (e = "APAC") then mkHours 9 18 [5; 6] else mkHours 8 18 [5; 6].
Proof.
  unfold hours_for_entity, entity_hours.
  destruct (decide (e = "US")) as [->|H1]; [done|].
  destruct (decide (e = "UK")) as [->|H2]; [done|].
  destruct (decide (e = "APAC")) as [->|H3]; [done|].
  by rewrite !lookup_insert_ne, lookup_empty by done.
Qed.

(** X6.  [after_hours_flag] is 1 exactly when the local hour is before the
    start hour or at or after hour 18; the start hour is 9 for entity APAC
    and 8 for every other entity, listed or not.  [weekend_flag] is 1 exactly
    on day-of-week 5 and 6, for every entity. *)
Theorem business_hours_by_entity df out local_hour entity dow i h e w :
  compute_rule_flags df = OK out →
  columns df !! "local_hour" = Some (SInt local_hour) →
  columns df !! "entity" = Some (SStr entity) →
  columns df !! "dow" = Some (SInt dow) →
  local_hour !! i = Some h →
  entity !! i = Some e →
  dow !! i = Some w →
  ∃ after_hours weekend f g,
    columns out !! "after_hours_flag" = Some (SInt after_hours) ∧
    columns out !! "weekend_flag" = Some (SInt weekend) ∧
    after_hours !! i = Some f ∧
    weekend !! i = Some g ∧
    (f = 1 ↔ h < (if decide (e = "APAC") then 9 else 8) ∨ 18 ≤ h) ∧
    (f = 0 ∨ f = 1) ∧
    (g = 1 ↔ w = 5 ∨ w = 6) ∧
    (g = 0 ∨ g = 1).
Proof.
  intros Hrun Hlh Hen Hdow Hh He Hw.
  destruct (compute_rule_flags_inv _ _ Hrun)
    as (lh & en & dw & pd & ap & de & Hlh' & Hen' & Hdow' & _ & _ & _
        & Hah & Hwe & _).
  assert (lh = local_hour) as -> by congruence.
  assert (en = entity) as -> by congruence.
  assert (dw = dow) as -> by congruence.
  eexists _, _, _, _. split; [exact Hah|]. split; [exact Hwe|].
  split; [by rewrite lookup_zip_with, Hh; simpl; rewrite He|].
  split; [by rewrite lookup_zip_with, Hw; simpl; rewrite He|].
  rewrite hours_for_entity_cases.
  split; [|split; [apply astype_int_01|split; [|apply astype_int_01]]].
  - unfold astype_int. case_decide; simpl;
      destruct (h <? _) eqn:E1; destruct (18 <=? h) eqn:E2; simpl;
      rewrite ?Z.ltb_lt, ?Z.ltb_ge, ?Z.leb_le, ?Z.leb_gt in *; split; (lia || done).
  - unfold astype_int. case_decide; simpl; case_bool_decide as Hin;
      rewrite !elem_of_cons, elem_of_nil in Hin; split; (tauto || done || lia).
Qed.

Lemma business_hours_by_entity_witness :
  ∃ after_hours weekend f g,
    columns Sample.with_rules !! "after_hours_flag" = Some (SInt after_hours) ∧
    columns Sample.with_rules !! "weekend_flag" = Some (SInt weekend) ∧
    after_hours !! 3%nat = Some f ∧
    weekend !! 3%nat = Some g ∧
    (f = 1 ↔ 8 < (if decide ("APAC" = "APAC") then 9 else 8) ∨ 18 ≤ 8) ∧
    (f = 0 ∨ f = 1) ∧
    (g = 1 ↔ 5 = 5 ∨ 5 = 6) ∧
    (g = 0 ∨ g = 1).
Proof.
  apply (business_hours_by_entity Sample.with_pairs Sample.with_rules
           [10; 10; 22; 8; 12] ["US"; "US"; "UK"; "APAC"; "US"] [0; 0; 5; 5; 3]
           3 8 "APAC" 5).
  - by vm_compute.
  - by vm_compute.
  - by vm_compute.
  - by vm_compute.
  - reflexivity.
  - reflexivity.
  - reflexivity.
Defined.

Lemma prefix_spec k x : String.prefix k x = true ↔ ∃ post, x = k +:+ post.
Proof.
  revert x. induction k as [|a k IH]; intros x.
  - split; [intros _; by exists x|]. intros _. by destruct x.
  - destruct x as [|b x]; simpl; [split; [done | by intros (? & [=])]|].
    destruct (ascii_dec a b) as [->|Hab].
    + rewrite IH. split; intros (post & Hp); exists post.
      * by rewrite Hp.
      * by injection Hp.
    + split; [done|]. intros (post & Hp). injection Hp as Hb _. by destruct Hab.
Qed.

Lemma contains_unfold k x :
  contains k x =
  String.prefix k x ||
  match x with EmptyString => false | String _ x' => contains k x' end.
Proof. by destruct x. Qed.

(** [contains k x] holds exactly when [k] occurs in [x]. *)
Lemma contains_spec k x :
  contains k x = true ↔ ∃ pre post, x = pre +:+ k +:+ post.
Proof.
  split.
  - induction x as [|c x IH]; rewrite contains_unfold;
      intros [Hp|Hc]%orb_true_iff; try done.
    + apply prefix_spec in Hp as [post ->]. by exists EmptyString, post.
    + apply prefix_spec in Hp as [post ->]. by exists EmptyString, post.
    + destruct (IH Hc) as (pre & post & ->). by exists (String c pre), post.
  - intros (pre & post & ->). induction pre as [|c pre IH]; rewrite contains_unfold.
    + apply orb_true_iff. left. apply prefix_spec. by exists post.
    + apply orb_true_iff. right. exact IH.
Qed.



(** X7.  [keyword_flag] is 1 exactly when one of the four keywords occurs
    somewhere in the lower-cased description, as a substring: inside a longer
    word as well as on its own. *)
Theorem keyword_flag_iff_substring df out description i x :
  compute_rule_flags df = OK out →
  columns df !! "description" = Some (SStr description) →
  description !! i = Some x →
  ∃ flags f,
    columns out !! "keyword_flag" = Some (SInt flags) ∧
    flags !! i = Some f ∧
    (f = 0 ∨ f = 1) ∧
    (f = 1 ↔ ∃ k pre post,
               k ∈ ["gift"; "manual"; "write-off"; "write off"] ∧
               lower x = pre +:+ k +:+ post).
Proof.
  intros Hrun Hde Hx.
  destruct (compute_rule_flags_inv _ _ Hrun)
    as (lh & en & dw & pd & ap & de & _ & _ & _ & _ & _ & Hde' & _ & _ & _ & _ & Hkw).
  assert (de = description) as -> by congruence.
  eexists _, _. split; [exact Hkw|].
  split; [by rewrite list_lookup_fmap, Hx|].
  split; [apply astype_int_01|].
  unfold astype_int. destruct (existsb _ KEYWORDS) eqn:E.
  - split; [intros _|done].
    apply existsb_exists in E as (k & Hk & Hc).
    apply contains_spec in Hc as (pre & post & Hc).
    exists k, pre, post. split; [by apply list_elem_of_In|done].
  - split; [done|]. intros (k & pre & post & Hk & Hc).
    assert (existsb (λ k, contains k (lower x)) KEYWORDS = true) as E'; [|congruence].
    apply existsb_exists. exists k. split; [by apply list_elem_of_In|].
    apply contains_spec. eauto.
Qed.

Lemma keyword_flag_iff_substring_witness :
  ∃ flags f,
    columns Sample.with_rules !! "keyword_flag" = Some (SInt flags) ∧
    flags !! 2%nat = Some f ∧
    (f = 0 ∨ f = 1) ∧
    (f = 1 ↔ ∃ k pre post,
               k ∈ ["gift"; "manual"; "write-off"; "write off"] ∧
               lower "Manual write-off for Q3" = pre +:+ k +:+ post).
Proof.
  apply (keyword_flag_iff_substring Sample.with_pairs Sample.with_rules
           ["Payroll"; "Payroll"; "Manual write-off for Q3"; "Gift cards"; "Rent"] 2).
  - by vm_compute.
  - by vm_compute.
  - reflexivity.
Defined.



(** ** Amount statistics, continued *)

Lemma fmod_100_zero a :
  feq (fmod (Some a) 100) 0 = true ↔ ∃ k, (a == inject_Z (100 * k))%Q.
Proof.
  unfold feq, fmod. rewrite Qeq_bool_iff. split.
  - intros H. exists (Qfloor (a / 100)). rewrite inject_Z_mult.
    change (inject_Z 100) with 100%Q. lra.
  - intros (k & Hk).
    assert (a / 100 == inject_Z k)%Q as Hq.
    { rewrite Hk, inject_Z_mult. change (inject_Z 100) with 100%Q. by field. }
    rewrite Hq, Qfloor_Z, Hk, inject_Z_mult. change (inject_Z 100) with 100%Q. ring.
Qed.

Lemma round_flag_spec x :
  astype_int (feq (fmod (Qabs <$> x) 100) 0) = 1 ↔
  ∃ a k, x = Some a ∧ (Qabs a == inject_Z (100 * k))%Q.
Proof.
  destruct x as [a|].
  - change (Qabs <$> Some a) with (Some (Qabs a)).
    unfold astype_int. destruct (feq (fmod (Some (Qabs a)) 100) 0) eqn:E.
    + apply fmod_100_zero in E as [k Hk]. split; [eauto|done].
    + split; [done|]. intros (a' & k & [= <-] & Hk).
      assert (feq (fmod (Some (Qabs a)) 100) 0 = true) as E'; [|congruence].
      apply fmod_100_zero. eauto.
  - split; [done|]. by intros (? & ? & [=] & _).
Qed.

Lemma Qabs_Qopp_eq a : Qabs (- a) = Qabs a.
Proof. destruct a as [n d]. unfold Qabs, Qopp. simpl. by rewrite Z.abs_opp. Qed.

(** The remainder by 100 of the [abs()] of a cell is 0 exactly when the
    absolute value of the cell is a multiple of 100: the one cell whose
    [abs()] is not its absolute value, the least [int64], is no multiple of
    100 either way. *)
Lemma series_abs_round c s amount abs_amount i x :
  as_float c s = OK amount →
  series_abs c s = OK abs_amount →
  amount !! i = Some x →
  ∃ y, abs_amount !! i = Some y ∧
       (astype_int (feq (fmod y 100) 0) = 1 ↔
        ∃ a k, x = Some a ∧ (Qabs a == inject_Z (100 * k))%Q).
Proof.
  intros Ham Habs Hx.
  destruct (series_abs_cases c s amount Ham) as [[-> E]|(xs & -> & -> & E)];
    rewrite E in Habs; injection Habs as <-.
  - exists (Qabs <$> x). split; [by rewrite list_lookup_fmap, Hx|].
    apply round_flag_spec.
  - rewrite list_lookup_fmap in Hx.
    destruct (xs !! i) as [z|] eqn:Hz; [|done]. injection Hx as <-.
    eexists. split; [by rewrite list_lookup_fmap, Hz|].
    unfold abs_int64. destruct (Z.abs z =? 2 ^ 63) eqn:Ez.
    + apply Z.eqb_eq in Ez. split.
      * intros H. vm_compute in H. discriminate H.
      * intros (a & k & [= <-] & Hk).
        change (inject_Z (Z.abs z) == inject_Z (100 * k))%Q in Hk.
        rewrite inject_Z_injective, Ez in Hk. lia.
    + apply (round_flag_spec (Some (inject_Z z))).
Qed.

Section AmountExtras.

Variable sqrtQ : Q → Q.

(** The frame [compute_amount_stats] returns, from the fact that it returns
    one. *)
Lemma compute_amount_stats_result df out s abs_amount account :
  compute_amount_stats sqrtQ df = OK out →
  columns df !! "amount" = Some s →
  series_abs "amount" s = OK abs_amount →
  columns df !! "account" = Some (SStr account) →
  let joined :=
    (λ a, let g := group_values a account abs_amount in (mean g, std sqrtQ g))
      <$> account in
  let amount_z := zip_with (λ x s, zscore x s.1 s.2) abs_amount joined in
  out =
  set_col (set_col (set_col (set_col (set_col (set_col df
    "abs_amount" (SFloat abs_amount))
    "avg_abs_amount" (SFloat (joined.*1)))
    "std_abs_amount" (SFloat (joined.*2)))
    "amount_z" (SFloat amount_z))
    "amount_outlier_flag" (SInt ((λ z, astype_int (fge z 2)) <$> amount_z)))
    "round_dollar_flag"
       (SInt ((λ x, astype_int (feq (fmod x 100) 0)) <$> abs_amount)).
Proof.
  exact (compute_amount_stats_with_result (exact_ops sqrtQ) df out s abs_amount
           account).
Qed.

End AmountExtras.

(** X9.  [round_dollar_flag] is 1 exactly when the absolute amount is a whole
    multiple of 100 (0 included); it is 0 for every other amount and for a
    missing one. *)
Theorem round_dollar_flag_iff_multiple_of_100
    (sqrtQ : Q → Q) df out amount account i x :
  compute_amount_stats sqrtQ df = OK out →
  get_float df "amount" = OK amount →
  columns df !! "account" = Some (SStr account) →
  amount !! i = Some x →
  ∃ flags f,
    columns out !! "round_dollar_flag" = Some (SInt flags) ∧
    flags !! i = Some f ∧
    (f = 0 ∨ f = 1) ∧
    (f = 1 ↔ ∃ a k, x = Some a ∧ (Qabs a == inject_Z (100 * k))%Q).
Proof.
  intros Hrun Ham Hacc Hx.
  apply get_float_OK in Ham as (s & Hs & Hf).
  destruct (series_abs_total "amount" s amount Hf) as (abs_amount & Habs & _).
  destruct (series_abs_round "amount" s amount abs_amount i x Hf Habs Hx)
    as (y & Hy & Hiff).
  rewrite (compute_amount_stats_result sqrtQ df out s abs_amount account
             Hrun Hs Habs Hacc).
  eexists _, _. split; [lookup_set_col|].
  split; [by rewrite !list_lookup_fmap, Hy|].
  split; [apply astype_int_01|].
  exact Hiff.
Qed.

Lemma round_dollar_flag_iff_multiple_of_100_witness :
  ∃ flags f,
    columns Sample.with_amounts !! "round_dollar_flag" = Some (SInt flags) ∧
    flags !! 0%nat = Some f ∧
    (f = 0 ∨ f = 1) ∧
    (f = 1 ↔ ∃ a k, Some (-500 # 1)%Q = Some a ∧ (Qabs a == inject_Z (100 * k))%Q).
Proof.
  apply (round_dollar_flag_iff_multiple_of_100 Sample.sqrt_fixed
           Sample.timed Sample.with_amounts
           [Some (-500 # 1); Some (500 # 1); Some (12345 # 100); Some (20 # 1);
            Some (100000 # 1)]%Q
           ["1000"; "2000"; "1000"; "1000"; "1000"] 0).
  - by vm_compute.
  - by vm_compute.
  - by vm_compute.
  - reflexivity.
Defined.

(** X10.  The sign of the amounts does not matter: with every amount negated,
    [compute_amount_stats] returns the same frame, the [amount] column
    apart. *)
Theorem amount_stats_ignore_sign (sqrtQ : Q → Q) df out
    (amount : list (option Q)) :
  compute_amount_stats sqrtQ df = OK out →
  columns df !! "amount" = Some (SFloat amount) →
  ∃ out',
    compute_amount_stats sqrtQ
      (set_col df "amount" (SFloat (fmap (M:=option) Qopp <$> amount))) = OK out' ∧
    nrows out' = nrows out ∧
    ∀ c, c ≠ "amount" → columns out' !! c = columns out !! c.
Proof.
  intros Hrun Ham.
  destruct (compute_amount_stats_inv _ _ _ Hrun)
    as (s & amount' & abs_amount & account & Hs & Hf & Habs & Hacc & Havg & Hstd).
  assert (s = SFloat amount) as -> by congruence.
  simpl in Habs. injection Habs as <-.
  rewrite (compute_amount_stats_result sqrtQ df out (SFloat amount) _ account
             Hrun Ham eq_refl Hacc).
  set (df' := set_col df "amount" (SFloat (fmap (M:=option) Qopp <$> amount))).
  assert (fmap Qabs <$> (fmap (M:=option) Qopp <$> amount) = fmap Qabs <$> amount) as Habs.
  { rewrite <- list_fmap_compose. apply list_fmap_ext. intros j [a|] _; [|done].
    exact (f_equal Some (Qabs_Qopp_eq a)). }
  eexists. split.
  - rewrite (compute_amount_stats_spec sqrtQ df'
               (SFloat (fmap (M:=option) Qopp <$> amount))
               (fmap Qabs <$> (fmap (M:=option) Qopp <$> amount)) account);
      [reflexivity|simpl; by rewrite lookup_insert_eq|reflexivity
      |simpl; by rewrite lookup_insert_ne..].
  - cbv zeta. rewrite Habs. split; [done|].
    intros c Hc. subst df'. simpl.
    rewrite !(lookup_insert _ _ c). repeat case_decide; done.
Qed.

Lemma amount_stats_ignore_sign_witness :
  ∃ out',
    compute_amount_stats Sample.sqrt_fixed
      (set_col Sample.timed "amount"
         (SFloat (fmap (M:=option) Qopp <$> [Some (-500 # 1); Some (500 # 1); Some (12345 # 100);
                                 Some (20 # 1); Some (100000 # 1)]%Q))) = OK out' ∧
    nrows out' = nrows Sample.with_amounts ∧
    ∀ c, c ≠ "amount" → columns out' !! c = columns Sample.with_amounts !! c.
Proof.
  apply (amount_stats_ignore_sign Sample.sqrt_fixed Sample.timed Sample.with_amounts).
  - by vm_compute.
  - by vm_compute.
Defined.

(** X11.  Whatever the floating-point arithmetic, the statistics of an
    account are computed once and broadcast: on a float [amount] column, the
    rows of one account all carry the [mean] and the sample [std] of the
    absolute amounts of that account, taken in row order. *)
Theorem amount_stats_broadcast_per_account
    (ar : FloatOps) df out (amount : list (option Q)) account i a :
  compute_amount_stats_with ar df = OK out →
  columns df !! "amount" = Some (SFloat amount) →
  columns df !! "account" = Some (SStr account) →
  account !! i = Some a →
  ∃ avg sd,
    columns out !! "avg_abs_amount" = Some (SFloat avg) ∧
    columns out !! "std_abs_amount" = Some (SFloat sd) ∧
    avg !! i = Some (agg_mean ar ((filter (λ r, r.1 = a)
                       (zip account (fmap (M:=option) Qabs <$> amount))).*2)) ∧
    sd !! i = Some (agg_std ar ((filter (λ r, r.1 = a)
                      (zip account (fmap (M:=option) Qabs <$> amount))).*2)) ∧
    ∀ j, account !! j = Some a → avg !! j = avg !! i ∧ sd !! j = sd !! i.
Proof.
  intros Hrun Ham Hacc Hi.
  rewrite (compute_amount_stats_with_result ar df out (SFloat amount) _ account
             Hrun Ham eq_refl Hacc).
  eexists _, _. split; [lookup_set_col|]. split; [lookup_set_col|].
  rewrite <- !list_fmap_compose, !list_lookup_fmap, Hi. simpl.
  split; [done|]. split; [done|].
  intros j Hj. by rewrite !list_lookup_fmap, Hj.
Qed.

Lemma amount_stats_broadcast_per_account_witness :
  ∃ avg sd,
    columns (Sample.unwrap (compute_amount_stats_with Binary64.ops Sample.timed))
      !! "avg_abs_amount" = Some (SFloat avg) ∧
    columns (Sample.unwrap (compute_amount_stats_with Binary64.ops Sample.timed))
      !! "std_abs_amount" = Some (SFloat sd) ∧
    avg !! 0%nat
      = Some (agg_mean Binary64.ops
                ((filter (λ r, r.1 = "1000")
                    (zip ["1000"; "2000"; "1000"; "1000"; "1000"]
                       (fmap (M:=option) Qabs <$>
                          [Some (-500 # 1); Some (500 # 1); Some (12345 # 100);
                           Some (20 # 1); Some (100000 # 1)]%Q))).*2)) ∧
    sd !! 0%nat
      = Some (agg_std Binary64.ops
                ((filter (λ r, r.1 = "1000")
                    (zip ["1000"; "2000"; "1000"; "1000"; "1000"]
                       (fmap (M:=option) Qabs <$>
                          [Some (-500 # 1); Some (500 # 1); Some (12345 # 100);
                           Some (20 # 1); Some (100000 # 1)]%Q))).*2)) ∧
    ∀ j, ["1000"; "2000"; "1000"; "1000"; "1000"] !! j = Some "1000" →
         avg !! j = avg !! 0%nat ∧ sd !! j = sd !! 0%nat.
Proof.
  apply (amount_stats_broadcast_per_account Binary64.ops Sample.timed).
  - by vm_compute.
  - by vm_compute.
  - by vm_compute.
  - reflexivity.
Defined.

(** ** User volume, continued *)

(** X12.  A user whose monthly entry counts are all the same, in particular
    a user who posted in one month only, has [entry_volume_z] 0 and
    [user_volume_outlier_flag] 0 on every line. *)
Theorem steady_user_is_no_volume_outlier (sqrtQ : Q → Q)
    df posting_date created_by entry_id u :
  (∀ v, (v == 0)%Q → (sqrtQ v == 0)%Q) →
  wf_frame df →
  columns df !! "posting_date" = Some (SDate posting_date) →
  columns df !! "created_by" = Some (SStr created_by) →
  columns df !! "entry_id" = Some (SStr entry_id) →
  columns df !! "entry_volume_z" = None →
  (∀ m m',
     m ∈ user_months created_by (month_floor <$> posting_date) u →
     m' ∈ user_months created_by (month_floor <$> posting_date) u →
     monthly_entries created_by (month_floor <$> posting_date) entry_id u m =
     monthly_entries created_by (month_floor <$> posting_date) entry_id u m') →
  ∃ out zs flags,
    compute_user_volume sqrtQ df = OK out ∧
    columns out !! "entry_volume_z" = Some (SFloat zs) ∧
    columns out !! "user_volume_outlier_flag" = Some (SInt flags) ∧
    ∀ i, created_by !! i = Some u →
      zs !! i = Some (Some 0%Q) ∧ flags !! i = Some 0.
Proof.
  intros Hsqrt Hwf Hpd Hcb Heid Hz Hsame.
  pose proof (compute_user_volume_spec sqrtQ df posting_date created_by entry_id
                Hwf Hpd Hcb Heid Hz) as Hrun. cbv zeta in Hrun.
  set (month_start := month_floor <$> posting_date) in *.
  pose proof (wf_lookup_len _ _ _ Hwf Hpd) as Hlpd.
  pose proof (wf_lookup_len _ _ _ Hwf Hcb) as Hlcb. simpl in Hlpd, Hlcb.
  eexists _, _, _. split; [exact Hrun|]. simpl.
  split; [by rewrite !lookup_insert_ne, lookup_insert_eq by done|].
  split; [by rewrite lookup_insert_eq|].
  intros i Hi.
  destruct (lookup_lt_is_Some_2 month_start i) as [m Hm].
  { unfold month_start. rewrite length_fmap, Hlpd, <- Hlcb. by eapply lookup_lt_Some. }
  assert (m ∈ user_months created_by month_start u) as Hin.
  { apply elem_of_group_keys, elem_of_group_values. eauto. }
  assert (volume_z (exact_ops sqrtQ) created_by month_start entry_id (u, m)
          = Some 0%Q) as Hv.
  { unfold volume_z. apply (zscore_nan_std _ (mean _) (std sqrtQ _)).
    apply (std_const sqrtQ Hsqrt _
             (inject_Z (monthly_entries created_by month_start entry_id u m))).
    intros x (ox & Hox & Hid)%list_elem_of_omap. simpl in Hid. subst ox.
    unfold user_monthly_counts in Hox. simpl in Hox.
    apply list_elem_of_fmap in Hox as (m' & [= ->] & Hm').
    rewrite merge_sort_Permutation in Hm'.
    by rewrite (Hsame m' m Hm' Hin). }
  assert ((volume_z (exact_ops sqrtQ) created_by month_start entry_id
             <$> zip created_by month_start) !! i = Some (Some 0%Q)) as Hzi.
  { by rewrite list_lookup_fmap, lookup_zip_with, Hi; simpl; rewrite Hm; simpl; rewrite Hv. }
  split; [done|]. by rewrite list_lookup_fmap, Hzi.
Qed.

Lemma steady_user_is_no_volume_outlier_witness :
  ∃ out zs flags,
    compute_user_volume Sample.sqrt_fixed Sample.with_amounts = OK out ∧
    columns out !! "entry_volume_z" = Some (SFloat zs) ∧
    columns out !! "user_volume_outlier_flag" = Some (SInt flags) ∧
    ∀ i, ["alice"; "alice"; "bob"; "bob"; "alice"] !! i = Some "bob" →
      zs !! i = Some (Some 0%Q) ∧ flags !! i = Some 0.
Proof.
  apply (steady_user_is_no_volume_outlier Sample.sqrt_fixed Sample.with_amounts
           [mkDate 2024 1 15; mkDate 2024 1 15; mkDate 2024 1 27;
            mkDate 2024 2 3; mkDate 2024 2 29]
           ["alice"; "alice"; "bob"; "bob"; "alice"]
           ["E1"; "E1"; "E2"; "E3"; "E4"] "bob").
  - exact sqrt_fixed_zero.
  - exact with_amounts_wf.
  - by vm_compute.
  - by vm_compute.
  - by vm_compute.
  - by vm_compute.
  - intros m m' Hm Hm'.
    match type of Hm with
    | _ ∈ ?l => let v := eval vm_compute in l in change l with v in Hm, Hm'
    end.
    repeat (apply elem_of_cons in Hm as [->|Hm]); [..|by apply elem_of_nil in Hm];
      (repeat (apply elem_of_cons in Hm' as [->|Hm']); [..|by apply elem_of_nil in Hm']);
      by vm_compute.
Defined.

(** ** Pair rarity, continued *)

(** X13.  [pair_count] and [rare_pair_flag] are functions of the row's
    (account, offset_account) pair: two rows with the same pair carry the
    same count, at least 1 and at most the number of rows, and the same
    flag. *)
Theorem pair_rarity_broadcast_per_pair df account offset_account i j a o :
  wf_frame df →
  columns df !! "account" = Some (SStr account) →
  columns df !! "offset_account" = Some (SStr offset_account) →
  columns df !! "pair_count" = None →
  account !! i = Some a → offset_account !! i = Some o →
  account !! j = Some a → offset_account !! j = Some o →
  ∃ out pair_count flags c f,
    compute_pair_rarity df = OK out ∧
    columns out !! "pair_count" = Some (SInt pair_count) ∧
    columns out !! "rare_pair_flag" = Some (SInt flags) ∧
    pair_count !! i = Some c ∧ pair_count !! j = Some c ∧
    1 ≤ c ≤ Z.of_nat (nrows df) ∧
    flags !! i = Some f ∧ flags !! j = Some f.
Proof.
  intros Hwf Hacc Hoff Hpc Hai Hoi Haj Hoj.
  destruct (compute_pair_rarity_spec df account offset_account Hwf Hacc Hoff Hpc)
    as (flags & Hrun & Hlen & Hflags).
  pose proof (wf_lookup_len _ _ _ Hwf Hacc) as Hla.
  pose proof (wf_lookup_len _ _ _ Hwf Hoff) as Hlo. simpl in Hla, Hlo.
  pose proof (pair_count_lookup _ _ i a o Hai Hoi) as Hci.
  pose proof (pair_count_lookup _ _ j a o Haj Hoj) as Hcj.
  eexists _, _, flags, _, _. split; [exact Hrun|]. simpl.
  split; [by rewrite lookup_insert_ne, lookup_insert_eq|].
  split; [by rewrite lookup_insert_eq|].
  split; [exact Hci|]. split; [exact Hcj|]. split.
  - unfold pair_count_of. split.
    + assert ((a, o) ∈ filter (λ p', p' = (a, o)) (zip account offset_account)) as Hin.
      { apply list_elem_of_filter. split; [done|].
        apply (list_elem_of_lookup_2 _ i). by rewrite lookup_zip_with, Hai; simpl; rewrite Hoi. }
      destruct (filter _ _); [by apply elem_of_nil in Hin | simpl; lia].
    + pose proof (length_filter (λ p', p' = (a, o)) (zip account offset_account)) as Hf.
      rewrite length_zip in Hf. lia.
  - rewrite (Hflags i a Hai), (Hflags j a Haj), Hci, Hcj. done.
Qed.

Lemma pair_rarity_broadcast_per_pair_witness :
  ∃ out pair_count flags c f,
    compute_pair_rarity Sample.with_volume = OK out ∧
    columns out !! "pair_count" = Some (SInt pair_count) ∧
    columns out !! "rare_pair_flag" = Some (SInt flags) ∧
    pair_count !! 0%nat = Some c ∧ pair_count !! 4%nat = Some c ∧
    1 ≤ c ≤ Z.of_nat (nrows Sample.with_volume) ∧
    flags !! 0%nat = Some f ∧ flags !! 4%nat = Some f.
Proof.
  apply (pair_rarity_broadcast_per_pair Sample.with_volume
           ["1000"; "2000"; "1000"; "1000"; "1000"]
           ["2000"; "1000"; "2000"; "3000"; "2000"] 0 4 "1000" "2000").
  - exact with_volume_wf.
  - by vm_compute.
  - by vm_compute.
  - by vm_compute.
  - reflexivity.
  - reflexivity.
  - reflexivity.
  - reflexivity.
Defined.

(** X14.  When the rows of an account all have the same pair count, however
    large, the threshold of the account is that count and every row of the
    account gets [rare_pair_flag] 1. *)
Theorem equally_common_pairs_all_flagged df account offset_account a :
  wf_frame df →
  columns df !! "account" = Some (SStr account) →
  columns df !! "offset_account" = Some (SStr offset_account) →
  columns df !! "pair_count" = None →
  (∀ c c', c ∈ account_pair_counts account offset_account a →
           c' ∈ account_pair_counts account offset_account a → c = c') →
  ∃ out flags,
    compute_pair_rarity df = OK out ∧
    columns out !! "rare_pair_flag" = Some (SInt flags) ∧
    ∀ i, account !! i = Some a → flags !! i = Some 1.
Proof.
  intros Hwf Hacc Hoff Hpc Hsame.
  destruct (compute_pair_rarity_spec df account offset_account Hwf Hacc Hoff Hpc)
    as (flags & Hrun & Hlen & Hflags).
  pose proof (wf_lookup_len _ _ _ Hwf Hacc) as Hla.
  pose proof (wf_lookup_len _ _ _ Hwf Hoff) as Hlo. simpl in Hla, Hlo.
  eexists _, flags. split; [exact Hrun|]. simpl.
  split; [by rewrite lookup_insert_eq|].
  intros i Hi. rewrite (Hflags i a Hi).
  destruct (lookup_lt_is_Some_2 offset_account i) as [o Ho].
  { rewrite Hlo, <- Hla. by eapply lookup_lt_Some. }
  pose proof (pair_count_lookup _ _ i a o Hi Ho) as Hci. rewrite Hci. simpl.
  set (c := pair_count_of (zip account offset_account) (a, o)) in *.
  assert (c ∈ account_pair_counts account offset_account a) as Hin.
  { apply elem_of_group_values. eauto. }
  destruct (percentile_is_Some (account_pair_counts account offset_account a) 25)
    as [t Ht].
  { intros E. rewrite E in Hin. by apply elem_of_nil in Hin. }
  rewrite Ht. f_equal. apply rare_flag_one. left. exists t. split; [done|].
  apply (percentile_lower_bound (account_pair_counts account offset_account a) 25 c t);
    [done|done| |done].
  intros x Hx. rewrite (Hsame x c Hx Hin). lia.
Qed.

Lemma one_pair_wf : wf_frame Cases.one_pair.
Proof. apply (bool_decide_unpack (wf_frame Cases.one_pair)). by vm_compute. Qed.

Lemma equally_common_pairs_all_flagged_witness :
  ∃ out flags,
    compute_pair_rarity Cases.one_pair = OK out ∧
    columns out !! "rare_pair_flag" = Some (SInt flags) ∧
    ∀ i, ["1000"; "1000"; "1000"] !! i = Some "1000" → flags !! i = Some 1.
Proof.
  apply (equally_common_pairs_all_flagged Cases.one_pair
           ["1000"; "1000"; "1000"] ["2000"; "2000"; "2000"] "1000").
  - exact one_pair_wf.
  - by vm_compute.
  - by vm_compute.
  - by vm_compute.
  - intros c c' Hc Hc'.
    match type of Hc with
    | _ ∈ ?l => let v := eval vm_compute in l in change l with v in Hc, Hc'
    end.
    repeat (apply elem_of_cons in Hc as [->|Hc]); [..|by apply elem_of_nil in Hc];
      (repeat (apply elem_of_cons in Hc' as [->|Hc']); [..|by apply elem_of_nil in Hc']);
      done.
Defined.

(** ** The risk aggregator, continued *)

(** The loop of lines 139-140 reads the frame only at the flag columns. *)
Lemma add_flags_ext df df' ws : ∀ score,
  nrows df' = nrows df →
  (∀ fw, fw ∈ ws → columns df' !! fw.1 = columns df !! fw.1) →
  add_flags df' score ws = add_flags df score ws.
Proof.
  induction ws as [|fw ws IH]; intros score Hn Hcols; [done|]. simpl.
  assert (add_flag df' score fw = add_flag df score fw) as ->.
  { unfold add_flag, flag_times_weight. rewrite Hn, (Hcols fw); [done|]. by left. }
  destruct (add_flag df score fw) as [score'|e]; [|done]. simpl.
  apply IH; [done|]. intros fw' Hfw'. apply Hcols. by right.
Qed.

(** X15.  Scoring a frame that was already scored changes nothing: the
    aggregator reads the flag columns only and writes [risk_score] over the
    score that is there. *)
Theorem compute_risk_score_idempotent df out :
  compute_risk_score df = OK out → compute_risk_score out = OK out.
Proof.
  intros Hrun. unfold compute_risk_score in *.
  inv_bind Hrun. rename v into score, E into Hscore. injection Hrun as <-.
  rewrite (add_flags_ext df (set_col df "risk_score" _)); cbn [nrows set_col].
  - rewrite Hscore. simpl. unfold set_col. simpl. by rewrite insert_insert_eq.
  - done.
  - intros fw Hfw. simpl. rewrite lookup_insert_ne; [done|].
    intros E. by apply (weights_not_risk_score fw).
Qed.

Lemma compute_risk_score_idempotent_witness :
  compute_risk_score Sample.scored = OK Sample.scored.
Proof.
  apply (compute_risk_score_idempotent Sample.with_rules Sample.scored).
  by vm_compute.
Defined.

Lemma flag_or_zero_01 df c i :
  is_flag_col df c → flag_or_zero df c i = 0 ∨ flag_or_zero df c i = 1.
Proof.
  intros (xs & Hxs & H01). unfold flag_or_zero. rewrite Hxs.
  destruct (xs !! i) as [f|] eqn:Hf; simpl; [|by left].
  by eapply (proj1 (Forall_lookup _ _) H01).
Qed.

(** X16.  With the nine flags in the frame, a row scores 0 exactly when none
    of its flags is set, and 100 exactly when its weighted sum reaches 100;
    the clip lowers a sum only when every flag other than [keyword_flag] is
    set (the sums 105 and 110). *)
Theorem risk_score_clips_only_near_saturation df :
  wf_frame df →
  (∀ fw, fw ∈ weights → is_flag_col df fw.1) →
  ∃ out score,
    compute_risk_score df = OK out ∧
    columns out !! "risk_score" = Some (SFloat score) ∧
    ∀ i, (i < nrows df)%nat →
      ∃ q, score !! i = Some (Some q) ∧
        ((q == 0)%Q ↔ Forall (λ fw, flag_or_zero df fw.1 i = 0) weights) ∧
        ((q == 100)%Q ↔ 100 ≤ total_sum df weights i) ∧
        (100 < total_sum df weights i ↔
         Forall (λ fw, fw.1 = "keyword_flag" ∨ flag_or_zero df fw.1 i = 1) weights).
Proof.
  intros Hwf Hflags.
  destruct (compute_risk_score_spec df) as (score & Hrun & Hlen & Hcells).
  { intros fw s Hfw Hs. destruct (Hflags fw Hfw) as (xs & Hxs & Hbits).
    exists xs. split; [congruence|]. split; [|done].
    apply (wf_lookup_len _ _ _ Hwf Hxs). }
  eexists _, score. split; [exact Hrun|]. split; [lookup_set_col|].
  intros i Hi. destruct (Hcells i Hi) as (q & Hq & Hqe). exists q. split; [done|].
  assert (Forall (λ fw, flag_or_zero df fw.1 i = 0 ∨ flag_or_zero df fw.1 i = 1) weights)
    as H01.
  { apply Forall_forall. intros fw Hfw. by apply flag_or_zero_01, Hflags. }
  assert (∀ z, (q == inject_Z z)%Q ↔ clip_int 0 100 (total_sum df weights i) = z) as Hqz.
  { intros z. rewrite Hqe, inject_Z_injective. done. }
  change 0%Q with (inject_Z 0). change 100%Q with (inject_Z 100). rewrite !Hqz.
  clear Hqz Hqe Hq Hcells Hrun Hlen Hflags.
  unfold weights, total_sum, clip_int in *. simpl in *.
  repeat (apply Forall_cons in H01 as [? H01]). simpl in *.
  split; [|split].
  - split.
    + intros Hz. repeat (apply Forall_cons; split); try apply Forall_nil_2; simpl; lia.
    + intros Hz. repeat (apply Forall_cons in Hz as [? Hz]). simpl in *. lia.
  - lia.
  - split.
    + intros Hs. repeat (apply Forall_cons; split); try apply Forall_nil_2; simpl;
        first [by left | right; lia].
    + intros Hs. repeat (apply Forall_cons in Hs as [[?|?] Hs]); simpl in *;
        try discriminate; lia.
Qed.

Lemma all_flags_wf : wf_frame Cases.all_flags.
Proof. apply (bool_decide_unpack (wf_frame Cases.all_flags)). by vm_compute. Qed.

Lemma risk_score_clips_only_near_saturation_witness :
  ∃ out score,
    compute_risk_score Cases.all_flags = OK out ∧
    columns out !! "risk_score" = Some (SFloat score) ∧
    ∀ i, (i < nrows Cases.all_flags)%nat →
      ∃ q, score !! i = Some (Some q) ∧
        ((q == 0)%Q ↔ Forall (λ fw, flag_or_zero Cases.all_flags fw.1 i = 0) weights) ∧
        ((q == 100)%Q ↔ 100 ≤ total_sum Cases.all_flags weights i) ∧
        (100 < total_sum Cases.all_flags weights i ↔
         Forall (λ fw, fw.1 = "keyword_flag" ∨ flag_or_zero Cases.all_flags fw.1 i = 1)
                weights).
Proof.
  apply (risk_score_clips_only_near_saturation Cases.all_flags).
  - exact all_flags_wf.
  - intros fw Hfw. unfold weights in Hfw.
    repeat (apply elem_of_cons in Hfw as [->|Hfw]); [..|by apply elem_of_nil in Hfw];
      (eexists; split; [by vm_compute|];
       repeat (apply Forall_cons; split); try apply Forall_nil_2; auto).
Defined.

(** ** The columns of a run *)

Lemma add_time_features_inv (tz_localize : Timestamp → string → Result Timestamp)
    df out :
  add_time_features tz_localize df = OK out →
  ∃ ts tzs pd lh,
    columns df !! "posting_timestamp" = Some (STime ts) ∧
    columns df !! "time_zone" = Some (SStr tzs) ∧
    columns df !! "posting_date" = Some (SDate pd) ∧
    traverse (λ r, hour <$> tz_localize r.1 r.2) (zip ts tzs) = OK lh ∧
    out = set_col (set_col df "local_hour" (SInt lh)) "dow" (SInt (dayofweek <$> pd)).
Proof.
  intros Hrun. unfold add_time_features in Hrun.
  inv_bind Hrun. rename v into ts, E into Hts. apply get_time_OK in Hts.
  inv_bind Hrun. rename v into tzs, E into Htz. apply get_str_OK in Htz.
  inv_bind Hrun. rename v into lh, E into Hlh.
  inv_bind Hrun. rename v into pd, E into Hpd. apply get_date_OK in Hpd.
  strip_inserts Hpd. injection Hrun as <-. eauto 10.
Qed.

Lemma add_time_features_intro (tz_localize : Timestamp → string → Result Timestamp)
    df ts tzs pd lh :
  columns df !! "posting_timestamp" = Some (STime ts) →
  columns df !! "time_zone" = Some (SStr tzs) →
  columns df !! "posting_date" = Some (SDate pd) →
  traverse (λ r, hour <$> tz_localize r.1 r.2) (zip ts tzs) = OK lh →
  add_time_features tz_localize df =
  OK (set_col (set_col df "local_hour" (SInt lh)) "dow" (SInt (dayofweek <$> pd))).
Proof.
  intros Hts Htz Hpd Hlh. unfold add_time_features.
  rewrite (bind_OK _ _ ts) by by apply get_time_OK.
  rewrite (bind_OK _ _ tzs) by by apply get_str_OK.
  rewrite (bind_OK _ _ lh) by done.
  rewrite (bind_OK _ _ pd); [done|].
  apply get_date_OK. simpl. by rewrite lookup_insert_ne.
Qed.

Section Columns.

Variable sqrtQ : Q → Q.
Variable tz_localize : Timestamp → string → Result Timestamp.

Lemma add_time_features_dom df out :
  add_time_features tz_localize df = OK out →
  dom (columns out) = list_to_set ["local_hour"; "dow"] ∪ dom (columns df).
Proof.
  intros (ts & tzs & pd & lh & _ & _ & _ & _ & ->)%add_time_features_inv.
  simpl. rewrite !dom_insert_L. apply set_eq. intros c. set_unfold. tauto.
Qed.

Lemma compute_amount_stats_dom df out :
  compute_amount_stats sqrtQ df = OK out →
  dom (columns out) =
  list_to_set ["abs_amount"; "avg_abs_amount"; "std_abs_amount"; "amount_z";
               "amount_outlier_flag"; "round_dollar_flag"] ∪ dom (columns df).
Proof.
  intros Hrun.
  destruct (compute_amount_stats_inv _ _ _ Hrun)
    as (s & amount & abs_amount & account & Hs & _ & Habs & Hacc & Ha & Hsd).
  rewrite (compute_amount_stats_spec sqrtQ df s abs_amount account
             Hs Habs Hacc Ha Hsd) in Hrun.
  injection Hrun as <-. simpl. rewrite !dom_insert_L. apply set_eq. intros c. set_unfold. tauto.
Qed.

Lemma compute_user_volume_dom df out :
  wf_frame df →
  compute_user_volume sqrtQ df = OK out →
  dom (columns out) =
  list_to_set ["month_start"; "entry_volume_z"; "user_volume_outlier_flag"]
    ∪ dom (columns df).
Proof.
  intros Hwf Hrun.
  destruct (compute_user_volume_inv _ _ _ Hrun)
    as (pd & cb & eid & Hpd & Hcb & Heid & Hz).
  rewrite (compute_user_volume_spec sqrtQ df pd cb eid Hwf Hpd Hcb Heid Hz) in Hrun.
  injection Hrun as <-. simpl. rewrite !dom_insert_L. apply set_eq. intros c. set_unfold. tauto.
Qed.

Lemma compute_pair_rarity_dom df out :
  wf_frame df →
  compute_pair_rarity df = OK out →
  dom (columns out) = list_to_set ["pair_count"; "rare_pair_flag"] ∪ dom (columns df).
Proof.
  intros Hwf Hrun.
  destruct (compute_pair_rarity_inv _ _ Hrun) as (acc & off & Hacc & Hoff & Hpc).
  destruct (compute_pair_rarity_spec df acc off Hwf Hacc Hoff Hpc)
    as (flags & Hspec & _).
  rewrite Hspec in Hrun. injection Hrun as <-. simpl. rewrite !dom_insert_L. apply set_eq. intros c. set_unfold. tauto.
Qed.

Lemma compute_rule_flags_dom df out :
  compute_rule_flags df = OK out →
  dom (columns out) =
  list_to_set ["after_hours_flag"; "weekend_flag"; "period_close_flag";
               "approval_pending_flag"; "keyword_flag"] ∪ dom (columns df).
Proof.
  intros Hrun. unfold compute_rule_flags in Hrun.
  do 6 inv_bind Hrun. injection Hrun as <-.
  simpl. rewrite !dom_insert_L. apply set_eq. intros c. set_unfold. tauto.
Qed.

Lemma compute_risk_score_dom df out :
  compute_risk_score df = OK out →
  dom (columns out) = {["risk_score"]} ∪ dom (columns df).
Proof.
  intros Hrun. unfold compute_risk_score in Hrun. inv_bind Hrun.
  injection Hrun as <-. simpl. by rewrite dom_insert_L.
Qed.

Lemma run_dom tbl out :
  wf_frame tbl →
  run sqrtQ tz_localize tbl = OK out →
  dom (columns out) = list_to_set ("risk_score" :: derived_cols) ∪ dom (columns tbl).
Proof.
  intros Hwf Hrun. unfold run in Hrun.
  inv_bind Hrun. rename v into df0, E into H0.
  apply load_data_OK in H0 as [-> _].
  inv_bind Hrun. rename v into df1, E into H1.
  inv_bind Hrun. rename v into df2, E into H2.
  inv_bind Hrun. rename v into df3, E into H3.
  inv_bind Hrun. rename v into df4, E into H4.
  inv_bind Hrun. rename v into df5, E into H5.
  destruct (add_time_features_frame _ _ _ Hwf H1) as (Hwf1 & _).
  destruct (compute_amount_stats_frame _ _ _ Hwf1 H2) as (Hwf2 & _).
  destruct (compute_user_volume_frame _ _ _ Hwf2 H3) as (Hwf3 & _).
  rewrite (compute_risk_score_dom _ _ Hrun), (compute_rule_flags_dom _ _ H5),
    (compute_pair_rarity_dom _ _ Hwf3 H4), (compute_user_volume_dom _ _ Hwf2 H3),
    (compute_amount_stats_dom _ _ H2), (add_time_features_dom _ _ H1).
  unfold derived_cols. apply set_eq. intros c. set_unfold. tauto.
Qed.

(** A run returns a frame only for a table that does not yet have the four
    columns that the joins and the merge add. *)
Lemma run_fresh_names tbl out :
  wf_frame tbl →
  run sqrtQ tz_localize tbl = OK out →
  columns tbl !! "avg_abs_amount" = None ∧
  columns tbl !! "std_abs_amount" = None ∧
  columns tbl !! "entry_volume_z" = None ∧
  columns tbl !! "pair_count" = None.
Proof.
  intros Hwf Hrun. unfold run in Hrun.
  inv_bind Hrun. rename v into df0, E into H0.
  apply load_data_OK in H0 as [-> _].
  inv_bind Hrun. rename v into df1, E into H1.
  inv_bind Hrun. rename v into df2, E into H2.
  inv_bind Hrun. rename v into df3, E into H3.
  inv_bind Hrun. rename v into df4, E into H4.
  destruct (add_time_features_frame _ _ _ Hwf H1) as (Hwf1 & [_ Hx1]).
  destruct (compute_amount_stats_frame _ _ _ Hwf1 H2) as (Hwf2 & [_ Hx2] & _).
  destruct (compute_user_volume_frame _ _ _ Hwf2 H3) as (Hwf3 & [_ Hx3] & _).
  destruct (compute_amount_stats_inv _ _ _ H2) as (? & ? & ? & ? & _ & _ & _ & _ & Ha & Hs).
  destruct (compute_user_volume_inv _ _ _ H3) as (? & ? & ? & _ & _ & _ & Hz).
  destruct (compute_pair_rarity_inv _ _ H4) as (? & ? & _ & _ & Hp).
  rewrite Hx1 in Ha, Hs by not_in_list.
  rewrite Hx2, Hx1 in Hz by not_in_list.
  rewrite Hx3, Hx2, Hx1 in Hp by not_in_list.
  done.
Qed.

End Columns.

(** X17.  A run keeps every column of its input and adds nineteen columns
    of its own, the eighteen that the stages derive and [risk_score]; none of
    them has the name of a required source column. *)
Theorem run_adds_the_derived_columns
    (sqrtQ : Q → Q) (tz_localize : Timestamp → string → Result Timestamp) tbl out :
  wf_frame tbl →
  run sqrtQ tz_localize tbl = OK out →
  dom (columns out) = list_to_set ("risk_score" :: derived_cols) ∪ dom (columns tbl) ∧
  length ("risk_score" :: derived_cols) = 19%nat ∧
  NoDup ("risk_score" :: derived_cols) ∧
  ∀ c, c ∈ expected_cols → c ∉ "risk_score" :: derived_cols.
Proof.
  intros Hwf Hrun. split; [by eapply run_dom|]. split; [done|].
  split; [|apply expected_not_derived].
  apply (bool_decide_unpack (NoDup ("risk_score" :: derived_cols))). by vm_compute.
Qed.

Lemma run_adds_the_derived_columns_witness :
  dom (columns Sample.scored)
    = list_to_set ("risk_score" :: derived_cols) ∪ dom (columns Sample.ledger) ∧
  length ("risk_score" :: derived_cols) = 19%nat ∧
  NoDup ("risk_score" :: derived_cols) ∧
  ∀ c, c ∈ expected_cols → c ∉ "risk_score" :: derived_cols.
Proof.
  exact (run_adds_the_derived_columns Sample.sqrt_fixed Sample.tz_table
           Sample.ledger Sample.scored ledger_wf ledger_run).
Defined.

Lemma join_check_Err df c s :
  columns df !! c = Some s → join_check df c = Err (OverlapError c).
Proof. unfold join_check. by intros ->. Qed.

(** X18.  A run succeeds only on a table without columns named
    [avg_abs_amount], [std_abs_amount], [entry_volume_z] and [pair_count];
    so the frame a run returns cannot be run again: loading and the time
    features succeed on it, and [compute_amount_stats] then fails at the join,
    on the [avg_abs_amount] that is already there. *)
Theorem run_refuses_its_own_output
    (sqrtQ : Q → Q) (tz_localize : Timestamp → string → Result Timestamp) tbl out :
  wf_frame tbl →
  run sqrtQ tz_localize tbl = OK out →
  (columns tbl !! "avg_abs_amount" = None ∧
   columns tbl !! "std_abs_amount" = None ∧
   columns tbl !! "entry_volume_z" = None ∧
   columns tbl !! "pair_count" = None) ∧
  run sqrtQ tz_localize out = Err (OverlapError "avg_abs_amount").
Proof.
  intros Hwf Hrun. split; [by eapply run_fresh_names|].
  pose proof (run_dom sqrtQ tz_localize tbl out Hwf Hrun) as Hdom.
  destruct (run_spec _ _ _ _ Hwf Hrun)
    as (df & score & Hout & Hsub & _ & [_ Hcols] & _ & _).
  assert (∀ c, c ∉ "risk_score" :: derived_cols →
               columns out !! c = columns tbl !! c) as Hsame.
  { intros c [Hne Hnd]%not_elem_of_cons. rewrite Hout. simpl.
    rewrite lookup_insert_ne by done. by apply Hcols. }
  assert (is_Some (columns out !! "avg_abs_amount")) as [s Havg].
  { apply elem_of_dom. rewrite Hdom. apply elem_of_union_l, elem_of_list_to_set.
    unfold derived_cols. in_list. }
  assert (load_data out = OK out) as Hload.
  { apply load_data_OK. split; [done|]. rewrite Hdom. intros c Hc.
    by apply elem_of_union_r, Hsub. }
  unfold run in Hrun.
  inv_bind Hrun. rename v into df0, E into H0.
  apply load_data_OK in H0 as [-> _].
  inv_bind Hrun. rename v into df1, E into H1.
  inv_bind Hrun. rename v into df2, E into H2.
  destruct (add_time_features_frame _ _ _ Hwf H1) as (_ & [_ Hx1]).
  destruct (add_time_features_inv _ _ _ H1)
    as (ts & tzs & pd & lh & Hts & Htz & Hpd & Hlh & _).
  destruct (compute_amount_stats_inv _ _ _ H2)
    as (sa & amount & abs_amount & account & Hsa & _ & Habs & Hacc & _ & _).
  rewrite Hx1 in Hsa, Hacc by not_in_list.
  rewrite <- Hsame in Hts, Htz, Hpd, Hsa, Hacc by (unfold derived_cols; not_in_list).
  pose proof (add_time_features_intro tz_localize out ts tzs pd lh Hts Htz Hpd Hlh)
    as Htime.
  unfold run. rewrite Hload. simpl. rewrite Htime. simpl.
  unfold compute_amount_stats, compute_amount_stats_with.
  rewrite (bind_OK _ _ sa).
  2:{ apply col_OK. simpl. by rewrite !lookup_insert_ne. }
  rewrite (bind_OK _ _ abs_amount) by done.
  rewrite (bind_OK _ _ account).
  2:{ apply get_str_OK. simpl. by rewrite !lookup_insert_ne. }
  rewrite (join_check_Err _ "avg_abs_amount" s); [done|].
  simpl. by rewrite !lookup_insert_ne.
Qed.

Lemma run_refuses_its_own_output_witness :
  (columns Sample.ledger !! "avg_abs_amount" = None ∧
   columns Sample.ledger !! "std_abs_amount" = None ∧
   columns Sample.ledger !! "entry_volume_z" = None ∧
   columns Sample.ledger !! "pair_count" = None) ∧
  run Sample.sqrt_fixed Sample.tz_table Sample.scored
    = Err (OverlapError "avg_abs_amount").
Proof.
  exact (run_refuses_its_own_output Sample.sqrt_fixed Sample.tz_table
           Sample.ledger Sample.scored ledger_wf ledger_run).
Defined.
